(** * wav-decoder-ts: a shallow embedding of [src/index.ts]

    The decoder is a forward byte cursor ([createReader]) over a [DataView],
    a RIFF chunk walker ([decodeSync]), a format-chunk decoder
    ([decodeFormat]) and a sample decoder ([decodeData], [readPCM]).

    Modelling choices.
    - The buffer is a [list byte]. A [DataView] read outside the buffer
      throws a [RangeError]; this is the only thing that keeps the cursor
      inside the buffer, so it is modelled.
    - The cursor position and every integer the code computes are JavaScript
      numbers holding integers far below 2^53, where double arithmetic is
      exact: they are [Z].
    - The frame count [Math.floor (chunkSize / blockSize / numberOfChannels)]
      can be infinite or NaN (division by zero): it is a [jsnum], an exact
      rational or one of the special values. For operands of 32 and 16 bits
      the two rounded double divisions cannot move the quotient across an
      integer, so the floor of the exact quotient is the floor JavaScript
      computes.
    - Sample values are IEEE doubles ([PrimFloat.float]); a store into a
      [Float32Array] rounds to binary32 ([fround]).
    - The loops whose bound the input decides (the chunk loop, the frame
      loop) run on fuel; a run that exhausts it is [Diverge].
    - A call runs in a world of its own, on the bytes of an [ArrayBuffer].
      What outlives a call (the module's [formats] object, [global.Buffer]
      and the typed arrays, by address) is explicit in [Store], where
      [decodeSync] takes a world and leaves one, and where the copy of a
      Node [Buffer] into an [ArrayBuffer] at its start is modelled. An
      environment without the binding [global] is not.
    - Left out: the promise wrapper [decode]. *)

From Stdlib Require Import ZArith List Lia Bool QArith Qround.
From Stdlib Require Import Strings.String Strings.Ascii Strings.Byte DecimalString DecimalN.
From Stdlib Require Import Floats.
From stdpp Require Import base list.

Import ListNotations.
Local Open Scope Z_scope.

(* ===================================================================== *)
(** * JavaScript numbers *)
(* ===================================================================== *)

Module JS.

(** A number that may fail to be finite: the result of [/] and [Math.floor]
    on integers. *)
Inductive jsnum :=
| Fin (q : Q)
| PInf
| NInf
| NaN.

Definition of_Z (z : Z) : jsnum := Fin (inject_Z z).

(** [a / b] for a finite divisor [b >= 0] (every divisor in the decoder is an
    unsigned 16-bit field). *)
Definition div (a : jsnum) (b : Z) : jsnum :=
  match a with
  | Fin q =>
      if b =? 0 then
        match Qnum q ?= 0 with
        | Gt => PInf
        | Lt => NInf
        | Eq => NaN
        end
      else Fin (q / inject_Z b)
  | PInf => PInf
  | NInf => NInf
  | NaN => NaN
  end.

(** [Math.floor]. *)
Definition floor (a : jsnum) : jsnum :=
  match a with
  | Fin q => Fin (inject_Z (Qfloor q))
  | other => other
  end.

(** The integer part of a finite number, as ToIndex takes it. *)
Definition truncate (q : Q) : Z :=
  if Qnum q <? 0 then Qceiling q else Qfloor q.

(** [i < a] for an integer [i]; every comparison with NaN is false. *)
Definition ltb (i : Z) (a : jsnum) : bool :=
  match a with
  | Fin q => negb (Qle_bool q (inject_Z i))
  | PInf => true
  | NInf => false
  | NaN => false
  end.

(** [i++] on a double holding an integer: exact below 2^53, and stuck at
    2^53 (2^53 + 1 rounds back to 2^53). *)
Definition incr (i : Z) : Z :=
  if i <? 2 ^ 53 then i + 1 else i.

(** ToInt32, and the shift [a << k] of the bitwise operators. *)
Definition to_int32 (z : Z) : Z :=
  let m := z mod 2 ^ 32 in
  if m <? 2 ^ 31 then m else m - 2 ^ 32.

Definition shl (a k : Z) : Z :=
  to_int32 (Z.shiftl (to_int32 a) (k mod 32)).

(** An integer below 2^53 as a double (exact). *)
Definition float_of_Z (z : Z) : float :=
  match z with
  | Z0 => PrimFloat.zero
  | Zpos _ => PrimFloat.of_uint63 (Uint63.of_Z z)
  | Zneg p => PrimFloat.opp (PrimFloat.of_uint63 (Uint63.of_Z (Zpos p)))
  end.

(** A [spec_float] of any precision as the double with the same value
    (exact for binary32 and binary64 values). *)
Definition float_of_spec (x : spec_float) : float :=
  match x with
  | S754_finite s m e => SF2Prim (binary_round 53 1024 s m e)
  | other => SF2Prim other
  end.

(** [Math.fround]: round to the nearest binary32 value, ties to even. This
    is what a store into a [Float32Array] does. *)
Definition fround (x : float) : float :=
  match Prim2SF x with
  | S754_finite s m e => float_of_spec (binary_round 24 128 s m e)
  | _ => x
  end.

(** The value of an IEEE 754 bit pattern with [ebits] exponent bits and
    [fbits] fraction bits. *)
Definition decode_ieee (ebits fbits : Z) (bits : Z) : spec_float :=
  let frac := bits mod 2 ^ fbits in
  let expo := (bits / 2 ^ fbits) mod 2 ^ ebits in
  let sign := Z.testbit bits (ebits + fbits) in
  let bias := 2 ^ (ebits - 1) - 1 in
  if expo =? 2 ^ ebits - 1 then
    if frac =? 0 then S754_infinity sign else S754_nan
  else if expo =? 0 then
    match frac with
    | Zpos m => S754_finite sign m (1 - bias - fbits)
    | _ => S754_zero sign
    end
  else
    match frac + 2 ^ fbits with
    | Zpos m => S754_finite sign m (expo - bias - fbits)
    | _ => S754_zero sign
    end.

Definition float_of_bits32 (bits : Z) : float :=
  float_of_spec (decode_ieee 8 23 bits).

Definition float_of_bits64 (bits : Z) : float :=
  float_of_spec (decode_ieee 11 52 bits).

End JS.

(* ===================================================================== *)
(** * DataView *)
(* ===================================================================== *)

Definition byte_val (b : byte) : Z := Z.of_N (Byte.to_N b).

Definition byteLength (dataView : list byte) : Z :=
  Z.of_nat (length dataView).

(** The [n] bytes at offset [p], or [None] where [DataView] throws a
    [RangeError]: a negative offset, or a range that ends past the buffer. *)
Definition get_bytes (dataView : list byte) (p : Z) (n : nat) : option (list Z) :=
  if (0 <=? p) && (p + Z.of_nat n <=? byteLength dataView)
  then Some (map byte_val (firstn n (skipn (Z.to_nat p) dataView)))
  else None.

(** Little-endian value of a byte sequence. *)
Fixpoint le_uint (bs : list Z) : Z :=
  match bs with
  | [] => 0
  | b :: rest => b + 256 * le_uint rest
  end.

Definition signed (bits : Z) (u : Z) : Z :=
  if u <? 2 ^ (bits - 1) then u else u - 2 ^ bits.

Definition getUint8 dv p : option Z := option_map le_uint (get_bytes dv p 1).
Definition getUint16 dv p : option Z := option_map le_uint (get_bytes dv p 2).
Definition getInt16 dv p : option Z :=
  option_map (fun bs => signed 16 (le_uint bs)) (get_bytes dv p 2).
Definition getUint32 dv p : option Z := option_map le_uint (get_bytes dv p 4).
Definition getInt32 dv p : option Z :=
  option_map (fun bs => signed 32 (le_uint bs)) (get_bytes dv p 4).
Definition getFloat32 dv p : option float :=
  option_map (fun bs => JS.float_of_bits32 (le_uint bs)) (get_bytes dv p 4).
Definition getFloat64 dv p : option float :=
  option_map (fun bs => JS.float_of_bits64 (le_uint bs)) (get_bytes dv p 8).

(* ===================================================================== *)
(** * Outcomes and the reader monad *)
(* ===================================================================== *)

(** What the code throws, or returns as an [Error] object. *)
Inductive Exn :=
| InvalidWav                       (* TypeError 'Invalid WAV file' *)
| UnsupportedFormat (formatId : Z) (* TypeError 'Unsupported format in WAV file: 0x..' *)
| NotSupportedBitDepth (bitDepth : Z) (* TypeError 'Not supported bit depth: ..' *)
| OutOfBounds                      (* RangeError of a DataView read outside the buffer *)
| InvalidArrayLength               (* RangeError of new Float32Array(length) *)
| NullFormat                       (* TypeError: property read on the null format *)
| UndefinedChannel.                (* TypeError: channelData[ch] is undefined *)

Inductive Res (A : Type) :=
| Ok (a : A)
| Throw (e : Exn)
| Diverge.

Arguments Ok {A} a.
Arguments Throw {A} e.
Arguments Diverge {A}.

(** The closure state of [createReader]: the view and [pos]. [visited] is a
    ghost field, absent from the source: the offsets [pos] held before, most
    recent first. *)
Record Reader := mkReader {
  dataView : list byte;
  pos : Z;
  visited : list Z
}.

Definition createReader (dataView : list byte) : Reader :=
  {| dataView := dataView; pos := 0; visited := [] |}.

(** [pos += n]. *)
Definition seek (r : Reader) (n : Z) : Reader :=
  {| dataView := dataView r; pos := pos r + n; visited := pos r :: visited r |}.

(** Every offset the cursor held, oldest first. *)
Definition offsets (r : Reader) : list Z := rev (pos r :: visited r).

Definition M (A : Type) : Type := Reader -> Res A * Reader.

Definition ret {A} (a : A) : M A := fun r => (Ok a, r).
Definition throw {A} (e : Exn) : M A := fun r => (Throw e, r).
Definition diverge {A} : M A := fun r => (Diverge, r).

Definition bind {A B} (m : M A) (k : A -> M B) : M B :=
  fun r =>
    match m r with
    | (Ok a, r') => k a r'
    | (Throw e, r') => (Throw e, r')
    | (Diverge, r') => (Diverge, r')
    end.

Notation "'let!' x ':=' m 'in' k" := (bind m (fun x => k))
  (at level 10, x pattern, m at level 100, k at level 200).

(** A [DataView] getter applied at [pos + off]. *)
Definition view {A} (get : list byte -> Z -> option A) (off : Z) : M A :=
  fun r =>
    match get (dataView r) (pos r + off) with
    | Some a => (Ok a, r)
    | None => (Throw OutOfBounds, r)
    end.

Definition advance (n : Z) : M unit := fun r => (Ok tt, seek r n).

(* ===================================================================== *)
(** * createReader: the cursor's methods *)
(* ===================================================================== *)

Definition remain : M Z :=
  fun r => (Ok (byteLength (dataView r) - pos r), r).

Definition skip (n : Z) : M unit := advance n.

Definition uint8 : M Z :=
  let! data := view getUint8 0 in
  let! _ := advance 1 in
  ret data.

Definition int16 : M Z :=
  let! data := view getInt16 0 in
  let! _ := advance 2 in
  ret data.

Definition uint16 : M Z :=
  let! data := view getUint16 0 in
  let! _ := advance 2 in
  ret data.

Definition uint32 : M Z :=
  let! data := view getUint32 0 in
  let! _ := advance 4 in
  ret data.

(** [String.fromCharCode] of a byte. *)
Definition fromCharCode (c : Z) : string :=
  String (ascii_of_N (Z.to_N c)) EmptyString.

(** The loop of [string]: [n] more characters appended to [data]. *)
Fixpoint string_loop (n : nat) (data : string) : M string :=
  match n with
  | O => ret data
  | S n' =>
      let! c := uint8 in
      string_loop n' (data ++ fromCharCode c)%string
  end.

Definition string_ (n : nat) : M string := string_loop n EmptyString.

Local Open Scope float_scope.

Definition pcm8 : M float :=
  let! b := view getUint8 0 in
  let data := (b - 128)%Z in
  let! _ := advance 1 in
  ret (if (data <? 0)%Z then JS.float_of_Z data / 128 else JS.float_of_Z data / 127).

Definition pcm8s : M float :=
  let! b := view getUint8 0 in
  let data := JS.float_of_Z b - 127.5 in
  let! _ := advance 1 in
  ret (data / 127.5).

Definition pcm16 : M float :=
  let! data := view getInt16 0 in
  let! _ := advance 2 in
  ret (if (data <? 0)%Z then JS.float_of_Z data / 32768 else JS.float_of_Z data / 32767).

Definition pcm16s : M float :=
  let! data := view getInt16 0 in
  let! _ := advance 2 in
  ret (JS.float_of_Z data / 32768).

(** The 24-bit value both [pcm24] and [pcm24s] assemble. *)
Definition assemble24 (x0 x1 x2 : Z) : Z :=
  let xx := (x0 + JS.shl x1 8 + JS.shl x2 16)%Z in
  if (xx >? 0x800000)%Z then (xx - 0x1000000)%Z else xx.

Definition pcm24 : M float :=
  let! x0 := view getUint8 0 in
  let! x1 := view getUint8 1 in
  let! x2 := view getUint8 2 in
  let data := assemble24 x0 x1 x2 in
  let! _ := advance 3 in
  ret (if (data <? 0)%Z then JS.float_of_Z data / 8388608 else JS.float_of_Z data / 8388607).

Definition pcm24s : M float :=
  let! x0 := view getUint8 0 in
  let! x1 := view getUint8 1 in
  let! x2 := view getUint8 2 in
  let data := assemble24 x0 x1 x2 in
  let! _ := advance 3 in
  ret (JS.float_of_Z data / 8388608).

Definition pcm32 : M float :=
  let! data := view getInt32 0 in
  let! _ := advance 4 in
  ret (if (data <? 0)%Z then JS.float_of_Z data / 2147483648 else JS.float_of_Z data / 2147483647).

Definition pcm32s : M float :=
  let! data := view getInt32 0 in
  let! _ := advance 4 in
  ret (JS.float_of_Z data / 2147483648).

Definition pcm32f : M float :=
  let! data := view getFloat32 0 in
  let! _ := advance 4 in
  ret data.

Definition pcm64f : M float :=
  let! data := view getFloat64 0 in
  let! _ := advance 8 in
  ret data.

Local Close Scope float_scope.
Local Open Scope string_scope.

(** [reader[methodName]] for the names [readPCM] can build: every one starts
    with 'pcm', so the other members of the reader are out of reach. *)
Definition reader_method (methodName : string) : option (M float) :=
  if methodName =? "pcm8" then Some pcm8
  else if methodName =? "pcm8s" then Some pcm8s
  else if methodName =? "pcm16" then Some pcm16
  else if methodName =? "pcm16s" then Some pcm16s
  else if methodName =? "pcm24" then Some pcm24
  else if methodName =? "pcm24s" then Some pcm24s
  else if methodName =? "pcm32" then Some pcm32
  else if methodName =? "pcm32s" then Some pcm32s
  else if methodName =? "pcm32f" then Some pcm32f
  else if methodName =? "pcm64f" then Some pcm64f
  else None.

Local Close Scope string_scope.

(* ===================================================================== *)
(** * The decoder *)
(* ===================================================================== *)

Record DecodeOptions := mkOpts {
  symmetric : option bool
}.

(** [formats[formatId]]: 0x0001 and 0x0003 are the only keys. *)
Definition formats (formatId : Z) : option string :=
  if formatId =? 0x0001 then Some "lpcm"%string
  else if formatId =? 0x0003 then Some "lpcm"%string
  else None.

Record Format := mkFormat {
  formatId : Z;
  floatingPoint : bool;
  numberOfChannels : Z;
  sampleRate : Z;
  byteRate : Z;
  blockSize : Z;
  bitDepth : Z
}.

(** [decodeFormat] returns the error instead of throwing it: the result is
    the format or the [TypeError]. *)
Definition decodeFormat (chunkSize : Z) : M (Format + Exn) :=
  let! formatId := uint16 in
  match formats formatId with
  | None => ret (inr (UnsupportedFormat formatId))
  | Some _ =>
      let! numberOfChannels := uint16 in
      let! sampleRate := uint32 in
      let! byteRate := uint32 in
      let! blockSize := uint16 in
      let! bitDepth := uint16 in
      let format :=
        {| formatId := formatId;
           floatingPoint := formatId =? 0x0003;
           numberOfChannels := numberOfChannels;
           sampleRate := sampleRate;
           byteRate := byteRate;
           blockSize := blockSize;
           bitDepth := bitDepth |} in
      let! _ := skip (chunkSize - 16) in
      ret (inl format)
  end.

Record DecodeInfo := mkInfo {
  info_numberOfChannels : Z;
  info_length : JS.jsnum;
  info_sampleRate : Z;
  channelData : list (list float)
}.

(** [new Float32Array(length)]: the length is converted by ToIndex, which
    takes NaN to 0 and a finite number to its integer part; a negative or an
    infinite length is a [RangeError]. The array is filled with +0. (The
    limit an engine puts on the size of an array is not modelled.) *)
Definition new_Float32Array (length : JS.jsnum) : option (list float) :=
  match length with
  | JS.Fin q =>
      let n := JS.truncate q in
      if n <? 0 then None
      else Some (replicate (Z.to_nat n) PrimFloat.zero)
  | JS.NaN => Some []
  | JS.PInf | JS.NInf => None
  end.

(** The allocation loop of [decodeData], [k] channels to go. Slot [ch] of
    [new Array(numberOfChannels)] is filled in increasing order, so the
    filled prefix is a list that grows at its end. *)
Fixpoint alloc_loop (k : nat) (length : JS.jsnum) (channelData : list (list float))
  : M (list (list float)) :=
  match k with
  | O => ret channelData
  | S k' =>
      match new_Float32Array length with
      | None => throw InvalidArrayLength
      | Some a => alloc_loop k' length (channelData ++ [a])
      end
  end.

(** ['pcm' + bitDepth + decoderOption]. *)
Definition decimal (z : Z) : string :=
  DecimalString.NilZero.string_of_uint (N.to_uint (Z.to_N z)).

Definition truthy (b : option bool) : bool :=
  match b with
  | Some true => true
  | _ => false
  end.

Definition decoderOption (format : Format) (opts : DecodeOptions) : string :=
  if floatingPoint format then "f"%string
  else if truthy (symmetric opts) then "s"%string
  else ""%string.

Definition methodName (format : Format) (opts : DecodeOptions) : string :=
  ("pcm" ++ decimal (bitDepth format) ++ decoderOption format opts)%string.

(** [channelData[ch][i] = v]. A store into a typed array rounds to binary32
    and is ignored past its end; a missing [channelData[ch]] is a
    [TypeError]. *)
Definition store (channelData : list (list float)) (ch i : Z) (v : float)
  : option (list (list float)) :=
  match channelData !! Z.to_nat ch with
  | None => None
  | Some a => Some (<[Z.to_nat ch := <[Z.to_nat i := JS.fround v]> a]> channelData)
  end.

(** The inner loop of [readPCM] at frame [i]: [k] channels to go, starting
    at channel [ch]. *)
Fixpoint channel_loop (read : M float) (k : nat) (ch i : Z)
  (channelData : list (list float)) : M (list (list float)) :=
  match k with
  | O => ret channelData
  | S k' =>
      let! v := read in
      match store channelData ch i v with
      | None => throw UndefinedChannel
      | Some channelData' => channel_loop read k' (ch + 1) i channelData'
      end
  end.

(** The outer loop of [readPCM], from frame [i]. [length] may be infinite,
    so the loop runs on fuel. *)
Fixpoint frame_loop (fuel : nat) (read : M float) (numberOfChannels : Z)
  (i : Z) (length : JS.jsnum) (channelData : list (list float))
  : M (list (list float)) :=
  match fuel with
  | O => diverge
  | S fuel' =>
      if JS.ltb i length then
        let! channelData' :=
          channel_loop read (Z.to_nat numberOfChannels) 0 i channelData in
        frame_loop fuel' read numberOfChannels (JS.incr i) length channelData'
      else ret channelData
  end.

(** [readPCM] fills [channelData] in place and returns [null] or a
    [TypeError]: here it returns the filled arrays with that value. *)
Definition readPCM (fuel : nat) (channelData : list (list float))
  (length : JS.jsnum) (format : Format) (opts : DecodeOptions)
  : M (list (list float) * option Exn) :=
  match reader_method (methodName format opts) with
  | None => ret (channelData, Some (NotSupportedBitDepth (bitDepth format)))
  | Some read =>
      let! channelData' :=
        frame_loop fuel read (numberOfChannels format) 0 length channelData in
      ret (channelData', None)
  end.

Definition frame_length (chunkSize : Z) (format : Format) : JS.jsnum :=
  JS.floor (JS.div (JS.div (JS.of_Z chunkSize) (blockSize format))
                   (numberOfChannels format)).

(** [format] is [null] until a fmt chunk was decoded. *)
Definition decodeData (fuel : nat) (chunkSize : Z) (format : option Format)
  (opts : DecodeOptions) : M (DecodeInfo + Exn) :=
  let! rem := remain in
  let chunkSize := Z.min chunkSize rem in
  match format with
  | None => throw NullFormat
  | Some format =>
      let numberOfChannels := numberOfChannels format in
      let length := frame_length chunkSize format in
      let sampleRate := sampleRate format in
      let! channelData := alloc_loop (Z.to_nat numberOfChannels) length [] in
      let! (channelData, retVal) := readPCM fuel channelData length format opts in
      match retVal with
      | Some e => ret (inr e)
      | None =>
          ret (inl {| info_numberOfChannels := numberOfChannels;
                      info_length := length;
                      info_sampleRate := sampleRate;
                      channelData := channelData |})
      end
  end.

(** The do-while loop of [decodeSync]; [format] is the loop's variable, and
    the loop ends when [audioData] is set by a data chunk. *)
Fixpoint chunk_loop (fuel : nat) (opts : DecodeOptions) (format : option Format)
  : M DecodeInfo :=
  match fuel with
  | O => diverge
  | S fuel' =>
      let! chunkType := string_ 4 in
      let! chunkSize := uint32 in
      if (chunkType =? "fmt ")%string then
        let! format := decodeFormat chunkSize in
        match format with
        | inr e => throw e
        | inl format => chunk_loop fuel' opts (Some format)
        end
      else if (chunkType =? "data")%string then
        let! audioData := decodeData fuel' chunkSize format opts in
        match audioData with
        | inr e => throw e
        | inl audioData => ret audioData
        end
      else
        let! _ := skip chunkSize in
        chunk_loop fuel' opts format
  end.

(** [opts = opts || {}]. *)
Definition default_opts (opts : option DecodeOptions) : DecodeOptions :=
  match opts with
  | Some o => o
  | None => {| symmetric := None |}
  end.

(** The three statements before the loop: the 'RIFF' tag, the file length
    (read and dropped) and the 'WAVE' tag. *)
Definition check_header : M unit :=
  let! riff := string_ 4 in
  if negb (riff =? "RIFF")%string then throw InvalidWav
  else
    let! _ := uint32 in
    let! wave := string_ 4 in
    if negb (wave =? "WAVE")%string then throw InvalidWav
    else ret tt.

Definition decodeSync_body (fuel : nat) (opts : option DecodeOptions) : M DecodeInfo :=
  let opts := default_opts opts in
  let! _ := check_header in
  chunk_loop fuel opts None.

(** The run of [decodeSync] on [buffer]: its outcome and the reader it
    leaves behind. *)
Definition decodeSync_run (fuel : nat) (buffer : list byte)
  (opts : option DecodeOptions) : Res DecodeInfo * Reader :=
  decodeSync_body fuel opts (createReader buffer).

Definition decodeSync (fuel : nat) (buffer : list byte)
  (opts : option DecodeOptions) : Res DecodeInfo :=
  fst (decodeSync_run fuel buffer opts).

(* ===================================================================== *)
(** * WAV buffers *)
(* ===================================================================== *)

(** Builders for the buffers the statements below are about. They follow the
    RIFF layout: a 12-byte header, then chunks of a 4-byte tag, a 4-byte
    little-endian body size and the body. *)

Definition byte_of_Z (z : Z) : byte :=
  match Byte.of_N (Z.to_N (z mod 256)) with
  | Some b => b
  | None => x00
  end.

(** The [n] little-endian bytes of [z]. *)
Fixpoint le_bytes (n : nat) (z : Z) : list byte :=
  match n with
  | O => []
  | S n' => byte_of_Z z :: le_bytes n' (z / 256)
  end.

Definition tag (s : string) : list byte := list_byte_of_string s.

Definition chunk (name : string) (declared : Z) (body : list byte) : list byte :=
  tag name ++ le_bytes 4 declared ++ body.

Definition riff_header (fileLength : Z) : list byte :=
  tag "RIFF" ++ le_bytes 4 fileLength ++ tag "WAVE".

Definition fmt_body (f : Format) : list byte :=
  le_bytes 2 (formatId f) ++ le_bytes 2 (numberOfChannels f) ++
  le_bytes 4 (sampleRate f) ++ le_bytes 4 (byteRate f) ++
  le_bytes 2 (blockSize f) ++ le_bytes 2 (bitDepth f).

(** The format of integer PCM with [n] channels at [bits] bits per sample:
    [blockSize] is the size of one frame. *)
Definition pcm_format (n rate bits : Z) : Format :=
  {| formatId := 1; floatingPoint := false; numberOfChannels := n;
     sampleRate := rate; byteRate := rate * (n * (bits / 8));
     blockSize := n * (bits / 8); bitDepth := bits |}.

(** A minimal WAV file: header, one 16-byte fmt chunk, one data chunk whose
    declared size is the size of its body. *)
Definition minimal_wav (f : Format) (body : list byte) : list byte :=
  riff_header (36 + byteLength body) ++
  chunk "fmt " 16 (fmt_body f) ++
  chunk "data" (byteLength body) body.

(* ===================================================================== *)
(** * Observations on a run *)
(* ===================================================================== *)

(** No step moved the cursor backward: [cur] is the current offset and
    [earlier] the offsets held before, most recent first. *)
Fixpoint never_back (cur : Z) (earlier : list Z) : Prop :=
  match earlier with
  | [] => True
  | p :: rest => p <= cur /\ never_back p rest
  end.

Definition monotone (r : Reader) : Prop := never_back (pos r) (visited r).

(** The fmt chunks the loop of [decodeSync] decodes from the reader [r] on,
    each with the size its header declares, in the order they are met. It
    follows the chunks with the reader's own operations and stops where the
    loop stops: at a data chunk, at a failed read, at a rejected format. *)
Fixpoint fmt_chunks (fuel : nat) (r : Reader) : list (Z * Format) :=
  match fuel with
  | O => []
  | S fuel' =>
      match string_ 4 r with
      | (Ok chunkType, r1) =>
          match uint32 r1 with
          | (Ok chunkSize, r2) =>
              if (chunkType =? "fmt ")%string then
                match decodeFormat chunkSize r2 with
                | (Ok (inl format), r3) => (chunkSize, format) :: fmt_chunks fuel' r3
                | _ => []
                end
              else if (chunkType =? "data")%string then []
              else fmt_chunks fuel' (seek r2 chunkSize)
          | _ => []
          end
      | _ => []
      end
  end.

(** The fmt chunks [decodeSync] decodes on [buffer]. *)
Definition decoded_formats (fuel : nat) (buffer : list byte) : list (Z * Format) :=
  match check_header (createReader buffer) with
  | (Ok _, r) => fmt_chunks fuel r
  | _ => []
  end.

(** The sample a reader method returns with the cursor at offset [p]. *)
Definition sample_at (read : M float) (dataView : list byte) (p : Z) : Res float :=
  fst (read {| dataView := dataView; pos := p; visited := [] |}).

Definition in_bounds (dataView : list byte) (p w : Z) : bool :=
  (0 <=? p) && (p + w <=? byteLength dataView).

(** The decode table of the sample decoder as the specification gives it,
    keyed on bit depth, the floating-point flag and the symmetric option.
    [dispatch_table] shows that the lookup by name in [readPCM] computes
    it. *)
Definition decode_table (bitDepth : Z) (floatingPoint symmetric : bool)
  : option (M float) :=
  if floatingPoint then
    if bitDepth =? 32 then Some pcm32f
    else if bitDepth =? 64 then Some pcm64f
    else None
  else if symmetric then
    if bitDepth =? 8 then Some pcm8s
    else if bitDepth =? 16 then Some pcm16s
    else if bitDepth =? 24 then Some pcm24s
    else if bitDepth =? 32 then Some pcm32s
    else None
  else
    if bitDepth =? 8 then Some pcm8
    else if bitDepth =? 16 then Some pcm16
    else if bitDepth =? 24 then Some pcm24
    else if bitDepth =? 32 then Some pcm32
    else None.

(** A reader method that consumes [w] bytes: inside the buffer it returns
    the sample at the cursor and advances by [w]; outside it throws and
    leaves the cursor where it was. *)
Definition sampler (read : M float) (w : Z) : Prop :=
  0 < w /\
  forall r,
    if in_bounds (dataView r) (pos r) w
    then exists v, read r = (Ok v, seek r w) /\
                   sample_at read (dataView r) (pos r) = Ok v
    else read r = (Throw OutOfBounds, r).

(** [channelData[c][j]], when both indices are in range. *)
Definition cell (channelData : list (list float)) (c j : nat) : option float :=
  match channelData !! c with
  | Some a => a !! j
  | None => None
  end.

(** The sample at offset [p], with +0 where there is none. *)
Definition sample_val (read : M float) (dataView : list byte) (p : Z) : float :=
  match sample_at read dataView p with
  | Ok v => v
  | _ => PrimFloat.zero
  end.

(** A computation that never moves the cursor backward. *)
Definition forward {A} (m : M A) : Prop :=
  forall r, monotone r -> monotone (snd (m r)).

(** An integer reader of [w] bytes with values in [lo, hi): inside the
    buffer it returns a value in range and advances by [w]; outside it
    throws and leaves the cursor where it was. *)
Definition int_reader (read : M Z) (w lo hi : Z) : Prop :=
  forall r,
    if in_bounds (dataView r) (pos r) w
    then exists v, read r = (Ok v, seek r w) /\ lo <= v < hi
    else read r = (Throw OutOfBounds, r).

(** The format in force at the end of a chunk walk that starts with
    [format]: the last fmt chunk decoded, if there is one. *)
Definition format_in_force (fuel : nat) (r : Reader) (format : option Format)
  : option Format :=
  match last (fmt_chunks fuel r) with
  | Some c => Some (snd c)
  | None => format
  end.

(** A computation that ends on every reader. *)
Definition ends {A} (m : M A) : Prop := forall r, fst (m r) <> Diverge.

(** The reader after [n] single-byte reads. *)
Definition after_bytes (n : nat) (r : Reader) : Reader :=
  Nat.iter n (fun q => seek q 1) r.

(** [f] holds of [z], [z + 1], ..., [n] values in all. *)
Fixpoint all_from (n : nat) (z : Z) (f : Z -> bool) : bool :=
  match n with
  | O => true
  | S n' => f z && all_from n' (z + 1) f
  end.

(** A sample within [-1, 1], before and after it is stored as a binary32
    value. *)
Definition in_unit (v : float) : bool :=
  ((-1 <=? v) && (v <=? 1) && (-1 <=? JS.fround v) && (JS.fround v <=? 1))%float.

Definition sample_in_unit (read : M float) (window : list byte) : bool :=
  match sample_at read window 0 with
  | Ok v => in_unit v
  | _ => false
  end.

(* ===================================================================== *)
(** * The store: what a call finds and what it leaves behind *)
(* ===================================================================== *)

(** The definitions above give each call a world of its own. Here the
    objects that outlive a call are explicit, so that one call can be
    followed by another: the functions that touch them are embedded a second
    time, over the same reader methods. *)
Module Store.

(** What outlives a call: the module-level [formats] object (a [const]
    binding, but a mutable object), the binding [global.Buffer] (absent, or
    Node's [Buffer] class; [global] itself is taken to be bound), and the
    typed arrays allocated so far, each at its address. *)
Record World := mkWorld {
  formats_object : list (Z * string);
  global_Buffer : bool;
  arrays : list (list float)
}.

(** The object literal of lines 29-32, as the module's initialisation
    leaves it. *)
Definition module_formats : list (Z * string) :=
  [(0x0001, "lpcm"%string); (0x0003, "lpcm"%string)].

(** [o[key]]: [None] is [undefined]. *)
Fixpoint get_property (o : list (Z * string)) (key : Z) : option string :=
  match o with
  | [] => None
  | (k, v) :: o' => if k =? key then Some v else get_property o' key
  end.

(** The argument [buffer]: an [ArrayBuffer], or a Node [Buffer] with its
    elements. *)
Inductive BufferArg :=
| ArrayBuffer (bytes : list byte)
| NodeBuffer (elements : list byte).

(** How a call ends. *)
Inductive Outcome (A : Type) :=
| Returns (a : A)
| Throws (e : Exn)
| ThrowsNotArrayBuffer   (* TypeError of [new DataView(buffer)] *)
| Unfinished.

Arguments Returns {A} a.
Arguments Throws {A} e.
Arguments ThrowsNotArrayBuffer {A}.
Arguments Unfinished {A}.

(** A computation on the world and the reader of the running call. *)
Definition State : Type := World * Reader.
Definition MS (A : Type) : Type := State -> Res A * State.

Definition ret {A} (a : A) : MS A := fun s => (Ok a, s).
Definition throw {A} (e : Exn) : MS A := fun s => (Throw e, s).
Definition diverge {A} : MS A := fun s => (Diverge, s).

Definition bind {A B} (m : MS A) (k : A -> MS B) : MS B :=
  fun s =>
    match m s with
    | (Ok a, s') => k a s'
    | (Throw e, s') => (Throw e, s')
    | (Diverge, s') => (Diverge, s')
    end.

Notation "'let!!' x ':=' m 'in' k" := (bind m (fun x => k))
  (at level 10, x pattern, m at level 100, k at level 200).

(** A reader method, run on the reader of the call. *)
Definition lift {A} (m : M A) : MS A :=
  fun s => let (a, r) := m (snd s) in (a, (fst s, r)).

Definition set_arrays (w : World) (h : list (list float)) : World :=
  {| formats_object := formats_object w;
     global_Buffer := global_Buffer w;
     arrays := h |}.

(** [formats[formatId]]. *)
Definition read_formats (formatId : Z) : MS (option string) :=
  fun s => (Ok (get_property (formats_object (fst s)) formatId), s).

(** [new Float32Array(length)]: the address of the new array. *)
Definition new_array (len : JS.jsnum) : MS nat :=
  fun s =>
    match new_Float32Array len with
    | None => (Throw InvalidArrayLength, s)
    | Some a =>
        (Ok (length (arrays (fst s))),
         (set_arrays (fst s) (arrays (fst s) ++ [a]), snd s))
    end.

(** [channelData[ch][i] = v], on the array [channelData[ch]] refers to. *)
Definition store (channelData : list nat) (ch i : Z) (v : float) : MS unit :=
  fun s =>
    match channelData !! Z.to_nat ch with
    | None => (Throw UndefinedChannel, s)
    | Some address =>
        (Ok tt,
         (set_arrays (fst s)
            (alter (fun a => <[Z.to_nat i := JS.fround v]> a) address
                   (arrays (fst s))),
          snd s))
    end.

Definition decodeFormat (chunkSize : Z) : MS (Format + Exn) :=
  let!! formatId := lift uint16 in
  let!! entry := read_formats formatId in
  match entry with
  | None => ret (inr (UnsupportedFormat formatId))
  | Some _ =>
      let!! numberOfChannels := lift uint16 in
      let!! sampleRate := lift uint32 in
      let!! byteRate := lift uint32 in
      let!! blockSize := lift uint16 in
      let!! bitDepth := lift uint16 in
      let format :=
        {| formatId := formatId;
           floatingPoint := formatId =? 0x0003;
           numberOfChannels := numberOfChannels;
           sampleRate := sampleRate;
           byteRate := byteRate;
           blockSize := blockSize;
           bitDepth := bitDepth |} in
      let!! _ := lift (skip (chunkSize - 16)) in
      ret (inl format)
  end.

(** The result of [decodeData]: [channelData] holds the addresses of the
    arrays. *)
Record DecodeInfo := mkRefs {
  ref_numberOfChannels : Z;
  ref_length : JS.jsnum;
  ref_sampleRate : Z;
  ref_channelData : list nat
}.

Fixpoint alloc_loop (k : nat) (len : JS.jsnum) (channelData : list nat)
  : MS (list nat) :=
  match k with
  | O => ret channelData
  | S k' =>
      let!! a := new_array len in
      alloc_loop k' len (channelData ++ [a])
  end.

Fixpoint channel_loop (read : M float) (k : nat) (ch i : Z)
  (channelData : list nat) : MS unit :=
  match k with
  | O => ret tt
  | S k' =>
      let!! v := lift read in
      let!! _ := store channelData ch i v in
      channel_loop read k' (ch + 1) i channelData
  end.

Fixpoint frame_loop (fuel : nat) (read : M float) (numberOfChannels : Z)
  (i : Z) (len : JS.jsnum) (channelData : list nat) : MS unit :=
  match fuel with
  | O => diverge
  | S fuel' =>
      if JS.ltb i len then
        let!! _ := channel_loop read (Z.to_nat numberOfChannels) 0 i channelData in
        frame_loop fuel' read numberOfChannels (JS.incr i) len channelData
      else ret tt
  end.

Definition readPCM (fuel : nat) (channelData : list nat) (len : JS.jsnum)
  (format : Format) (opts : DecodeOptions) : MS (option Exn) :=
  match reader_method (methodName format opts) with
  | None => ret (Some (NotSupportedBitDepth (bitDepth format)))
  | Some read =>
      let!! _ := frame_loop fuel read (numberOfChannels format) 0 len channelData in
      ret None
  end.

Definition decodeData (fuel : nat) (chunkSize : Z) (format : option Format)
  (opts : DecodeOptions) : MS (DecodeInfo + Exn) :=
  let!! rem := lift remain in
  let chunkSize := Z.min chunkSize rem in
  match format with
  | None => throw NullFormat
  | Some format =>
      let numberOfChannels := numberOfChannels format in
      let len := frame_length chunkSize format in
      let sampleRate := sampleRate format in
      let!! channelData := alloc_loop (Z.to_nat numberOfChannels) len [] in
      let!! retVal := readPCM fuel channelData len format opts in
      match retVal with
      | Some e => ret (inr e)
      | None =>
          ret (inl {| ref_numberOfChannels := numberOfChannels;
                      ref_length := len;
                      ref_sampleRate := sampleRate;
                      ref_channelData := channelData |})
      end
  end.

Fixpoint chunk_loop (fuel : nat) (opts : DecodeOptions) (format : option Format)
  : MS DecodeInfo :=
  match fuel with
  | O => diverge
  | S fuel' =>
      let!! chunkType := lift (string_ 4) in
      let!! chunkSize := lift uint32 in
      if (chunkType =? "fmt ")%string then
        let!! format := decodeFormat chunkSize in
        match format with
        | inr e => throw e
        | inl format => chunk_loop fuel' opts (Some format)
        end
      else if (chunkType =? "data")%string then
        let!! audioData := decodeData fuel' chunkSize format opts in
        match audioData with
        | inr e => throw e
        | inl audioData => ret audioData
        end
      else
        let!! _ := lift (skip chunkSize) in
        chunk_loop fuel' opts format
  end.

(** [buffer instanceof global.Buffer], when [global.Buffer] is the class. *)
Definition instanceof_Buffer (buffer : BufferArg) : bool :=
  match buffer with
  | NodeBuffer _ => true
  | ArrayBuffer _ => false
  end.

(** [Uint8Array.from(buffer).buffer]: a new [ArrayBuffer] holding the
    elements. *)
Definition copy_elements (buffer : BufferArg) : BufferArg :=
  match buffer with
  | NodeBuffer elements => ArrayBuffer elements
  | ArrayBuffer bytes => ArrayBuffer bytes
  end.

(** One call of [decodeSync] in the world [w]: how it ends and the world it
    leaves. The reader is created by the call and dropped at its end. *)
Definition decodeSync (fuel : nat) (buffer : BufferArg)
  (opts : option DecodeOptions) (w : World) : Outcome DecodeInfo * World :=
  let opts := default_opts opts in
  let buffer :=
    if global_Buffer w && instanceof_Buffer buffer then copy_elements buffer
    else buffer in
  match buffer with
  | NodeBuffer _ => (ThrowsNotArrayBuffer, w)
  | ArrayBuffer bytes =>
      let reader := createReader bytes in
      match (let!! _ := lift check_header in chunk_loop fuel opts None) (w, reader) with
      | (Ok audioData, s) => (Returns audioData, fst s)
      | (Throw e, s) => (Throws e, fst s)
      | (Diverge, s) => (Unfinished, fst s)
      end
  end.

End Store.

(** What a caller reads in the world [w] through a result: the samples of
    the arrays [channelData] refers to. *)
Definition contents (w : Store.World) (audioData : Store.DecodeInfo) : DecodeInfo :=
  {| info_numberOfChannels := Store.ref_numberOfChannels audioData;
     info_length := Store.ref_length audioData;
     info_sampleRate := Store.ref_sampleRate audioData;
     channelData :=
       map (fun address => Store.arrays w !!! address)
           (Store.ref_channelData audioData) |}.

Definition observe (w : Store.World) (o : Store.Outcome Store.DecodeInfo)
  : Store.Outcome DecodeInfo :=
  match o with
  | Store.Returns audioData => Store.Returns (contents w audioData)
  | Store.Throws e => Store.Throws e
  | Store.ThrowsNotArrayBuffer => Store.ThrowsNotArrayBuffer
  | Store.Unfinished => Store.Unfinished
  end.

(** The outcome of a call on the definitions without a store. *)
Definition outcome_of {A} (res : Res A) : Store.Outcome A :=
  match res with
  | Ok a => Store.Returns a
  | Throw e => Store.Throws e
  | Diverge => Store.Unfinished
  end.

(** A run on the store follows a run without one: the same reader is left,
    the arrays before the call are kept and [cd] is what was added, [n]
    arrays; and the outcomes agree. *)
Definition tracks (w : Store.World) (h0 : list (list float)) (n : nat)
  (out_s : Res unit * Store.State) (out : Res (list (list float)) * Reader) : Prop :=
  snd (snd out_s) = snd out /\
  exists cd, fst (snd out_s) = Store.set_arrays w (h0 ++ cd) /\ length cd = n /\
    match fst out with
    | Ok cd' => cd' = cd /\ fst out_s = Ok tt
    | Throw e => fst out_s = Throw e
    | Diverge => fst out_s = Diverge
    end.

(** The same for the allocation loop, which returns the addresses. *)
Definition allocates (w : Store.World) (h0 : list (list float))
  (out_s : Res (list nat) * Store.State) (out : Res (list (list float)) * Reader) : Prop :=
  snd (snd out_s) = snd out /\
  exists cd, fst (snd out_s) = Store.set_arrays w (h0 ++ cd) /\
    match fst out with
    | Ok cd' => cd' = cd /\ fst out_s = Ok (seq (length h0) (length cd))
    | Throw e => fst out_s = Throw e
    | Diverge => fst out_s = Diverge
    end.

(** The same for a run that returns audio data: the result refers to the
    arrays the call added, in order. *)
Definition refines (w : Store.World) (h0 : list (list float))
  (out_s : Res Store.DecodeInfo * Store.State) (out : Res DecodeInfo * Reader) : Prop :=
  snd (snd out_s) = snd out /\
  exists new, fst (snd out_s) = Store.set_arrays w (h0 ++ new) /\
    match fst out with
    | Ok info =>
        new = channelData info /\
        fst out_s = Ok {| Store.ref_numberOfChannels := info_numberOfChannels info;
                          Store.ref_length := info_length info;
                          Store.ref_sampleRate := info_sampleRate info;
                          Store.ref_channelData := seq (length h0) (length new) |}
    | Throw e => fst out_s = Throw e
    | Diverge => fst out_s = Diverge
    end.

(* ===================================================================== *)
(** * Example files *)
(* ===================================================================== *)

(** Two 16-bit frames on two channels. *)
Definition stereo16 : list byte :=
  minimal_wav (pcm_format 2 44100 16) (map byte_of_Z [1; 0; 2; 0; 3; 0; 4; 0]).

(** Two 24-bit samples on one channel: the largest positive value
    0x7FFFFF and the most negative value 0x800000. *)
Definition mono24 : list byte :=
  minimal_wav (pcm_format 1 44100 24) (map byte_of_Z [255; 255; 127; 0; 0; 128]).

(** A data chunk that declares 100 bytes where 4 remain, under a format
    whose block size (1) is smaller than its 16-bit samples. *)
Definition short_block : list byte :=
  riff_header 40 ++
  chunk "fmt " 16
    (fmt_body {| formatId := 1; floatingPoint := false; numberOfChannels := 1;
                 sampleRate := 8000; byteRate := 16000; blockSize := 1;
                 bitDepth := 16 |}) ++
  chunk "data" 100 (map byte_of_Z [1; 0; 2; 0]).

(** The same data chunk under a format whose block size is one sample. *)
Definition short_data : list byte :=
  riff_header 40 ++
  chunk "fmt " 16 (fmt_body (pcm_format 1 8000 16)) ++
  chunk "data" 100 (map byte_of_Z [1; 0; 2; 0]).

(** A fmt chunk that declares a body of 0 bytes. *)
Definition short_fmt : list byte :=
  riff_header 40 ++
  chunk "fmt " 0 (fmt_body (pcm_format 1 8000 16)) ++
  chunk "data" 4 (map byte_of_Z [1; 0; 2; 0]).

(** A fmt chunk with formatId 2 (ADPCM). *)
Definition adpcm : list byte :=
  riff_header 40 ++
  chunk "fmt " 16
    (fmt_body {| formatId := 2; floatingPoint := false; numberOfChannels := 1;
                 sampleRate := 8000; byteRate := 16000; blockSize := 2;
                 bitDepth := 16 |}) ++
  chunk "data" 4 (map byte_of_Z [1; 0; 2; 0]).

(** A 3-byte JUNK chunk between fmt and data. *)
Definition junk : list byte :=
  riff_header 47 ++
  chunk "fmt " 16 (fmt_body (pcm_format 1 8000 16)) ++
  chunk "JUNK" 3 (map byte_of_Z [9; 9; 9]) ++
  chunk "data" 4 (map byte_of_Z [1; 0; 2; 0]).

Definition float_format : Format :=
  {| formatId := 3; floatingPoint := true; numberOfChannels := 1;
     sampleRate := 8000; byteRate := 32000; blockSize := 4; bitDepth := 32 |}.

(** Two binary32 samples, 1.0 and -2.5. *)
Definition float32_wav : list byte :=
  minimal_wav float_format (map byte_of_Z [0; 0; 128; 63; 0; 0; 32; 192]).

(** A format that declares no channel. *)
Definition no_channel : Format := pcm_format 0 8000 16.

Definition symmetric_on : option DecodeOptions := Some {| symmetric := Some true |}.
Definition symmetric_off : option DecodeOptions := Some {| symmetric := Some false |}.

(* ===================================================================== *)
(** * JavaScript arithmetic *)
(* ===================================================================== *)

Lemma ltb_fin (i L : Z) : JS.ltb i (JS.of_Z L) = (i <? L).
Proof.
  unfold JS.ltb, JS.of_Z, Qle_bool, inject_Z. simpl.
  rewrite !Z.mul_1_r. symmetry. apply Z.ltb_antisym.
Qed.

Lemma div_fin (q : Q) (b : Z) :
  b <> 0 -> JS.div (JS.Fin q) b = JS.Fin (q / inject_Z b).
Proof.
  intros Hb. unfold JS.div. destruct (Z.eqb_spec b 0); [contradiction | reflexivity].
Qed.

(** With positive divisors the frame count is the integer quotient. *)
Lemma frame_length_fin (chunkSize : Z) (format : Format) :
  0 < blockSize format -> 0 < numberOfChannels format ->
  frame_length chunkSize format =
  JS.of_Z (chunkSize / (blockSize format * numberOfChannels format)).
Proof.
  intros Hb Hn. unfold frame_length, JS.of_Z.
  rewrite !div_fin by lia.
  destruct (blockSize format) as [|pb|pb]; try lia.
  destruct (numberOfChannels format) as [|pn|pn]; try lia.
  unfold JS.floor, Qfloor, Qdiv, Qmult, Qinv, inject_Z. simpl.
  rewrite !Z.mul_1_r. reflexivity.
Qed.

Lemma truncate_Z (z : Z) : JS.truncate (inject_Z z) = z.
Proof.
  unfold JS.truncate. destruct (_ <? _); [apply Qceiling_Z | apply Qfloor_Z].
Qed.

Lemma new_Float32Array_fin (L : Z) :
  0 <= L ->
  new_Float32Array (JS.of_Z L) = Some (replicate (Z.to_nat L) PrimFloat.zero).
Proof.
  intros HL. unfold new_Float32Array, JS.of_Z. rewrite truncate_Z.
  destruct (Z.ltb_spec L 0); [lia | reflexivity].
Qed.

Lemma new_Float32Array_neg (L : Z) :
  L < 0 -> new_Float32Array (JS.of_Z L) = None.
Proof.
  intros HL. unfold new_Float32Array, JS.of_Z. rewrite truncate_Z.
  destruct (Z.ltb_spec L 0); [reflexivity | lia].
Qed.

(** The shifts of the 24-bit readers are plain multiplications: on bytes
    the 24-bit value is the little-endian one, taken as negative only above
    0x800000. *)
Lemma assemble24_bytes (x0 x1 x2 : Z) :
  0 <= x0 < 256 -> 0 <= x1 < 256 -> 0 <= x2 < 256 ->
  assemble24 x0 x1 x2 =
  if x0 + 256 * x1 + 65536 * x2 >? 0x800000
  then x0 + 256 * x1 + 65536 * x2 - 0x1000000
  else x0 + 256 * x1 + 65536 * x2.
Proof.
  intros H0 H1 H2.
  assert (Hshl : forall x k, 0 <= x < 256 -> 0 <= k <= 16 ->
                             JS.shl x k = x * 2 ^ k).
  { intros x k Hx Hk. unfold JS.shl, JS.to_int32.
    assert (Hpow : 0 < 2 ^ k <= 2 ^ 16).
    { split; [apply Z.pow_pos_nonneg; lia | apply Z.pow_le_mono_r; lia]. }
    rewrite (Z.mod_small x) by lia.
    destruct (Z.ltb_spec x (2 ^ 31)); [| lia].
    rewrite (Z.mod_small k) by lia.
    rewrite Z.shiftl_mul_pow2 by lia.
    rewrite Z.mod_small by nia.
    destruct (Z.ltb_spec (x * 2 ^ k) (2 ^ 31)); [reflexivity | nia]. }
  unfold assemble24. rewrite !Hshl by lia.
  change (2 ^ 8) with 256. change (2 ^ 16) with 65536.
  replace (x0 + x1 * 256 + x2 * 65536) with (x0 + 256 * x1 + 65536 * x2) by lia.
  reflexivity.
Qed.

Example fround_third : JS.fround (1 / 3)%float = 0x1.555556p-2%float.
Proof. vm_compute. reflexivity. Qed.

Example fround_overflow : JS.fround 0x1p+200%float = PrimFloat.infinity.
Proof. vm_compute. reflexivity. Qed.

Example float_of_bits32_one : JS.float_of_bits32 0x3F800000 = 1%float.
Proof. vm_compute. reflexivity. Qed.

Example float_of_bits32_negative : JS.float_of_bits32 0xC0200000 = (-2.5)%float.
Proof. vm_compute. reflexivity. Qed.

Example float_of_bits32_subnormal : JS.float_of_bits32 1 = 0x1p-149%float.
Proof. vm_compute. reflexivity. Qed.

Example float_of_bits32_infinity :
  JS.float_of_bits32 0xFF800000 = PrimFloat.neg_infinity.
Proof. vm_compute. reflexivity. Qed.

Example float_of_bits64_tenth :
  JS.float_of_bits64 0x3FB999999999999A = 0x1.999999999999ap-4%float.
Proof. vm_compute. reflexivity. Qed.

Example float_of_Z_negative : JS.float_of_Z (-32768) = (-32768)%float.
Proof. vm_compute. reflexivity. Qed.

Lemma incr_small (i : Z) : i < 2 ^ 53 -> JS.incr i = i + 1.
Proof.
  intros Hi. unfold JS.incr. destruct (Z.ltb_spec i (2 ^ 53)); [reflexivity | lia].
Qed.

(* ===================================================================== *)
(** * The reader's methods *)
(* ===================================================================== *)

Lemma get_bytes_in (dv : list byte) (p : Z) (n : nat) :
  in_bounds dv p (Z.of_nat n) = true ->
  get_bytes dv p n = Some (map byte_val (firstn n (skipn (Z.to_nat p) dv))).
Proof. unfold get_bytes, in_bounds. intros ->. reflexivity. Qed.

Lemma get_bytes_out (dv : list byte) (p : Z) (n : nat) :
  in_bounds dv p (Z.of_nat n) = false -> get_bytes dv p n = None.
Proof. unfold get_bytes, in_bounds. intros ->. reflexivity. Qed.

Lemma in_bounds_sub (dv : list byte) (p w off n : Z) :
  in_bounds dv p w = true -> 0 <= off -> off + n <= w ->
  in_bounds dv (p + off) n = true.
Proof.
  unfold in_bounds. intros H Hoff Hn.
  apply andb_true_iff in H as [H1 H2].
  apply Z.leb_le in H1, H2.
  apply andb_true_iff. split; apply Z.leb_le; lia.
Qed.

Ltac one_read w n :=
  split; [lia |];
  intros r; unfold bind, view, advance, ret, sample_at;
  unfold getUint8, getInt16, getUint16, getUint32, getInt32, getFloat32, getFloat64;
  cbn [dataView pos fst];
  rewrite ?Z.add_0_r;
  destruct (in_bounds (dataView r) (pos r) w) eqn:Hin;
  [ rewrite (get_bytes_in _ _ n Hin); cbn [option_map]; eexists; split; reflexivity
  | rewrite (get_bytes_out _ _ n Hin); reflexivity ].

Lemma pcm8_sampler : sampler pcm8 1.
Proof. unfold pcm8. one_read 1 1%nat. Qed.

Lemma pcm8s_sampler : sampler pcm8s 1.
Proof. unfold pcm8s. one_read 1 1%nat. Qed.
Lemma pcm16_sampler : sampler pcm16 2.
Proof. unfold pcm16. one_read 2 2%nat. Qed.
Lemma pcm16s_sampler : sampler pcm16s 2.
Proof. unfold pcm16s. one_read 2 2%nat. Qed.
Lemma pcm32_sampler : sampler pcm32 4.
Proof. unfold pcm32. one_read 4 4%nat. Qed.
Lemma pcm32s_sampler : sampler pcm32s 4.
Proof. unfold pcm32s. one_read 4 4%nat. Qed.
Lemma pcm32f_sampler : sampler pcm32f 4.
Proof. unfold pcm32f. one_read 4 4%nat. Qed.
Lemma pcm64f_sampler : sampler pcm64f 8.
Proof. unfold pcm64f. one_read 8 8%nat. Qed.

Lemma in_bounds_false_3 (dv : list byte) (p : Z) :
  in_bounds dv p 3 = false ->
  in_bounds dv (p + 0) 1 = false \/
  in_bounds dv (p + 1) 1 = false \/
  in_bounds dv (p + 2) 1 = false.
Proof.
  unfold in_bounds. intros H.
  apply andb_false_iff in H as [H | H].
  - left. apply Z.leb_gt in H. apply andb_false_iff. left. apply Z.leb_gt. lia.
  - right. right. apply Z.leb_gt in H. apply andb_false_iff. right.
    apply Z.leb_gt. lia.
Qed.

Ltac step_read H :=
  first [ rewrite (get_bytes_in _ _ 1%nat H) | rewrite (get_bytes_out _ _ 1%nat H) ];
  cbn [option_map dataView pos fst].

Ltac three_reads :=
  split; [lia |];
  intros r; unfold bind, view, advance, ret, sample_at, getUint8;
  cbn [dataView pos fst];
  destruct (in_bounds (dataView r) (pos r) 3) eqn:Hin;
  [ pose proof (in_bounds_sub _ _ 3 0 1 Hin ltac:(lia) ltac:(lia)) as H0;
    pose proof (in_bounds_sub _ _ 3 1 1 Hin ltac:(lia) ltac:(lia)) as H1;
    pose proof (in_bounds_sub _ _ 3 2 1 Hin ltac:(lia) ltac:(lia)) as H2;
    step_read H0; step_read H1; step_read H2;
    eexists; split; reflexivity
  | destruct (in_bounds (dataView r) (pos r + 0) 1) eqn:H0; step_read H0;
    [ | reflexivity ];
    destruct (in_bounds (dataView r) (pos r + 1) 1) eqn:H1; step_read H1;
    [ | reflexivity ];
    destruct (in_bounds (dataView r) (pos r + 2) 1) eqn:H2; step_read H2;
    [ | reflexivity ];
    destruct (in_bounds_false_3 _ _ Hin) as [E | [E | E]]; congruence ].

Lemma pcm24_sampler : sampler pcm24 3.
Proof. unfold pcm24. three_reads. Qed.
Lemma pcm24s_sampler : sampler pcm24s 3.
Proof. unfold pcm24s. three_reads. Qed.

(** ** Method dispatch *)

Lemma decimal_inv (z : Z) (u : Decimal.uint) :
  N.to_uint (Z.to_N z) = u -> Z.to_N z = N.of_uint u.
Proof. intros <-. symmetry. apply DecimalN.Unsigned.of_to. Qed.

Ltac split_digits :=
  repeat match goal with
         | |- context [NilEmpty.string_of_uint ?u] =>
             destruct u; cbn -[N.of_uint] in *
         end.

(** The dynamic lookup [reader['pcm' + bitDepth + decoderOption]] is the
    decode table keyed on bit depth, floating-point flag and symmetric
    option. *)
Lemma dispatch_table (format : Format) (opts : DecodeOptions) :
  reader_method (methodName format opts) =
  decode_table (bitDepth format) (floatingPoint format) (truthy (symmetric opts)).
Proof.
  unfold methodName, decoderOption, decimal.
  generalize (bitDepth format) as bd. intros bd.
  assert (Hcases : bd = 8 \/ bd = 16 \/ bd = 24 \/ bd = 32 \/ bd = 64 \/
                   (bd <> 8 /\ bd <> 16 /\ bd <> 24 /\ bd <> 32 /\ bd <> 64)) by lia.
  destruct Hcases as [-> | [-> | [-> | [-> | [-> | Hne]]]]];
    try (destruct (floatingPoint format), (truthy (symmetric opts)); reflexivity).
  assert (Htab : decode_table bd (floatingPoint format) (truthy (symmetric opts)) = None).
  { unfold decode_table.
    destruct (floatingPoint format), (truthy (symmetric opts));
      repeat match goal with
             | |- context [?a =? ?b] => destruct (Z.eqb_spec a b); [lia |]
             end; reflexivity. }
  rewrite Htab. clear Htab.
  destruct (N.to_uint (Z.to_N bd)) as [|u|u|u|u|u|u|u|u|u|u] eqn:Hu;
    apply decimal_inv in Hu;
    destruct (floatingPoint format), (truthy (symmetric opts));
    cbn -[N.of_uint] in *; split_digits;
    try reflexivity;
    exfalso; cbn in Hu; lia.
Qed.

(** ** Stores into the channel arrays *)

Lemma store_Some (cd : list (list float)) (ch i : Z) (v : float) :
  (Z.to_nat ch < length cd)%nat -> exists cd', store cd ch i v = Some cd'.
Proof.
  intros H. unfold store.
  destruct (lookup_lt_is_Some_2 cd (Z.to_nat ch) H) as [a Ha].
  rewrite Ha. eauto.
Qed.

Lemma store_length (cd cd' : list (list float)) (ch i : Z) (v : float) :
  store cd ch i v = Some cd' -> length cd' = length cd.
Proof.
  unfold store. destruct (cd !! Z.to_nat ch); [| discriminate].
  intros [= <-]. apply length_insert.
Qed.

Lemma store_cell (cd cd' : list (list float)) (ch i : Z) (v : float) (c j : nat) :
  store cd ch i v = Some cd' ->
  cell cd' c j =
  match cell cd c j with
  | None => None
  | Some old =>
      Some (if decide (c = Z.to_nat ch /\ j = Z.to_nat i) then JS.fround v else old)
  end.
Proof.
  unfold store, cell.
  destruct (cd !! Z.to_nat ch) as [a|] eqn:Ha; [| discriminate].
  intros [= <-].
  destruct (decide (c = Z.to_nat ch)) as [-> | Hc].
  - rewrite list_lookup_insert_eq by (eapply lookup_lt_Some; eauto).
    rewrite Ha.
    destruct (decide (j = Z.to_nat i)) as [-> | Hj].
    + destruct (a !! Z.to_nat i) as [old|] eqn:Hold.
      * rewrite list_lookup_insert_eq by (eapply lookup_lt_Some; eauto).
        destruct (decide _) as [_ | n]; [reflexivity | exfalso; apply n; auto].
      * rewrite list_insert_ge by (apply lookup_ge_None; exact Hold).
        exact Hold.
    + rewrite list_lookup_insert_ne by congruence.
      destruct (a !! j); [| reflexivity].
      destruct (decide _) as [[_ E] | _]; [contradiction | reflexivity].
  - rewrite list_lookup_insert_ne by congruence.
    destruct (cd !! c) as [b|]; [| reflexivity].
    destruct (b !! j); [| reflexivity].
    destruct (decide _) as [[E _] | _]; [contradiction | reflexivity].
Qed.

(** ** The loops of readPCM *)

Lemma in_bounds_split (dv : list byte) (p w rest : Z) :
  0 <= w -> 0 <= rest ->
  in_bounds dv p (w + rest) = true ->
  in_bounds dv p w = true /\ in_bounds dv (p + w) rest = true.
Proof.
  unfold in_bounds. intros Hw Hr H.
  apply andb_true_iff in H as [H1 H2]. apply Z.leb_le in H1, H2.
  split; apply andb_true_iff; split; apply Z.leb_le; lia.
Qed.

Section ReadLoops.

(** The loops of [readPCM] over any reader method that consumes [w] bytes
    per sample. *)
Variable read : M float.
Variable w : Z.
Hypothesis read_sampler : sampler read w.

Lemma sampler_width : 0 < w.
Proof. exact (proj1 read_sampler). Qed.

Lemma sampler_in (r : Reader) :
  in_bounds (dataView r) (pos r) w = true ->
  read r = (Ok (sample_val read (dataView r) (pos r)), seek r w).
Proof.
  intros Hin. destruct read_sampler as [_ Hs]. specialize (Hs r).
  rewrite Hin in Hs.
  destruct Hs as (v & Hr & Hv). unfold sample_val. rewrite Hv. exact Hr.
Qed.

Lemma sampler_out (r : Reader) :
  in_bounds (dataView r) (pos r) w = false ->
  read r = (Throw OutOfBounds, r).
Proof.
  intros Hin. destruct read_sampler as [_ Hs]. specialize (Hs r).
  rewrite Hin in Hs. exact Hs.
Qed.

(** One frame: [k] samples go to the channels [ch], [ch + 1], ... at
    index [i], in the order they are read. *)
Lemma channel_loop_ok :
  forall (k : nat) (ch i : Z) (cd : list (list float)) (r : Reader),
    0 <= ch -> 0 <= i ->
    in_bounds (dataView r) (pos r) (Z.of_nat k * w) = true ->
    (Z.to_nat ch + k <= length cd)%nat ->
    exists cd' r',
      channel_loop read k ch i cd r = (Ok cd', r') /\
      dataView r' = dataView r /\
      pos r' = pos r + Z.of_nat k * w /\
      length cd' = length cd /\
      forall c j,
        cell cd' c j =
        match cell cd c j with
        | None => None
        | Some old =>
            Some (if decide ((Z.to_nat ch <= c < Z.to_nat ch + k)%nat
                             /\ j = Z.to_nat i)
                  then JS.fround (sample_val read (dataView r)
                                    (pos r + (Z.of_nat c - ch) * w))
                  else old)
        end.
Proof.
  pose proof sampler_width as Hw.
  induction k as [|k IH]; intros ch i cd r Hch Hi Hin Hlen.
  - exists cd, r. cbn [channel_loop]. unfold ret.
    repeat split; [lia |]. intros c j.
    destruct (cell cd c j); [| reflexivity].
    destruct (decide _) as [[? _] | _]; [lia | reflexivity].
  - replace (Z.of_nat (S k) * w) with (w + Z.of_nat k * w) in Hin by lia.
    apply in_bounds_split in Hin as [Hin1 Hin2]; [| lia | nia].
    cbn [channel_loop]. unfold bind at 1.
    rewrite (sampler_in _ Hin1).
    destruct (store_Some cd ch i (sample_val read (dataView r) (pos r)))
      as [cd1 Hst]; [lia |].
    rewrite Hst.
    destruct (IH (ch + 1) i cd1 (seek r w))
      as (cd' & r' & Hrun & Hdv & Hpos & Hl & Hcell).
    + lia.
    + lia.
    + exact Hin2.
    + rewrite (store_length _ _ _ _ _ Hst). lia.
    + exists cd', r'. split; [exact Hrun |].
      split; [exact Hdv |].
      split; [rewrite Hpos; cbn [seek pos]; lia |].
      split; [rewrite Hl; eapply store_length; eauto |].
      intros c j. rewrite Hcell, (store_cell _ _ _ _ _ c j Hst).
      destruct (cell cd c j) as [old|]; [| reflexivity].
      f_equal. cbn [seek pos dataView].
      destruct (decide (_ /\ j = Z.to_nat i)) as [Hnew | Hnew];
        destruct (decide (c = Z.to_nat ch /\ j = Z.to_nat i)) as [Hfst | Hfst];
        destruct (decide (_ /\ j = Z.to_nat i)) as [Hall | Hall];
        try reflexivity; try lia.
      * f_equal. f_equal. lia.
      * f_equal. f_equal. destruct Hfst as [-> _]. lia.
Qed.

(** The frames [i], [i + 1], ... below [L]: frame [j] takes the
    [N] samples that start [(j - i) * N] samples after the cursor. *)
Lemma frame_loop_ok (N : Z) :
  0 <= N ->
  forall (fuel : nat) (i L : Z) (cd : list (list float)) (r : Reader),
    0 <= i <= L -> L <= 2 ^ 53 ->
    in_bounds (dataView r) (pos r) ((L - i) * N * w) = true ->
    (Z.to_nat N <= length cd)%nat ->
    (Z.to_nat (L - i) < fuel)%nat ->
    exists cd' r',
      frame_loop fuel read N i (JS.of_Z L) cd r = (Ok cd', r') /\
      dataView r' = dataView r /\
      pos r' = pos r + (L - i) * N * w /\
      length cd' = length cd /\
      forall c j,
        cell cd' c j =
        match cell cd c j with
        | None => None
        | Some old =>
            Some (if decide ((c < Z.to_nat N)%nat
                             /\ (Z.to_nat i <= j < Z.to_nat L)%nat)
                  then JS.fround (sample_val read (dataView r)
                                    (pos r + ((Z.of_nat j - i) * N + Z.of_nat c) * w))
                  else old)
        end.
Proof.
  intros HN. pose proof sampler_width as Hw.
  induction fuel as [|fuel IH]; intros i L cd r Hi HL Hin Hlen Hfuel; [lia |].
  cbn [frame_loop]. rewrite ltb_fin.
  destruct (Z.ltb_spec i L) as [Hlt | Hge].
  - replace ((L - i) * N * w) with (N * w + (L - i - 1) * N * w) in Hin by lia.
    assert (HNw : 0 <= N * w) by nia.
    assert (Hrest : 0 <= (L - i - 1) * N * w) by nia.
    apply in_bounds_split in Hin as [Hin1 Hin2]; [| nia | lia].
    destruct (channel_loop_ok (Z.to_nat N) 0 i cd r)
      as (cd1 & r1 & Hrun1 & Hdv1 & Hpos1 & Hl1 & Hcell1); try lia.
    { rewrite Z2Nat.id by lia. exact Hin1. }
    rewrite Z2Nat.id in Hpos1 by lia.
    unfold bind at 1. rewrite Hrun1.
    rewrite incr_small by lia.
    destruct (IH (i + 1) L cd1 r1) as (cd' & r' & Hrun & Hdv & Hpos & Hl & Hcell);
      try lia.
    { rewrite Hdv1, Hpos1.
      replace ((L - (i + 1)) * N * w) with ((L - i - 1) * N * w) by lia.
      exact Hin2. }
    exists cd', r'. split; [exact Hrun |].
    split; [congruence |]. split; [lia |]. split; [congruence |].
    intros c j. rewrite Hcell, Hcell1. destruct (cell cd c j); [| reflexivity].
    f_equal. rewrite Hdv1, Hpos1.
    repeat destruct (decide _); try reflexivity; try lia.
    * f_equal. f_equal. nia.
    * f_equal. f_equal.
      assert (Z.of_nat j = i) by lia. subst i. lia.
  - assert (i = L) by lia. subst L.
    exists cd, r. unfold ret. split; [reflexivity |].
    split; [reflexivity |]. split; [lia |]. split; [reflexivity |].
    intros c j. destruct (cell cd c j); [| reflexivity].
    destruct (decide _) as [[_ ?] | _]; [lia | reflexivity].
Qed.

End ReadLoops.

(** ** decodeData *)

Lemma table_sampler (bd : Z) (fp sym : bool) (read : M float) :
  decode_table bd fp sym = Some read -> sampler read (bd / 8).
Proof.
  unfold decode_table.
  destruct fp; [| destruct sym];
    repeat match goal with
           | |- context [?a =? ?b] => destruct (Z.eqb_spec a b); [subst |]
           end;
    intros [= <-];
    first [ exact pcm8_sampler | exact pcm8s_sampler | exact pcm16_sampler
          | exact pcm16s_sampler | exact pcm24_sampler | exact pcm24s_sampler
          | exact pcm32_sampler | exact pcm32s_sampler | exact pcm32f_sampler
          | exact pcm64f_sampler ].
Qed.

Lemma alloc_loop_ok (k : nat) (L : Z) (cd : list (list float)) (r : Reader) :
  0 <= L ->
  alloc_loop k (JS.of_Z L) cd r =
  (Ok (cd ++ replicate k (replicate (Z.to_nat L) PrimFloat.zero)), r).
Proof.
  intros HL. revert cd. induction k as [|k IH]; intros cd; cbn [alloc_loop replicate].
  - rewrite app_nil_r. reflexivity.
  - rewrite new_Float32Array_fin by exact HL. rewrite IH.
    rewrite <- app_assoc. reflexivity.
Qed.

Lemma cell_replicate (n m c j : nat) (x : float) :
  cell (replicate n (replicate m x)) c j =
  if decide ((c < n)%nat /\ (j < m)%nat) then Some x else None.
Proof.
  unfold cell.
  destruct (decide _) as [[Hc Hj] | Hn].
  - rewrite lookup_replicate_2 by exact Hc.
    rewrite lookup_replicate_2 by exact Hj. reflexivity.
  - destruct (replicate n (replicate m x) !! c) as [a|] eqn:Ha; [| reflexivity].
    apply lookup_replicate in Ha as [-> Hc].
    apply lookup_replicate_None. lia.
Qed.

Lemma decodeData_ok (fuel : nat) (chunkSize : Z) (format : Format)
  (opts : DecodeOptions) (read : M float) (r : Reader) (L : Z) :
  decode_table (bitDepth format) (floatingPoint format) (truthy (symmetric opts))
    = Some read ->
  1 <= numberOfChannels format -> 1 <= blockSize format ->
  0 <= pos r <= byteLength (dataView r) ->
  0 <= chunkSize < 2 ^ 32 ->
  L = Z.min chunkSize (byteLength (dataView r) - pos r)
      / (blockSize format * numberOfChannels format) ->
  pos r + L * numberOfChannels format * (bitDepth format / 8)
    <= byteLength (dataView r) ->
  (Z.to_nat L < fuel)%nat ->
  exists cd' r',
    decodeData fuel chunkSize (Some format) opts r =
      (Ok (inl {| info_numberOfChannels := numberOfChannels format;
                  info_length := JS.of_Z L;
                  info_sampleRate := sampleRate format;
                  channelData := cd' |}), r') /\
    dataView r' = dataView r /\
    pos r' = pos r + L * numberOfChannels format * (bitDepth format / 8) /\
    length cd' = Z.to_nat (numberOfChannels format) /\
    forall c j,
      cell cd' c j =
      if decide ((c < Z.to_nat (numberOfChannels format))%nat /\ (j < Z.to_nat L)%nat)
      then Some (JS.fround (sample_val read (dataView r)
                   (pos r + (Z.of_nat j * numberOfChannels format + Z.of_nat c)
                            * (bitDepth format / 8))))
      else None.
Proof.
  intros Htab HN Hb Hpos Hsize HL Hin Hfuel.
  pose proof (table_sampler _ _ _ _ Htab) as Hs.
  pose proof Hs as [Hw _].
  set (N := numberOfChannels format) in *.
  set (w := bitDepth format / 8) in *.
  assert (HL0 : 0 <= L).
  { subst L. apply Z.div_pos; lia. }
  assert (HLs : L <= chunkSize).
  { subst L.
    set (m := Z.min chunkSize (byteLength (dataView r) - pos r)).
    assert (0 <= m) by (unfold m; lia).
    assert (m / (blockSize format * N) <= m).
    { apply Z.div_le_upper_bound; [lia |].
      assert (1 <= blockSize format * N) by nia. nia. }
    unfold m in *. lia. }
  unfold decodeData. unfold bind at 1, remain at 1.
  rewrite frame_length_fin by (fold N; lia). fold N. rewrite <- HL.
  unfold bind at 1. rewrite alloc_loop_ok by exact HL0. cbn [app].
  unfold readPCM. rewrite dispatch_table, Htab. fold N.
  unfold bind at 1. unfold bind at 1.
  destruct (frame_loop_ok read w Hs N ltac:(lia) fuel 0 L
              (replicate (Z.to_nat N) (replicate (Z.to_nat L) PrimFloat.zero)) r)
    as (cd' & r' & Hrun & Hdv & Hp & Hl & Hcell); try lia.
  { unfold in_bounds. apply andb_true_iff. split; apply Z.leb_le; [lia |].
    rewrite Z.sub_0_r. exact Hin. }
  { rewrite length_replicate. lia. }
  rewrite Hrun. unfold ret.
  exists cd', r'. split; [reflexivity |]. split; [exact Hdv |].
  split; [rewrite Hp; f_equal; lia |].
  split; [rewrite Hl; apply length_replicate |].
  intros c j. rewrite Hcell, cell_replicate.
  repeat destruct (decide _); try reflexivity; try lia.
  f_equal. f_equal. f_equal. lia.
Qed.

(* ===================================================================== *)
(** * The direction of the cursor *)
(* ===================================================================== *)

Lemma seek_monotone (r : Reader) (n : Z) :
  0 <= n -> monotone r -> monotone (seek r n).
Proof. unfold monotone. cbn. intros Hn Hr. split; [lia | exact Hr]. Qed.

Lemma forward_ret {A} (a : A) : forward (ret a).
Proof. intros r Hr. exact Hr. Qed.

Lemma forward_throw {A} (e : Exn) : forward (@throw A e).
Proof. intros r Hr. exact Hr. Qed.

Lemma forward_diverge {A} : forward (@diverge A).
Proof. intros r Hr. exact Hr. Qed.

Lemma forward_bind {A B} (m : M A) (k : A -> M B) :
  forward m -> (forall a, forward (k a)) -> forward (bind m k).
Proof.
  intros Hm Hk r Hr. unfold bind. specialize (Hm r Hr).
  destruct (m r) as [[a | e |] r']; cbn [snd] in *; auto.
  apply Hk. exact Hm.
Qed.

Lemma forward_view {A} (get : list byte -> Z -> option A) (off : Z) :
  forward (view get off).
Proof. intros r Hr. unfold view. destruct (get _ _); exact Hr. Qed.

Lemma forward_advance (n : Z) : 0 <= n -> forward (advance n).
Proof. intros Hn r Hr. cbn. apply seek_monotone; assumption. Qed.

Create HintDb fwd.
#[local] Hint Resolve forward_ret forward_throw forward_diverge forward_view : fwd.
#[local] Hint Extern 1 (forward (advance _)) => (apply forward_advance; lia) : fwd.
#[local] Hint Extern 2 (forward (bind _ _)) => (apply forward_bind; [| intros ?]) : fwd.

Ltac fwd := auto 20 with fwd.

Lemma forward_uint8 : forward uint8.
Proof. unfold uint8. fwd. Qed.
Lemma forward_uint16 : forward uint16.
Proof. unfold uint16. fwd. Qed.
Lemma forward_uint32 : forward uint32.
Proof. unfold uint32. fwd. Qed.

#[local] Hint Resolve forward_uint8 forward_uint16 forward_uint32 : fwd.

Lemma forward_string_loop (n : nat) (data : string) : forward (string_loop n data).
Proof. revert data. induction n as [|n IH]; intros data; cbn [string_loop]; fwd. Qed.

Lemma forward_string (n : nat) : forward (string_ n).
Proof. apply forward_string_loop. Qed.

#[local] Hint Resolve forward_string : fwd.

Lemma forward_table (bd : Z) (fp sym : bool) (read : M float) :
  decode_table bd fp sym = Some read -> forward read.
Proof.
  unfold decode_table.
  destruct fp; [| destruct sym];
    repeat match goal with
           | |- context [?a =? ?b] => destruct (Z.eqb_spec a b)
           end;
    intros [= <-];
    unfold pcm8, pcm8s, pcm16, pcm16s, pcm24, pcm24s, pcm32, pcm32s, pcm32f, pcm64f;
    fwd.
Qed.

Lemma forward_channel_loop (read : M float) :
  forward read ->
  forall k ch i cd, forward (channel_loop read k ch i cd).
Proof.
  intros Hread. induction k as [|k IH]; intros ch i cd; cbn [channel_loop]; [fwd |].
  apply forward_bind; [exact Hread |]. intros v.
  destruct (store cd ch i v); [apply IH | fwd].
Qed.

Lemma forward_frame_loop (read : M float) :
  forward read ->
  forall fuel N i length cd, forward (frame_loop fuel read N i length cd).
Proof.
  intros Hread. induction fuel as [|fuel IH]; intros N i length cd;
    cbn [frame_loop]; [fwd |].
  destruct (JS.ltb i length); [| fwd].
  apply forward_bind; [apply forward_channel_loop; exact Hread |].
  intros cd'. apply IH.
Qed.

Lemma forward_alloc_loop (k : nat) (length : JS.jsnum) (cd : list (list float)) :
  forward (alloc_loop k length cd).
Proof.
  revert cd. induction k as [|k IH]; intros cd; cbn [alloc_loop]; [fwd |].
  destruct (new_Float32Array length); [apply IH | fwd].
Qed.

Lemma forward_readPCM fuel cd length format opts :
  forward (readPCM fuel cd length format opts).
Proof.
  unfold readPCM. rewrite dispatch_table.
  destruct (decode_table _ _ _) as [read|] eqn:Htab; [| fwd].
  apply forward_bind; [| intros ?; fwd].
  apply forward_frame_loop. eapply forward_table; eauto.
Qed.

Lemma forward_decodeData fuel chunkSize format opts :
  forward (decodeData fuel chunkSize format opts).
Proof.
  unfold decodeData. apply forward_bind.
  - intros r Hr. exact Hr.
  - intros rem. destruct format as [format|]; [| fwd].
    apply forward_bind; [apply forward_alloc_loop |]. intros cd.
    apply forward_bind; [apply forward_readPCM |]. intros [cd' [e|]]; fwd.
Qed.

Lemma forward_check_header : forward check_header.
Proof.
  unfold check_header. apply forward_bind; [fwd |]. intros riff.
  destruct (negb _); [fwd |].
  apply forward_bind; [fwd |]. intros _.
  apply forward_bind; [fwd |]. intros wave.
  destruct (negb _); fwd.
Qed.

(** Case analysis on a bind whose first part is forward. *)
Lemma bind_forward_elim {A B} (m : M A) (k : A -> M B) (r : Reader)
  (P : Res B * Reader -> Prop) :
  forward m -> monotone r ->
  (forall a r', m r = (Ok a, r') -> monotone r' -> P (k a r')) ->
  (forall e r', monotone r' -> P (Throw e, r')) ->
  (forall r', monotone r' -> P (Diverge, r')) ->
  P (bind m k r).
Proof.
  intros Hm Hr Hok Hthrow Hdiv. unfold bind. specialize (Hm r Hr).
  destruct (m r) as [[a | e |] r']; cbn [snd] in Hm; auto.
Qed.

(** Either [decodeFormat] returns a format, after a last skip of
    [chunkSize - 16] from a forward run, or the whole run was forward. *)
Lemma decodeFormat_cases (chunkSize : Z) (r : Reader) :
  monotone r ->
  (exists f r5, decodeFormat chunkSize r = (Ok (inl f), seek r5 (chunkSize - 16))
                /\ monotone r5) \/
  (monotone (snd (decodeFormat chunkSize r)) /\
   forall f, fst (decodeFormat chunkSize r) <> Ok (inl f)).
Proof.
  intros Hr. unfold decodeFormat.
  apply bind_forward_elim; [fwd | exact Hr | | |];
    try (intros; right; cbn; split; [assumption | discriminate]).
  intros id r1 _ Hr1.
  destruct (formats id); [| right; cbn; split; [assumption | discriminate]].
  apply bind_forward_elim; [fwd | exact Hr1 | | |];
    try (intros; right; cbn; split; [assumption | discriminate]).
  intros n r2 _ Hr2.
  apply bind_forward_elim; [fwd | exact Hr2 | | |];
    try (intros; right; cbn; split; [assumption | discriminate]).
  intros rate r3 _ Hr3.
  apply bind_forward_elim; [fwd | exact Hr3 | | |];
    try (intros; right; cbn; split; [assumption | discriminate]).
  intros brate r4 _ Hr4.
  apply bind_forward_elim; [fwd | exact Hr4 | | |];
    try (intros; right; cbn; split; [assumption | discriminate]).
  intros bsize r5 _ Hr5.
  apply bind_forward_elim; [fwd | exact Hr5 | | |];
    try (intros; right; cbn; split; [assumption | discriminate]).
  intros depth r6 _ Hr6.
  left. eexists _, r6. split; [reflexivity | exact Hr6].
Qed.

Lemma decodeFormat_monotone (chunkSize : Z) (r : Reader) (f : Format) (r' : Reader) :
  monotone r -> 16 <= chunkSize ->
  decodeFormat chunkSize r = (Ok (inl f), r') -> monotone r'.
Proof.
  intros Hr Hsize Hrun.
  destruct (decodeFormat_cases chunkSize r Hr) as [(f' & r5 & E & Hr5) | [_ Hno]].
  - rewrite E in Hrun. injection Hrun as _ <-. apply seek_monotone; [lia | exact Hr5].
  - exfalso. apply (Hno f). rewrite Hrun. reflexivity.
Qed.

Lemma decodeFormat_failed_monotone (chunkSize : Z) (r : Reader) :
  monotone r -> (forall f, fst (decodeFormat chunkSize r) <> Ok (inl f)) ->
  monotone (snd (decodeFormat chunkSize r)).
Proof.
  intros Hr Hno.
  destruct (decodeFormat_cases chunkSize r Hr) as [(f' & r5 & E & Hr5) | [H _]].
  - exfalso. apply (Hno f'). rewrite E. reflexivity.
  - exact H.
Qed.

Lemma le_uint_nonneg (bs : list Z) :
  Forall (fun b => 0 <= b) bs -> 0 <= le_uint bs.
Proof. induction 1; cbn [le_uint]; lia. Qed.

Lemma byte_vals_nonneg (l : list byte) : Forall (fun b => 0 <= b) (map byte_val l).
Proof.
  induction l as [|b l IH]; cbn [map]; constructor; [| exact IH].
  unfold byte_val. lia.
Qed.

Lemma uint32_nonneg (r r' : Reader) (v : Z) :
  uint32 r = (Ok v, r') -> 0 <= v.
Proof.
  unfold uint32, bind, view, advance, ret, getUint32, get_bytes.
  destruct (_ && _); cbn [option_map]; [| discriminate].
  intros [= <- _]. apply le_uint_nonneg, byte_vals_nonneg.
Qed.

Lemma chunk_loop_monotone (fuel : nat) (opts : DecodeOptions) :
  forall (format : option Format) (r : Reader),
    monotone r ->
    Forall (fun c => 16 <= fst c) (fmt_chunks fuel r) ->
    monotone (snd (chunk_loop fuel opts format r)).
Proof.
  induction fuel as [|fuel IH]; intros format r Hr Hall; [exact Hr |].
  cbn [chunk_loop fmt_chunks] in *.
  apply bind_forward_elim; [fwd | exact Hr | | intros; assumption | intros; assumption].
  intros chunkType r1 E1 Hr1. rewrite E1 in Hall.
  apply bind_forward_elim; [fwd | exact Hr1 | | intros; assumption | intros; assumption].
  intros chunkSize r2 E2 Hr2. rewrite E2 in Hall.
  destruct (chunkType =? "fmt ")%string.
  - unfold bind.
    destruct (decodeFormat chunkSize r2) as [[[f | e] | e |] r3] eqn:E3.
    + apply Forall_cons in Hall as [Hsize Hall]. cbn [fst] in Hsize.
      apply IH; [| exact Hall].
      eapply decodeFormat_monotone; eauto.
    + pose proof (decodeFormat_failed_monotone chunkSize r2 Hr2) as H.
      rewrite E3 in H. apply H. cbn. discriminate.
    + pose proof (decodeFormat_failed_monotone chunkSize r2 Hr2) as H.
      rewrite E3 in H. apply H. cbn. discriminate.
    + pose proof (decodeFormat_failed_monotone chunkSize r2 Hr2) as H.
      rewrite E3 in H. apply H. cbn. discriminate.
  - destruct (chunkType =? "data")%string.
    + apply bind_forward_elim;
        [apply forward_decodeData | exact Hr2 | | intros; assumption | intros; assumption].
      intros [info | e] r3 _ Hr3; exact Hr3.
    + unfold skip, bind, advance. apply IH; [| exact Hall].
      apply seek_monotone; [| exact Hr2].
      eapply uint32_nonneg; eauto.
Qed.

(* ===================================================================== *)
(** * Fuel *)
(* ===================================================================== *)

(** A run that ended is not changed by more fuel. *)

Lemma bind_more {A B} (m : M A) (k k' : A -> M B) (r : Reader) :
  fst (bind m k r) <> Diverge ->
  (forall a r', fst (k a r') <> Diverge -> k' a r' = k a r') ->
  bind m k' r = bind m k r.
Proof.
  unfold bind. intros Hend Hk.
  destruct (m r) as [[a | e |] r']; [| reflexivity | reflexivity].
  apply Hk. exact Hend.
Qed.

Lemma frame_loop_more (read : M float) (N : Z) (length : JS.jsnum) :
  forall (fuel fuel' : nat) (i : Z) (cd : list (list float)) (r : Reader),
    (fuel <= fuel')%nat ->
    fst (frame_loop fuel read N i length cd r) <> Diverge ->
    frame_loop fuel' read N i length cd r = frame_loop fuel read N i length cd r.
Proof.
  induction fuel as [|fuel IH]; intros fuel' i cd r Hle Hend.
  - exfalso. apply Hend. reflexivity.
  - destruct fuel' as [|fuel']; [lia |].
    cbn [frame_loop] in *.
    destruct (JS.ltb i length); [| reflexivity].
    apply bind_more; [exact Hend |].
    intros cd' r' Hend'. apply IH; [lia | exact Hend'].
Qed.

Lemma readPCM_more (fuel fuel' : nat) cd length format opts (r : Reader) :
  (fuel <= fuel')%nat ->
  fst (readPCM fuel cd length format opts r) <> Diverge ->
  readPCM fuel' cd length format opts r = readPCM fuel cd length format opts r.
Proof.
  intros Hle. unfold readPCM.
  destruct (reader_method _) as [read|]; [| reflexivity].
  intros Hend. unfold bind in *.
  destruct (frame_loop fuel read (numberOfChannels format) 0 length cd r)
    as [[cd' | e |] r'] eqn:E.
  - rewrite (frame_loop_more read _ _ fuel fuel' 0 cd r Hle), E;
      [reflexivity | rewrite E; discriminate].
  - rewrite (frame_loop_more read _ _ fuel fuel' 0 cd r Hle), E;
      [reflexivity | rewrite E; discriminate].
  - exfalso. apply Hend. reflexivity.
Qed.

Lemma decodeData_more (fuel fuel' : nat) chunkSize format opts (r : Reader) :
  (fuel <= fuel')%nat ->
  fst (decodeData fuel chunkSize format opts r) <> Diverge ->
  decodeData fuel' chunkSize format opts r = decodeData fuel chunkSize format opts r.
Proof.
  intros Hle. unfold decodeData.
  intros Hend. apply bind_more; [exact Hend |]. clear Hend r.
  intros rem r Hend.
  destruct format as [format|]; [| reflexivity].
  apply bind_more; [exact Hend |]. clear Hend r.
  intros cd r Hend.
  unfold bind in *.
  destruct (readPCM fuel cd _ format opts r) as [[[cd' ret] | e |] r'] eqn:E.
  - rewrite (readPCM_more fuel fuel'), E; [reflexivity | exact Hle |].
    rewrite E. discriminate.
  - rewrite (readPCM_more fuel fuel'), E; [reflexivity | exact Hle |].
    rewrite E. discriminate.
  - exfalso. apply Hend. reflexivity.
Qed.

Lemma chunk_loop_more (opts : DecodeOptions) :
  forall (fuel fuel' : nat) (format : option Format) (r : Reader),
    (fuel <= fuel')%nat ->
    fst (chunk_loop fuel opts format r) <> Diverge ->
    chunk_loop fuel' opts format r = chunk_loop fuel opts format r.
Proof.
  induction fuel as [|fuel IH]; intros fuel' format r Hle Hend.
  - exfalso. apply Hend. reflexivity.
  - destruct fuel' as [|fuel']; [lia |].
    cbn [chunk_loop] in *.
    apply bind_more; [exact Hend |]. clear Hend r.
    intros chunkType r Hend.
    apply bind_more; [exact Hend |]. clear Hend r.
    intros chunkSize r Hend.
    destruct (chunkType =? "fmt ")%string.
    + apply bind_more; [exact Hend |]. clear Hend r.
      intros [f | e] r Hend; [| reflexivity].
      apply IH; [lia | exact Hend].
    + destruct (chunkType =? "data")%string.
      * unfold bind in *.
        destruct (decodeData fuel chunkSize format opts r) as [[x | e |] r'] eqn:E.
        -- rewrite (decodeData_more fuel fuel'), E; [reflexivity | lia |].
           rewrite E. discriminate.
        -- rewrite (decodeData_more fuel fuel'), E; [reflexivity | lia |].
           rewrite E. discriminate.
        -- exfalso. apply Hend. reflexivity.
      * apply bind_more; [exact Hend |]. clear Hend r.
        intros _ r Hend. apply IH; [lia | exact Hend].
Qed.

Lemma decodeSync_more (fuel fuel' : nat) (buffer : list byte)
  (opts : option DecodeOptions) :
  (fuel <= fuel')%nat ->
  decodeSync fuel buffer opts <> Diverge ->
  decodeSync fuel' buffer opts = decodeSync fuel buffer opts.
Proof.
  unfold decodeSync, decodeSync_run, decodeSync_body. intros Hle Hend.
  f_equal. apply bind_more; [exact Hend |].
  intros _ r Hend'. apply chunk_loop_more; [exact Hle | exact Hend'].
Qed.

(* ===================================================================== *)
(** * What the options decide *)
(* ===================================================================== *)

Lemma readPCM_mode fuel cd length format (o1 o2 : DecodeOptions) :
  truthy (symmetric o1) = truthy (symmetric o2) ->
  readPCM fuel cd length format o1 = readPCM fuel cd length format o2.
Proof.
  intros H. unfold readPCM. rewrite !dispatch_table, H. reflexivity.
Qed.

Lemma readPCM_float fuel cd length format (o1 o2 : DecodeOptions) :
  floatingPoint format = true ->
  readPCM fuel cd length format o1 = readPCM fuel cd length format o2.
Proof.
  intros H. unfold readPCM. rewrite !dispatch_table, H. reflexivity.
Qed.

(** [decodeData] uses the options in [readPCM] only. *)
Lemma decodeData_readPCM fuel chunkSize format (o1 o2 : DecodeOptions) (r : Reader) :
  (forall f cd length, format = Some f ->
     readPCM fuel cd length f o1 = readPCM fuel cd length f o2) ->
  decodeData fuel chunkSize format o1 r = decodeData fuel chunkSize format o2 r.
Proof.
  intros H. unfold decodeData. destruct format as [f|]; [| reflexivity].
  unfold bind, remain.
  destruct (alloc_loop _ _ _ r) as [[cd | e |] r1]; [| reflexivity | reflexivity].
  rewrite (H f) by reflexivity. reflexivity.
Qed.

Lemma chunk_loop_mode (o1 o2 : DecodeOptions) :
  truthy (symmetric o1) = truthy (symmetric o2) ->
  forall (fuel : nat) (format : option Format) (r : Reader),
    chunk_loop fuel o1 format r = chunk_loop fuel o2 format r.
Proof.
  intros Hmode. induction fuel as [|fuel IH]; intros format r; [reflexivity |].
  cbn [chunk_loop]. unfold bind.
  destruct (string_ 4 r) as [[chunkType | e |] r1]; [| reflexivity | reflexivity].
  destruct (uint32 r1) as [[chunkSize | e |] r2]; [| reflexivity | reflexivity].
  destruct (chunkType =? "fmt ")%string.
  - destruct (decodeFormat chunkSize r2) as [[[f | e] | e |] r3];
      try reflexivity. apply IH.
  - destruct (chunkType =? "data")%string.
    + rewrite (decodeData_readPCM fuel chunkSize format o1 o2 r2); [reflexivity |].
      intros f cd length _. apply readPCM_mode. exact Hmode.
    + destruct (skip chunkSize r2) as [[u | e |] r3]; try reflexivity. apply IH.
Qed.

Lemma decodeFormat_floatingPoint (chunkSize : Z) (r r' : Reader) (f : Format) :
  decodeFormat chunkSize r = (Ok (inl f), r') ->
  floatingPoint f = (formatId f =? 3).
Proof.
  unfold decodeFormat, bind.
  destruct (uint16 r) as [[id | e |] r1]; [| discriminate | discriminate].
  destruct (formats id); [| discriminate].
  repeat match goal with
         | |- context [match ?m ?s with _ => _ end] =>
             destruct (m s) as [[? | ? |] ?]; try discriminate
         end.
  intros [= <- _]. reflexivity.
Qed.

(** With floating-point formats only, the options decide nothing. *)
Lemma chunk_loop_float (o1 o2 : DecodeOptions) :
  forall (fuel : nat) (format : option Format) (r : Reader),
    (forall f, format = Some f -> floatingPoint f = true) ->
    Forall (fun c => formatId (snd c) = 3) (fmt_chunks fuel r) ->
    chunk_loop fuel o1 format r = chunk_loop fuel o2 format r.
Proof.
  induction fuel as [|fuel IH]; intros format r Hfmt Hall; [reflexivity |].
  cbn [chunk_loop fmt_chunks] in *. unfold bind.
  destruct (string_ 4 r) as [[chunkType | e |] r1]; [| reflexivity | reflexivity].
  destruct (uint32 r1) as [[chunkSize | e |] r2]; [| reflexivity | reflexivity].
  destruct (chunkType =? "fmt ")%string.
  - destruct (decodeFormat chunkSize r2) as [[[f | e] | e |] r3] eqn:E;
      try reflexivity.
    apply Forall_cons in Hall as [Hid Hall]. cbn [snd] in Hid.
    apply IH; [| exact Hall].
    intros f' [= <-]. rewrite (decodeFormat_floatingPoint _ _ _ _ E), Hid.
    reflexivity.
  - destruct (chunkType =? "data")%string.
    + rewrite (decodeData_readPCM fuel chunkSize format o1 o2 r2); [reflexivity |].
      intros f cd length Hf. apply readPCM_float. apply Hfmt. exact Hf.
    + unfold skip, advance. apply IH; assumption.
Qed.

(* ===================================================================== *)
(** * Termination of the data decoder *)
(* ===================================================================== *)

Lemma sampler_ends (read : M float) (w : Z) (r : Reader) :
  sampler read w -> fst (read r) <> Diverge.
Proof.
  intros [_ Hs]. specialize (Hs r).
  destruct (in_bounds _ _ _).
  - destruct Hs as (v & -> & _). discriminate.
  - rewrite Hs. discriminate.
Qed.

Lemma channel_loop_ends (read : M float) (w : Z) :
  sampler read w ->
  forall k ch i cd r, fst (channel_loop read k ch i cd r) <> Diverge.
Proof.
  intros Hs. induction k as [|k IH]; intros ch i cd r; cbn [channel_loop].
  - discriminate.
  - unfold bind. pose proof (sampler_ends read w r Hs) as Hr.
    destruct (read r) as [[v | e |] r']; cbn [fst] in *;
      [| discriminate | contradiction].
    destruct (store cd ch i v); [apply IH | discriminate].
Qed.

Lemma frame_loop_ends (read : M float) (w N L : Z) :
  sampler read w -> L <= 2 ^ 53 ->
  forall (fuel : nat) (i : Z) (cd : list (list float)) (r : Reader),
    (Z.to_nat (L - i) < fuel)%nat ->
    fst (frame_loop fuel read N i (JS.of_Z L) cd r) <> Diverge.
Proof.
  intros Hs HL. induction fuel as [|fuel IH]; intros i cd r Hfuel; [lia |].
  cbn [frame_loop]. rewrite ltb_fin.
  destruct (Z.ltb_spec i L) as [Hlt | Hge]; [| discriminate].
  unfold bind.
  pose proof (channel_loop_ends read w Hs (Z.to_nat N) 0 i cd r) as Hc.
  destruct (channel_loop read (Z.to_nat N) 0 i cd r) as [[cd' | e |] r'];
    cbn [fst] in *; [| discriminate | contradiction].
  rewrite incr_small by lia. apply IH. lia.
Qed.

Lemma alloc_loop_ends (k : nat) (length : JS.jsnum) :
  forall cd r, fst (alloc_loop k length cd r) <> Diverge.
Proof.
  induction k as [|k IH]; intros cd r; cbn [alloc_loop]; [discriminate |].
  destruct (new_Float32Array length); [apply IH | discriminate].
Qed.

Lemma alloc_loop_neg (k : nat) (L : Z) (cd : list (list float)) (r : Reader) :
  L < 0 -> (0 < k)%nat ->
  alloc_loop k (JS.of_Z L) cd r = (Throw InvalidArrayLength, r).
Proof.
  intros HL Hk. destruct k as [|k]; [lia |]. cbn [alloc_loop].
  rewrite new_Float32Array_neg by exact HL. reflexivity.
Qed.

Lemma decodeData_ends (format : Format) (chunkSize : Z) (opts : DecodeOptions)
  (r : Reader) (fuel : nat) :
  1 <= numberOfChannels format -> 1 <= blockSize format -> chunkSize < 2 ^ 32 ->
  (Z.to_nat (Z.min chunkSize (byteLength (dataView r) - pos r)
             / (blockSize format * numberOfChannels format)) < fuel)%nat ->
  fst (decodeData fuel chunkSize (Some format) opts r) <> Diverge.
Proof.
  intros HN Hb Hsize.
  set (c := Z.min chunkSize (byteLength (dataView r) - pos r)).
  set (L := c / (blockSize format * numberOfChannels format)).
  intros Hfuel.
  unfold decodeData. unfold bind at 1, remain at 1. fold c.
  rewrite frame_length_fin by lia. fold L.
  assert (HLc : L <= 2 ^ 32).
  { unfold L. assert (1 <= blockSize format * numberOfChannels format) by nia.
    destruct (Z.le_gt_cases 0 c).
    - assert (c / (blockSize format * numberOfChannels format) <= c).
      { apply Z.div_le_upper_bound; [lia | nia]. }
      unfold c in *. lia.
    - assert (c / (blockSize format * numberOfChannels format) < 0).
      { apply Z.div_lt_upper_bound; lia. }
      lia. }
  unfold bind at 1.
  destruct (alloc_loop _ _ _ r) as [[cd | e |] r1] eqn:Ealloc.
  - unfold readPCM. rewrite dispatch_table.
    destruct (decode_table _ _ _) as [read|] eqn:Htab.
    + unfold bind.
      pose proof (frame_loop_ends read _ (numberOfChannels format) L
                    (table_sampler _ _ _ _ Htab) ltac:(lia) fuel 0 cd r1
                    ltac:(lia)) as Hf.
      destruct (frame_loop _ _ _ _ _ _ _) as [[cd' | e |] r2]; cbn [fst] in *;
        [discriminate | discriminate | contradiction].
    + cbn. discriminate.
  - discriminate.
  - pose proof (alloc_loop_ends (Z.to_nat (numberOfChannels format)) (JS.of_Z L) [] r) as H.
    rewrite Ealloc in H. contradiction.
Qed.

Lemma frame_length_no_channel (format : Format) (c : Z) :
  numberOfChannels format = 0 -> 0 <= blockSize format -> 0 < c ->
  frame_length c format = JS.PInf.
Proof.
  intros HN Hb Hc. unfold frame_length. rewrite HN.
  unfold JS.of_Z, JS.div at 2.
  destruct (Z.eqb_spec (blockSize format) 0) as [Hb0 | Hb0].
  - cbn [inject_Z Qnum]. destruct (Z.compare_spec c 0); try lia. reflexivity.
  - destruct (blockSize format) as [|pb|pb]; try lia.
    unfold JS.div. cbn [Z.eqb]. unfold Qdiv, Qmult, Qinv, inject_Z. cbn [Qnum Qden].
    destruct (Z.compare_spec (c * 1) 0); try lia. reflexivity.
Qed.

Lemma frame_loop_forever (read : M float) :
  forall (fuel : nat) (i : Z) (cd : list (list float)) (r : Reader),
    fst (frame_loop fuel read 0 i JS.PInf cd r) = Diverge.
Proof.
  induction fuel as [|fuel IH]; intros i cd r; [reflexivity |].
  cbn [frame_loop JS.ltb]. change (Z.to_nat 0) with 0%nat. cbn [channel_loop].
  unfold bind, ret. apply IH.
Qed.

Lemma decodeData_forever (format : Format) (chunkSize : Z) (opts : DecodeOptions)
  (read : M float) (r : Reader) (fuel : nat) :
  numberOfChannels format = 0 -> 0 <= blockSize format ->
  0 < Z.min chunkSize (byteLength (dataView r) - pos r) ->
  decode_table (bitDepth format) (floatingPoint format) (truthy (symmetric opts))
    = Some read ->
  fst (decodeData fuel chunkSize (Some format) opts r) = Diverge.
Proof.
  intros HN Hb Hc Htab. unfold decodeData. unfold bind at 1, remain at 1.
  rewrite frame_length_no_channel by assumption.
  rewrite HN. change (Z.to_nat 0) with 0%nat. cbn [alloc_loop].
  unfold bind at 1, ret at 1.
  unfold readPCM. rewrite dispatch_table, Htab, HN.
  unfold bind.
  pose proof (frame_loop_forever read fuel 0 [] r) as H.
  destruct (frame_loop fuel read 0 0 JS.PInf [] r) as [[cd | e |] r']; cbn [fst] in H;
    try discriminate. reflexivity.
Qed.

(* ===================================================================== *)
(** * Where the reads leave the cursor *)
(* ===================================================================== *)

Lemma uint8_seek (r r' : Reader) (v : Z) :
  uint8 r = (Ok v, r') -> r' = seek r 1.
Proof.
  unfold uint8, bind, view, advance, ret.
  destruct (getUint8 _ _); [| discriminate]. intros [= _ <-]. reflexivity.
Qed.

Lemma uint16_seek (r r' : Reader) (v : Z) :
  uint16 r = (Ok v, r') -> r' = seek r 2.
Proof.
  unfold uint16, bind, view, advance, ret.
  destruct (getUint16 _ _); [| discriminate]. intros [= _ <-]. reflexivity.
Qed.

Lemma uint32_seek (r r' : Reader) (v : Z) :
  uint32 r = (Ok v, r') -> r' = seek r 4.
Proof.
  unfold uint32, bind, view, advance, ret.
  destruct (getUint32 _ _); [| discriminate]. intros [= _ <-]. reflexivity.
Qed.

Lemma string_loop_pos (n : nat) :
  forall (data s : string) (r r' : Reader),
    string_loop n data r = (Ok s, r') ->
    pos r' = pos r + Z.of_nat n /\ dataView r' = dataView r.
Proof.
  induction n as [|n IH]; intros data s r r'; cbn [string_loop].
  - intros [= _ <-]. split; [lia | reflexivity].
  - unfold bind. destruct (uint8 r) as [[c | e |] r1] eqn:E; try discriminate.
    apply uint8_seek in E. subst r1. intros H.
    apply IH in H as [Hp Hd]. cbn [seek pos dataView] in *. split; [lia | exact Hd].
Qed.

Lemma string_pos (n : nat) (s : string) (r r' : Reader) :
  string_ n r = (Ok s, r') ->
  pos r' = pos r + Z.of_nat n /\ dataView r' = dataView r.
Proof. apply string_loop_pos. Qed.

Lemma rows_of_cells (cd : list (list float)) (n m : nat) :
  length cd = n ->
  (forall c j, is_Some (cell cd c j) <-> (c < n)%nat /\ (j < m)%nat) ->
  Forall (fun a => length a = m) cd.
Proof.
  intros Hn Hcell. apply Forall_lookup. intros c a Ha.
  assert (Hc : (c < n)%nat) by (rewrite <- Hn; eapply lookup_lt_Some; eauto).
  assert (Hrow : forall j, is_Some (a !! j) <-> (j < m)%nat).
  { intros j. specialize (Hcell c j). unfold cell in Hcell. rewrite Ha in Hcell.
    rewrite Hcell. intuition. }
  destruct (Nat.lt_trichotomy (length a) m) as [Hlt | [Heq | Hgt]]; [| exact Heq |].
  - exfalso. apply Hrow in Hlt. apply lookup_lt_is_Some in Hlt. lia.
  - exfalso. apply lookup_lt_is_Some in Hgt. apply Hrow in Hgt. lia.
Qed.

(* ===================================================================== *)
(** * The frame count of a well-formed chunk *)
(* ===================================================================== *)

(** On a 16-bit chunk of [L] frames of [N] channels, laid out as the format
    says ([blockSize = 2 * N], a body of [2 * N * L] bytes), [decodeData]
    returns [N] arrays of [L / N] samples: the frame count is divided by the
    channel count once in [blockSize] and once more by [numberOfChannels]. *)
Lemma decodeData_pcm16_frames (fuel : nat) (N L rate : Z) (opts : DecodeOptions)
  (r : Reader) :
  1 <= N -> 0 <= L -> 2 * N * L < 2 ^ 32 ->
  0 <= pos r -> pos r + 2 * N * L <= byteLength (dataView r) ->
  (Z.to_nat (L / N) < fuel)%nat ->
  exists info r',
    decodeData fuel (2 * N * L) (Some (pcm_format N rate 16)) opts r
      = (Ok (inl info), r') /\
    info_length info = JS.of_Z (L / N) /\
    length (channelData info) = Z.to_nat N /\
    Forall (fun a => length a = Z.to_nat (L / N)) (channelData info).
Proof.
  intros HN HL Hsize Hpos Hbody Hfuel.
  assert (Htab : exists read,
             decode_table (bitDepth (pcm_format N rate 16))
               (floatingPoint (pcm_format N rate 16))
               (truthy (symmetric opts)) = Some read).
  { cbn. destruct (truthy (symmetric opts)); eauto. }
  destruct Htab as [read Htab].
  assert (Hq : Z.min (2 * N * L) (byteLength (dataView r) - pos r)
               / (blockSize (pcm_format N rate 16)
                  * numberOfChannels (pcm_format N rate 16)) = L / N).
  { rewrite Z.min_l by lia. cbn [pcm_format blockSize numberOfChannels].
    change (16 / 8) with 2.
    replace (2 * N * L) with ((2 * N) * L) by lia.
    replace (N * 2 * N) with ((2 * N) * N) by lia.
    apply Z.div_mul_cancel_l; lia. }
  assert (Hdiv : L / N * N <= L).
  { rewrite Z.mul_comm. apply Z.mul_div_le. lia. }
  assert (Hdiv0 : 0 <= L / N) by (apply Z.div_pos; lia).
  destruct (decodeData_ok fuel (2 * N * L) (pcm_format N rate 16) opts read r (L / N))
    as (cd' & r' & Hrun & _ & _ & Hlen & Hcell); try assumption.
  - cbn [pcm_format blockSize]. change (16 / 8) with 2. lia.
  - assert (0 <= N * L) by nia. lia.
  - assert (0 <= N * L) by nia. lia.
  - symmetry. exact Hq.
  - cbn [pcm_format bitDepth numberOfChannels]. change (16 / 8) with 2. nia.
  - eexists _, r'. split; [exact Hrun |]. cbn [info_length channelData].
    split; [reflexivity |]. split; [exact Hlen |].
    apply (rows_of_cells cd' (Z.to_nat N)); [exact Hlen |].
    intros c j. rewrite Hcell. cbn [pcm_format numberOfChannels].
    destruct (decide _) as [H | H]; split; intros H';
      [exact H | eauto | destruct H' as [? [=]] | contradiction].
Qed.

Lemma sample_at_in (read : M float) (w : Z) (dv : list byte) (p : Z) :
  sampler read w -> in_bounds dv p w = true ->
  sample_at read dv p = Ok (sample_val read dv p).
Proof.
  intros [_ Hs] Hin.
  specialize (Hs {| dataView := dv; pos := p; visited := [] |}).
  cbn [dataView pos] in Hs. rewrite Hin in Hs.
  destruct Hs as (v & _ & Hv). unfold sample_val. rewrite Hv. reflexivity.
Qed.

Lemma of_Z_inj (a b : Z) : JS.of_Z a = JS.of_Z b -> a = b.
Proof. unfold JS.of_Z, inject_Z. intros [= H]. exact H. Qed.

Lemma createReader_monotone (buffer : list byte) : monotone (createReader buffer).
Proof. exact I. Qed.

(* ===================================================================== *)
(** * Calls on the store *)
(* ===================================================================== *)

Lemma bind_lift {A B} (m : M A) (k : A -> Store.MS B) (w : Store.World) (r : Reader) :
  Store.bind (Store.lift m) k (w, r) =
  match m r with
  | (Ok a, r') => k a (w, r')
  | (Throw e, r') => (Throw e, (w, r'))
  | (Diverge, r') => (Diverge, (w, r'))
  end.
Proof.
  unfold Store.bind, Store.lift. cbn [fst snd].
  destruct (m r) as [[a | e |] r']; reflexivity.
Qed.

Lemma get_property_formats (formatId : Z) :
  Store.get_property Store.module_formats formatId = formats formatId.
Proof.
  unfold Store.module_formats, formats. cbn [Store.get_property].
  rewrite (Z.eqb_sym 1 formatId), (Z.eqb_sym 3 formatId).
  destruct (formatId =? 1); [reflexivity |].
  destruct (formatId =? 3); reflexivity.
Qed.

(** With the [formats] object as the module set it up, [decodeFormat] on
    the store is [decodeFormat], and leaves the world as it was. *)
Lemma decodeFormat_store (chunkSize : Z) (w : Store.World) (r r' : Reader)
  (res : Res (Format + Exn)) :
  Store.formats_object w = Store.module_formats ->
  decodeFormat chunkSize r = (res, r') ->
  Store.decodeFormat chunkSize (w, r) = (res, (w, r')).
Proof.
  intros Hw. unfold Store.decodeFormat, decodeFormat, bind.
  rewrite bind_lift.
  destruct (uint16 r) as [[id | e |] r1]; try (intros [= <- <-]; reflexivity).
  unfold Store.bind at 1, Store.read_formats. cbn [fst].
  rewrite Hw, get_property_formats.
  destruct (formats id); [| intros [= <- <-]; reflexivity].
  rewrite bind_lift.
  destruct (uint16 r1) as [[n | e |] r2]; try (intros [= <- <-]; reflexivity).
  rewrite bind_lift.
  destruct (uint32 r2) as [[rate | e |] r3]; try (intros [= <- <-]; reflexivity).
  rewrite bind_lift.
  destruct (uint32 r3) as [[brate | e |] r4]; try (intros [= <- <-]; reflexivity).
  rewrite bind_lift.
  destruct (uint16 r4) as [[bsize | e |] r5]; try (intros [= <- <-]; reflexivity).
  rewrite bind_lift.
  destruct (uint16 r5) as [[depth | e |] r6]; intros [= <- <-]; reflexivity.
Qed.

Lemma alter_lookup {A} (f : A -> A) (l : list A) (i : nat) (a : A) :
  l !! i = Some a -> alter f i l = <[i := f a]> l.
Proof.
  intros Ha. apply list_eq. intros j.
  destruct (decide (i = j)) as [<- | Hne].
  - rewrite list_lookup_alter_eq, Ha.
    rewrite list_lookup_insert_eq by (eapply lookup_lt_Some; eauto). reflexivity.
  - rewrite list_lookup_alter_ne, list_lookup_insert_ne by assumption. reflexivity.
Qed.

Lemma set_arrays_twice (w : Store.World) (h h' : list (list float)) :
  Store.set_arrays (Store.set_arrays w h) h' = Store.set_arrays w h'.
Proof. reflexivity. Qed.

(** A store through the reference of channel [ch] is the store into row
    [ch] of the arrays the call added. *)
Lemma store_store (w : Store.World) (h0 cd : list (list float)) (r : Reader)
  (ch i : Z) (v : float) :
  Store.store (seq (length h0) (length cd)) ch i v (Store.set_arrays w (h0 ++ cd), r) =
  match store cd ch i v with
  | None => (Throw UndefinedChannel, (Store.set_arrays w (h0 ++ cd), r))
  | Some cd' => (Ok tt, (Store.set_arrays w (h0 ++ cd'), r))
  end.
Proof.
  unfold Store.store, store. cbn [fst snd Store.arrays Store.set_arrays].
  destruct (cd !! Z.to_nat ch) as [a|] eqn:Ha.
  - rewrite lookup_seq_lt by (eapply lookup_lt_Some; eauto).
    rewrite alter_app_r. rewrite (alter_lookup _ _ _ _ Ha). reflexivity.
  - rewrite lookup_seq_ge by (apply lookup_ge_None; exact Ha). reflexivity.
Qed.

Lemma tracks_done (w : Store.World) (h0 cd : list (list float)) (r : Reader) :
  tracks w h0 (length cd) (Ok tt, (Store.set_arrays w (h0 ++ cd), r)) (Ok cd, r).
Proof. split; [reflexivity |]. exists cd. repeat split; reflexivity. Qed.

Lemma tracks_stop (w : Store.World) (h0 cd : list (list float)) (r : Reader)
  (res : Res unit) (res' : Res (list (list float))) :
  match res' with
  | Ok _ => False
  | Throw e => res = Throw e
  | Diverge => res = Diverge
  end ->
  tracks w h0 (length cd) (res, (Store.set_arrays w (h0 ++ cd), r)) (res', r).
Proof.
  intros H. split; [reflexivity |]. exists cd.
  split; [reflexivity |]. split; [reflexivity |].
  cbn [fst]. destruct res'; [contradiction | exact H | exact H].
Qed.

Lemma channel_loop_store (read : M float) (w : Store.World) (h0 : list (list float)) :
  forall (k : nat) (ch i : Z) (cd : list (list float)) (r : Reader),
    tracks w h0 (length cd)
      (Store.channel_loop read k ch i (seq (length h0) (length cd))
         (Store.set_arrays w (h0 ++ cd), r))
      (channel_loop read k ch i cd r).
Proof.
  induction k as [|k IH]; intros ch i cd r.
  - apply tracks_done.
  - cbn [Store.channel_loop channel_loop]. rewrite bind_lift. unfold bind.
    destruct (read r) as [[v | e |] r1];
      [| apply tracks_stop; reflexivity | apply tracks_stop; reflexivity].
    unfold Store.bind at 1. rewrite store_store.
    destruct (store cd ch i v) as [cd'|] eqn:Hst.
    + rewrite <- (store_length _ _ _ _ _ Hst). apply IH.
    + apply tracks_stop. reflexivity.
Qed.

Lemma frame_loop_store (read : M float) (w : Store.World) (h0 : list (list float))
  (numberOfChannels : Z) (len : JS.jsnum) :
  forall (fuel : nat) (i : Z) (cd : list (list float)) (r : Reader),
    tracks w h0 (length cd)
      (Store.frame_loop fuel read numberOfChannels i len (seq (length h0) (length cd))
         (Store.set_arrays w (h0 ++ cd), r))
      (frame_loop fuel read numberOfChannels i len cd r).
Proof.
  induction fuel as [|fuel IH]; intros i cd r.
  - apply tracks_stop. reflexivity.
  - cbn [Store.frame_loop frame_loop].
    destruct (JS.ltb i len); [| apply tracks_done].
    unfold Store.bind, bind.
    destruct (channel_loop_store read w h0 (Z.to_nat numberOfChannels) 0 i cd r)
      as (Hr & cd1 & Hw & Hlen & Hres).
    destruct (Store.channel_loop _ _ _ _ _ _) as [res_s [w1 r1]].
    destruct (channel_loop _ _ _ _ _ _) as [res r1'].
    cbn [fst snd] in *. subst r1' w1.
    destruct res as [cd' | e |].
    + destruct Hres as [-> ->]. rewrite <- Hlen. apply IH.
    + subst res_s. rewrite <- Hlen. apply tracks_stop. reflexivity.
    + subst res_s. rewrite <- Hlen. apply tracks_stop. reflexivity.
Qed.

Lemma alloc_loop_S (k : nat) (len : JS.jsnum) (refs : list nat) (s : Store.State) :
  Store.alloc_loop (S k) len refs s =
  match new_Float32Array len with
  | None => (Throw InvalidArrayLength, s)
  | Some a =>
      Store.alloc_loop k len (refs ++ [length (Store.arrays (fst s))])
        (Store.set_arrays (fst s) (Store.arrays (fst s) ++ [a]), snd s)
  end.
Proof.
  cbn [Store.alloc_loop]. unfold Store.bind, Store.new_array.
  destruct (new_Float32Array len); reflexivity.
Qed.

Lemma alloc_loop_store (w : Store.World) (h0 : list (list float)) (len : JS.jsnum) :
  forall (k : nat) (cd : list (list float)) (r : Reader),
    allocates w h0
      (Store.alloc_loop k len (seq (length h0) (length cd))
         (Store.set_arrays w (h0 ++ cd), r))
      (alloc_loop k len cd r).
Proof.
  induction k as [|k IH]; intros cd r.
  - split; [reflexivity |]. exists cd. repeat split; reflexivity.
  - rewrite alloc_loop_S. cbn [alloc_loop].
    destruct (new_Float32Array len) as [a|].
    + cbn [fst snd Store.arrays Store.set_arrays].
      rewrite set_arrays_twice, <- app_assoc.
      replace (seq (length h0) (length cd) ++ [length (h0 ++ cd)])
        with (seq (length h0) (length (cd ++ [a]))).
      * apply IH.
      * rewrite !length_app. cbn [length]. rewrite Nat.add_1_r, seq_S. reflexivity.
    + split; [reflexivity |]. exists cd. repeat split; reflexivity.
Qed.

Lemma readPCM_store (w : Store.World) (h0 : list (list float)) (fuel : nat)
  (len : JS.jsnum) (format : Format) (opts : DecodeOptions)
  (cd : list (list float)) (r : Reader) :
  let out_s := Store.readPCM fuel (seq (length h0) (length cd)) len format opts
                 (Store.set_arrays w (h0 ++ cd), r) in
  let out := readPCM fuel cd len format opts r in
  snd (snd out_s) = snd out /\
  exists cd1, fst (snd out_s) = Store.set_arrays w (h0 ++ cd1) /\
    length cd1 = length cd /\
    match fst out with
    | Ok (cd', retVal) => cd' = cd1 /\ fst out_s = Ok retVal
    | Throw e => fst out_s = Throw e
    | Diverge => fst out_s = Diverge
    end.
Proof.
  unfold Store.readPCM, readPCM.
  destruct (reader_method (methodName format opts)) as [read|].
  - unfold Store.bind, bind.
    destruct (frame_loop_store read w h0 (numberOfChannels format) len fuel 0 cd r)
      as (Hr & cd1 & Hw & Hlen & Hres).
    destruct (Store.frame_loop _ _ _ _ _ _ _) as [res_s [w1 r1]].
    destruct (frame_loop _ _ _ _ _ _ _) as [res r1'].
    cbn [fst snd] in *. subst r1' w1.
    destruct res as [cd' | e |].
    + destruct Hres as [-> ->]. cbn. split; [reflexivity |]. exists cd1. auto.
    + subst res_s. cbn. split; [reflexivity |]. exists cd1. auto.
    + subst res_s. cbn. split; [reflexivity |]. exists cd1. auto.
  - cbn. split; [reflexivity |]. exists cd. auto.
Qed.

Lemma set_arrays_same (w : Store.World) : Store.set_arrays w (Store.arrays w) = w.
Proof. destruct w. reflexivity. Qed.

Lemma set_arrays_nil (w : Store.World) :
  Store.set_arrays w (Store.arrays w ++ []) = w.
Proof. rewrite app_nil_r. apply set_arrays_same. Qed.

(** The data branch of the loop on the store follows the data branch: the
    arrays it adds to the world are the rows of the result, and the result
    refers to them in order. *)
Lemma decodeData_store (fuel : nat) (chunkSize : Z) (format : option Format)
  (opts : DecodeOptions) (w : Store.World) (r : Reader) :
  refines w (Store.arrays w)
    (Store.bind (Store.decodeData fuel chunkSize format opts)
       (fun audioData =>
          match audioData with
          | inr e => Store.throw e
          | inl audioData => Store.ret audioData
          end) (w, r))
    (bind (decodeData fuel chunkSize format opts)
       (fun audioData =>
          match audioData with
          | inr e => throw e
          | inl audioData => ret audioData
          end) r).
Proof.
  unfold Store.decodeData, decodeData.
  unfold Store.bind, bind, Store.lift, remain. cbn [fst snd].
  destruct format as [format|].
  - set (len := frame_length _ format).
    pose proof (alloc_loop_store w (Store.arrays w) len
                  (Z.to_nat (numberOfChannels format)) [] r) as Halloc.
    rewrite set_arrays_nil in Halloc. cbn [length seq] in Halloc.
    destruct Halloc as (Hr & cd & Hw & Hres).
    destruct (Store.alloc_loop _ _ _ _) as [res_s [w1 r1]].
    destruct (alloc_loop _ _ _ _) as [res r1'].
    cbn [fst snd] in *. subst r1' w1.
    destruct res as [cd' | e |].
    + destruct Hres as [-> ->].
      pose proof (readPCM_store w (Store.arrays w) fuel len format opts cd r1)
        as (Hr' & cd1 & Hw1 & Hlen & Hres).
      destruct (Store.readPCM _ _ _ _ _ _) as [res_s [w2 r2]].
      destruct (readPCM _ _ _ _ _ _) as [res r2'].
      cbn [fst snd] in *. subst r2' w2.
      destruct res as [[cd' retVal] | e |].
      * destruct Hres as [-> ->].
        destruct retVal as [e|]; (split; [reflexivity |]); exists cd1;
          cbn; rewrite ?Hlen; repeat split; reflexivity.
      * subst res_s. split; [reflexivity |]. exists cd1. repeat split; reflexivity.
      * subst res_s. split; [reflexivity |]. exists cd1. repeat split; reflexivity.
    + subst res_s. split; [reflexivity |]. exists cd. repeat split; reflexivity.
    + subst res_s. split; [reflexivity |]. exists cd. repeat split; reflexivity.
  - split; [reflexivity |]. exists []. cbn. rewrite set_arrays_nil.
    repeat split; reflexivity.
Qed.

(** The chunk loop on the store follows the chunk loop, in a world whose
    [formats] object is the module's. *)
Lemma chunk_loop_store (opts : DecodeOptions) (w : Store.World) :
  Store.formats_object w = Store.module_formats ->
  forall (fuel : nat) (format : option Format) (r : Reader),
    refines w (Store.arrays w)
      (Store.chunk_loop fuel opts format (w, r)) (chunk_loop fuel opts format r).
Proof.
  intros Hw.
  assert (Hstop : forall (res_s : Res Store.DecodeInfo) (res : Res DecodeInfo) r,
             match res with
             | Ok _ => False
             | Throw e => res_s = Throw e
             | Diverge => res_s = Diverge
             end ->
             refines w (Store.arrays w) (res_s, (w, r)) (res, r)).
  { intros res_s res r H. split; [reflexivity |]. exists [].
    rewrite set_arrays_nil. split; [reflexivity |].
    cbn [fst]. destruct res; [contradiction | exact H | exact H]. }
  induction fuel as [|fuel IH]; intros format r.
  - apply Hstop. reflexivity.
  - cbn [Store.chunk_loop chunk_loop]. rewrite bind_lift. unfold bind at 1.
    destruct (string_ 4 r) as [[chunkType | e |] r1];
      [| apply Hstop; reflexivity | apply Hstop; reflexivity].
    rewrite bind_lift. unfold bind at 1.
    destruct (uint32 r1) as [[chunkSize | e |] r2];
      [| apply Hstop; reflexivity | apply Hstop; reflexivity].
    destruct (chunkType =? "fmt ")%string.
    + unfold Store.bind at 1. unfold bind at 1.
      destruct (decodeFormat chunkSize r2) as [res r3] eqn:E.
      rewrite (decodeFormat_store chunkSize w r2 r3 res Hw E).
      destruct res as [[f | e] | e |];
        [apply IH | apply Hstop; reflexivity | apply Hstop; reflexivity
         | apply Hstop; reflexivity].
    + destruct (chunkType =? "data")%string.
      * apply decodeData_store.
      * rewrite bind_lift. unfold bind at 1. apply IH.
Qed.

(** One call on the store, on the bytes of an [ArrayBuffer]. *)
Lemma decodeSync_store (fuel : nat) (bytes : list byte)
  (opts : option DecodeOptions) (w : Store.World) :
  Store.formats_object w = Store.module_formats ->
  exists new,
    snd (Store.decodeSync fuel (Store.ArrayBuffer bytes) opts w)
    = Store.set_arrays w (Store.arrays w ++ new) /\
    match decodeSync fuel bytes opts with
    | Ok info =>
        new = channelData info /\
        fst (Store.decodeSync fuel (Store.ArrayBuffer bytes) opts w)
        = Store.Returns
            {| Store.ref_numberOfChannels := info_numberOfChannels info;
               Store.ref_length := info_length info;
               Store.ref_sampleRate := info_sampleRate info;
               Store.ref_channelData :=
                 seq (length (Store.arrays w)) (length new) |}
    | Throw e =>
        fst (Store.decodeSync fuel (Store.ArrayBuffer bytes) opts w) = Store.Throws e
    | Diverge =>
        fst (Store.decodeSync fuel (Store.ArrayBuffer bytes) opts w) = Store.Unfinished
    end.
Proof.
  intros Hw. unfold Store.decodeSync, decodeSync, decodeSync_run, decodeSync_body.
  cbn [Store.instanceof_Buffer]. rewrite andb_false_r.
  rewrite bind_lift. unfold bind.
  destruct (check_header (createReader bytes)) as [[[] | e |] r].
  - destruct (chunk_loop_store (default_opts opts) w Hw fuel None r)
      as (Hr & new & Hw1 & Hres).
    destruct (Store.chunk_loop _ _ _ _) as [res_s [w1 r1]].
    destruct (chunk_loop _ _ _ _) as [res r1'].
    cbn [fst snd] in *. subst r1' w1. exists new.
    destruct res as [info | e |].
    + destruct Hres as [-> ->]. repeat split; reflexivity.
    + subst res_s. repeat split; reflexivity.
    + subst res_s. repeat split; reflexivity.
  - exists []. rewrite set_arrays_nil. repeat split; reflexivity.
  - exists []. rewrite set_arrays_nil. repeat split; reflexivity.
Qed.

(** What [decodeSync] makes of its argument: a Node [Buffer] is decoded as
    the [ArrayBuffer] of its elements where [global.Buffer] is set, and is
    refused by [new DataView] where it is not. *)
Lemma decodeSync_argument (fuel : nat) (buffer : Store.BufferArg)
  (opts : option DecodeOptions) (w : Store.World) :
  (exists bytes,
     Store.decodeSync fuel buffer opts w
     = Store.decodeSync fuel (Store.ArrayBuffer bytes) opts w /\
     (buffer = Store.ArrayBuffer bytes \/
      buffer = Store.NodeBuffer bytes /\ Store.global_Buffer w = true)) \/
  (Store.decodeSync fuel buffer opts w = (Store.ThrowsNotArrayBuffer, w) /\
   Store.global_Buffer w = false /\ exists elements, buffer = Store.NodeBuffer elements).
Proof.
  destruct buffer as [bytes | elements].
  - left. exists bytes. auto.
  - destruct (Store.global_Buffer w) eqn:Hb.
    + left. exists elements. split; [| auto].
      unfold Store.decodeSync. rewrite Hb. reflexivity.
    + right. unfold Store.decodeSync. rewrite Hb. cbn [andb]. eauto.
Qed.

(** Without a store: two runs that end, on options that agree on whether
    symmetric is set, have one outcome. *)
Lemma decodeSync_same (fuel1 fuel2 : nat) (buffer : list byte)
  (o1 o2 : option DecodeOptions) :
  truthy (symmetric (default_opts o1)) = truthy (symmetric (default_opts o2)) ->
  decodeSync fuel1 buffer o1 <> Diverge ->
  decodeSync fuel2 buffer o2 <> Diverge ->
  decodeSync fuel1 buffer o1 = decodeSync fuel2 buffer o2.
Proof.
  intros Hmode H1 H2.
  assert (Hsame : forall fuel, decodeSync fuel buffer o1 = decodeSync fuel buffer o2).
  { intros fuel. unfold decodeSync, decodeSync_run, decodeSync_body. f_equal.
    unfold bind.
    destruct (check_header (createReader buffer)) as [[[] | e |] r];
      [| reflexivity | reflexivity].
    apply chunk_loop_mode. exact Hmode. }
  rewrite <- (decodeSync_more fuel1 (Nat.max fuel1 fuel2) buffer o1) by (lia || exact H1).
  rewrite <- (decodeSync_more fuel2 (Nat.max fuel1 fuel2) buffer o2) by (lia || exact H2).
  apply Hsame.
Qed.

(** The arrays a call added, read back through their addresses. *)
Lemma added_arrays (before cd after : list (list float)) :
  map (fun address => (before ++ cd ++ after) !!! address)
      (seq (length before) (length cd)) = cd.
Proof.
  apply list_eq. intros j. rewrite list_lookup_fmap.
  destruct (cd !! j) as [a|] eqn:Ha.
  - rewrite lookup_seq_lt by (eapply lookup_lt_Some; eauto). cbn [fmap option_fmap option_map].
    f_equal. apply list_lookup_total_correct.
    rewrite lookup_app_r by lia.
    replace (length before + j - length before)%nat with j by lia.
    apply lookup_app_l_Some. exact Ha.
  - rewrite lookup_seq_ge by (apply lookup_ge_None; exact Ha). reflexivity.
Qed.

(** One call of [decodeSync] on the store, whatever the argument: the world
    it leaves is the world it found with the arrays it allocated added at
    the end; and either the argument is decoded as the bytes it holds, with
    the outcome of the run without a store, or it is a Node [Buffer] in a
    world without [global.Buffer], and [new DataView] refuses it. *)
Lemma decodeSync_call (fuel : nat) (buffer : Store.BufferArg)
  (opts : option DecodeOptions) (w w' : Store.World)
  (out : Store.Outcome Store.DecodeInfo) :
  Store.formats_object w = Store.module_formats ->
  Store.decodeSync fuel buffer opts w = (out, w') ->
  exists new,
    w' = Store.set_arrays w (Store.arrays w ++ new) /\
    ((exists bytes,
        (buffer = Store.ArrayBuffer bytes \/
         buffer = Store.NodeBuffer bytes /\ Store.global_Buffer w = true) /\
        match decodeSync fuel bytes opts with
        | Ok info =>
            new = channelData info /\
            out = Store.Returns
                    {| Store.ref_numberOfChannels := info_numberOfChannels info;
                       Store.ref_length := info_length info;
                       Store.ref_sampleRate := info_sampleRate info;
                       Store.ref_channelData :=
                         seq (length (Store.arrays w)) (length new) |}
        | Throw e => out = Store.Throws e
        | Diverge => out = Store.Unfinished
        end) \/
     (Store.global_Buffer w = false /\ (exists elements, buffer = Store.NodeBuffer elements) /\
      out = Store.ThrowsNotArrayBuffer /\ new = [])).
Proof.
  intros Hw Hrun.
  destruct (decodeSync_argument fuel buffer opts w)
    as [(bytes & Heq & Harg) | (Heq & Hb & Hnode)].
  - rewrite Heq in Hrun.
    destruct (decodeSync_store fuel bytes opts w Hw) as (new & Hw' & Hres).
    rewrite Hrun in Hw', Hres. cbn [fst snd] in Hw', Hres.
    exists new. split; [exact Hw' |]. left. exists bytes. split; [exact Harg | exact Hres].
  - rewrite Heq in Hrun. injection Hrun as <- <-.
    exists []. rewrite set_arrays_nil. split; [reflexivity |]. right. auto.
Qed.

(* ===================================================================== *)
(** * The claims *)
(* ===================================================================== *)

(** C1 (the code departs from the claim). [stereo16] is a valid minimal WAV
    file with N = 2 channels and L = 2 complete 16-bit frames (a data body of
    N * L * 2 = 8 bytes, blockSize = 4). [decodeSync] returns two arrays, but
    each has length 1, not 2: the frame count floor (8 / 4 / 2) divides by
    the channel count a second time. *)
Theorem C1_stereo_frames_divided_twice :
  byteLength (map byte_of_Z [1; 0; 2; 0; 3; 0; 4; 0]) = 2 * 2 * 2 /\
  exists info,
    decodeSync 10 stereo16 None = Ok info /\
    info_numberOfChannels info = 2 /\
    info_length info = JS.of_Z 1 /\
    map length (channelData info) = [1%nat; 1%nat].
Proof.
  split; [reflexivity |].
  eexists. split; [vm_compute; reflexivity |].
  repeat split.
Qed.

(** C2 (the code departs from the claim). The 24-bit value is sign-extended
    only when it exceeds 0x800000, so the most negative input 00 00 80
    (0x800000 itself) stays positive: [pcm24] returns 8388608 / 8388607,
    stored as 1 + 2^-23, a value above +1.0 and not -1.0. The input FF FF 7F
    decodes to exactly 1.0, and the 16-bit and 32-bit readers map their most
    negative input to exactly -1.0. *)
Theorem C2_pcm24_most_negative_input :
  assemble24 0x00 0x00 0x80 = 8388608 /\
  sample_at pcm24 [x00; x00; x80] 0 = Ok (8388608 / 8388607)%float /\
  JS.fround (8388608 / 8388607) = 0x1.000002p+0%float /\
  (1 <? 8388608 / 8388607)%float = true /\
  sample_at pcm24 [xff; xff; x7f] 0 = Ok 1%float /\
  sample_at pcm16 [x00; x80] 0 = Ok (-1)%float /\
  sample_at pcm32 [x00; x00; x00; x80] 0 = Ok (-1)%float /\
  option_map channelData
    (match decodeSync 10 mono24 None with Ok info => Some info | _ => None end)
  = Some [[1%float; 0x1.000002p+0%float]].
Proof. repeat split; vm_compute; reflexivity. Qed.







(** C5. When the loop of [decodeSync] stands at a chunk header whose tag is
    'fmt ' and the 2-byte formatId that follows is neither 1 nor 3, the call
    throws the unsupported-format error carrying that id. The reader is left
    right after the formatId, 10 bytes past the start of the chunk header:
    nothing more of the fmt body is consumed and no later chunk is read. The
    outcome is the error alone, with no audio data. *)
Theorem C5_unsupported_format_fails_at_once (fuel : nat) (opts : DecodeOptions)
  (format : option Format) (r r1 r2 r3 : Reader) (chunkSize id : Z) :
  string_ 4 r = (Ok "fmt "%string, r1) ->
  uint32 r1 = (Ok chunkSize, r2) ->
  uint16 r2 = (Ok id, r3) ->
  id <> 1 -> id <> 3 ->
  chunk_loop (S fuel) opts format r = (Throw (UnsupportedFormat id), r3) /\
  pos r3 = pos r + 10 /\
  dataView r3 = dataView r.
Proof.
  intros E1 E2 E3 H1 H3. split.
  - cbn [chunk_loop]. unfold bind at 1. rewrite E1.
    unfold bind at 1. rewrite E2. rewrite String.eqb_refl.
    unfold bind at 1. unfold decodeFormat. unfold bind at 1. rewrite E3.
    unfold formats.
    destruct (Z.eqb_spec id 1); [contradiction |].
    destruct (Z.eqb_spec id 3); [contradiction |].
    reflexivity.
  - apply string_pos in E1 as [Hp1 Hd1].
    apply uint32_seek in E2. apply uint16_seek in E3. subst r2 r3.
    cbn [seek pos dataView]. split; [lia | exact Hd1].
Qed.

Lemma C5_unsupported_format_fails_at_once_witness :
  decodeSync 10 adpcm None = Throw (UnsupportedFormat 2) /\
  pos (snd (decodeSync_run 10 adpcm None)) = 12 + 10.
Proof.
  pose (r := snd (check_header (createReader adpcm))).
  pose (r1 := snd (string_ 4 r)).
  pose (r2 := snd (uint32 r1)).
  pose (r3 := snd (uint16 r2)).
  destruct (C5_unsupported_format_fails_at_once 9 {| symmetric := None |} None
              r r1 r2 r3 16 2) as (Hrun & Hpos & _).
  - vm_compute. reflexivity.
  - vm_compute. reflexivity.
  - vm_compute. reflexivity.
  - discriminate.
  - discriminate.
  - assert (Hhead : check_header (createReader adpcm) = (Ok tt, r))
      by (vm_compute; reflexivity).
    unfold decodeSync, decodeSync_run, decodeSync_body, default_opts.
    unfold bind. rewrite Hhead, Hrun. cbn [fst snd].
    split; [reflexivity |]. rewrite Hpos. vm_compute. reflexivity.
Defined.

(** C6. For every supported combination of bit depth, floating-point flag
    and symmetric option, the data decoder takes the samples from the cursor
    in frame-interleaved order: with the data starting at offset [pos r], a
    sample width of bitDepth / 8 bytes and N channels, the sample stored at
    channelData[ch][i] is the one the reader method returns at offset
    pos r + (i * N + ch) * width, for every frame i below the frame count and
    every channel ch below N; the cursor ends after the last of them. *)
Theorem C6_frames_interleaved (fuel : nat) (chunkSize : Z) (format : Format)
  (opts : DecodeOptions) (read : M float) (r : Reader) (L : Z) :
  reader_method (methodName format opts) = Some read ->
  1 <= numberOfChannels format -> 1 <= blockSize format ->
  0 <= pos r <= byteLength (dataView r) ->
  0 <= chunkSize < 2 ^ 32 ->
  frame_length (Z.min chunkSize (byteLength (dataView r) - pos r)) format
    = JS.of_Z L ->
  pos r + L * numberOfChannels format * (bitDepth format / 8)
    <= byteLength (dataView r) ->
  (Z.to_nat L < fuel)%nat ->
  exists info r',
    decodeData fuel chunkSize (Some format) opts r = (Ok (inl info), r') /\
    info_length info = JS.of_Z L /\
    length (channelData info) = Z.to_nat (numberOfChannels format) /\
    pos r' = pos r + L * numberOfChannels format * (bitDepth format / 8) /\
    forall i ch,
      0 <= i < L -> 0 <= ch < numberOfChannels format ->
      exists v,
        sample_at read (dataView r)
          (pos r + (i * numberOfChannels format + ch) * (bitDepth format / 8))
          = Ok v /\
        cell (channelData info) (Z.to_nat ch) (Z.to_nat i) = Some (JS.fround v).
Proof.
  intros Hm HN Hb Hpos Hsize Hlen Hin Hfuel.
  rewrite dispatch_table in Hm.
  pose proof (table_sampler _ _ _ _ Hm) as Hs. pose proof Hs as [Hw _].
  rewrite frame_length_fin in Hlen by lia. apply of_Z_inj in Hlen.
  destruct (decodeData_ok fuel chunkSize format opts read r L)
    as (cd' & r' & Hrun & _ & Hp & Hl & Hcell); try assumption; try lia.
  eexists _, r'. split; [exact Hrun |]. cbn [info_length channelData].
  split; [reflexivity |]. split; [exact Hl |]. split; [exact Hp |].
  intros i ch Hi Hch.
  exists (sample_val read (dataView r)
            (pos r + (i * numberOfChannels format + ch) * (bitDepth format / 8))).
  split.
  - apply (sample_at_in read (bitDepth format / 8)); [exact Hs |].
    set (N := numberOfChannels format) in *. set (w := bitDepth format / 8) in *.
    assert (H1 : i * N + ch + 1 <= L * N) by nia.
    assert (H2 : (i * N + ch + 1) * w <= L * N * w)
      by (apply Z.mul_le_mono_nonneg_r; lia).
    assert (H3 : 0 <= (i * N + ch) * w) by nia.
    unfold in_bounds. apply andb_true_iff. split; apply Z.leb_le; lia.
  - rewrite Hcell. destruct (decide _) as [_ | Hno]; [| lia].
    rewrite !Z2Nat.id by lia. reflexivity.
Qed.

Lemma C6_frames_interleaved_witness :
  exists info r',
    decodeData 10 8 (Some (pcm_format 2 44100 16)) {| symmetric := None |}
      {| dataView := stereo16; pos := 44; visited := [] |} = (Ok (inl info), r') /\
    cell (channelData info) 0 0 = Some (JS.fround (1 / 32767)%float) /\
    cell (channelData info) 1 0 = Some (JS.fround (2 / 32767)%float).
Proof.
  destruct (C6_frames_interleaved 10 8 (pcm_format 2 44100 16)
              {| symmetric := None |} pcm16
              {| dataView := stereo16; pos := 44; visited := [] |} 1)
    as (info & r' & Hrun & _ & _ & _ & Hcell).
  - reflexivity.
  - vm_compute. discriminate.
  - vm_compute. discriminate.
  - vm_compute. split; discriminate.
  - vm_compute. split; [discriminate | reflexivity].
  - vm_compute. reflexivity.
  - vm_compute. discriminate.
  - vm_compute. lia.
  - exists info, r'. split; [exact Hrun |]. split.
    + destruct (Hcell 0 0) as (v & Hv & Hc); [lia | vm_compute; split; [discriminate | reflexivity] |].
      vm_compute in Hv. injection Hv as <-. exact Hc.
    + destruct (Hcell 0 1) as (v & Hv & Hc); [lia | vm_compute; split; [discriminate | reflexivity] |].
      vm_compute in Hv. injection Hv as <-. exact Hc.
Defined.

(** C7. A chunk whose tag is neither 'fmt ' nor 'data' is skipped by its
    declared size and nothing else, and the walk goes on with the header
    that follows. The next turn of the loop starts 8 + chunkSize bytes after
    the start of the chunk header, with the same format and the same buffer,
    whatever the parity of chunkSize and whatever the body holds. What the
    call then does is decided by the eight bytes found there: when they are
    the header of a data chunk, the outcome of the loop is the outcome of
    [decodeData] on that chunk, 16 + chunkSize bytes after the start of the
    skipped header and under the format in force before it; when they are
    the header of a fmt chunk that [decodeFormat] refuses, the loop throws
    that error. *)
Theorem C7_unknown_chunk_skipped (fuel : nat) (opts : DecodeOptions)
  (format : option Format) (r r1 r2 : Reader) (chunkType : string) (chunkSize : Z) :
  string_ 4 r = (Ok chunkType, r1) ->
  uint32 r1 = (Ok chunkSize, r2) ->
  chunkType <> "fmt "%string -> chunkType <> "data"%string ->
  let next := seek r2 chunkSize in
  chunk_loop (S fuel) opts format r = chunk_loop fuel opts format next /\
  pos next = pos r + 8 + chunkSize /\
  dataView next = dataView r /\
  (forall (size : Z) (r3 r4 : Reader),
     string_ 4 next = (Ok "data"%string, r3) ->
     uint32 r3 = (Ok size, r4) ->
     pos r4 = pos r + 8 + chunkSize + 8 /\
     dataView r4 = dataView r /\
     chunk_loop (S (S fuel)) opts format r =
       match decodeData fuel size format opts r4 with
       | (Ok (inl audioData), r') => (Ok audioData, r')
       | (Ok (inr e), r') => (Throw e, r')
       | (Throw e, r') => (Throw e, r')
       | (Diverge, r') => (Diverge, r')
       end) /\
  (forall (size : Z) (r3 r4 r5 : Reader) (e : Exn),
     string_ 4 next = (Ok "fmt "%string, r3) ->
     uint32 r3 = (Ok size, r4) ->
     decodeFormat size r4 = (Ok (inr e), r5) ->
     chunk_loop (S (S fuel)) opts format r = (Throw e, r5)).
Proof.
  intros E1 E2 Hfmt Hdata next.
  assert (Hstep : forall n,
             chunk_loop (S n) opts format r = chunk_loop n opts format next).
  { intros n. cbn [chunk_loop]. unfold bind at 1. rewrite E1.
    unfold bind at 1. rewrite E2.
    destruct (String.eqb_spec chunkType "fmt "); [contradiction |].
    destruct (String.eqb_spec chunkType "data"); [contradiction |].
    reflexivity. }
  assert (Hnext : pos next = pos r + 8 + chunkSize /\ dataView next = dataView r).
  { apply string_pos in E1 as [Hp1 Hd1]. apply uint32_seek in E2.
    subst next r2. cbn [seek pos dataView]. split; [lia | exact Hd1]. }
  destruct Hnext as [Hpos Hview].
  split; [apply Hstep |]. split; [exact Hpos |]. split; [exact Hview |]. split.
  - intros size r3 r4 E3 E4. rewrite Hstep.
    cbn [chunk_loop]. unfold bind at 1. rewrite E3. unfold bind at 1. rewrite E4.
    apply string_pos in E3 as [Hp3 Hd3]. apply uint32_seek in E4. subst r4.
    cbn [seek pos dataView]. split; [lia |]. split; [congruence |].
    change (("data" =? "fmt ")%string) with false.
    change (("data" =? "data")%string) with true. cbv iota.
    unfold bind.
    destruct (decodeData fuel size format opts (seek r3 4)) as [[[a | e] | e |] r'];
      reflexivity.
  - intros size r3 r4 r5 e E3 E4 E5. rewrite Hstep.
    cbn [chunk_loop]. unfold bind at 1. rewrite E3. unfold bind at 1. rewrite E4.
    change (("fmt " =? "fmt ")%string) with true. cbv iota.
    unfold bind. rewrite E5. reflexivity.
Qed.

Lemma C7_unknown_chunk_skipped_witness :
  let opts := {| symmetric := None |} in
  let format := Some (pcm_format 1 8000 16) in
  let r := {| dataView := junk; pos := 36; visited := [] |} in
  let r4 := {| dataView := junk; pos := 55; visited := [51; 50; 49; 48; 47; 44; 40; 39; 38; 37; 36] |} in
  chunk_loop 4 opts format r =
    chunk_loop 3 opts format
      {| dataView := junk; pos := 47; visited := [44; 40; 39; 38; 37; 36] |} /\
  chunk_loop 5 opts format r =
    match decodeData 3 4 format opts r4 with
    | (Ok (inl audioData), r') => (Ok audioData, r')
    | (Ok (inr e), r') => (Throw e, r')
    | (Throw e, r') => (Throw e, r')
    | (Diverge, r') => (Diverge, r')
    end /\
  fst (chunk_loop 5 opts format r) =
    Ok {| info_numberOfChannels := 1; info_length := JS.of_Z 2;
          info_sampleRate := 8000;
          channelData := [[JS.fround (1 / 32767); JS.fround (2 / 32767)]] |}.
Proof.
  intros opts format r r4.
  pose (r1 := snd (string_ 4 r)).
  pose (next := seek (seek r1 4) 3).
  pose (r3 := snd (string_ 4 next)).
  destruct (C7_unknown_chunk_skipped 3 opts format r r1 (seek r1 4) "JUNK" 3)
    as (Hstep & _ & _ & Hdata & _).
  - vm_compute. reflexivity.
  - vm_compute. reflexivity.
  - discriminate.
  - discriminate.
  - destruct (Hdata 4 r3 r4) as (_ & _ & Hrun).
    + vm_compute. reflexivity.
    + vm_compute. reflexivity.
    + split; [exact Hstep |].
      split; [exact Hrun |]. rewrite Hrun. vm_compute. reflexivity.
Defined.

(** C8. When every fmt chunk that [decodeSync] decodes on a buffer declares
    formatId 3, the options have no effect: any two option values, among
    them symmetric = true and symmetric = false, give the same outcome (the
    same sample rate and the same samples, or the same error) and the same
    final reader. *)
Theorem C8_symmetric_ignored_for_float (fuel : nat) (buffer : list byte)
  (o1 o2 : option DecodeOptions) :
  Forall (fun c => formatId (snd c) = 3) (decoded_formats fuel buffer) ->
  decodeSync_run fuel buffer o1 = decodeSync_run fuel buffer o2.
Proof.
  unfold decoded_formats, decodeSync_run, decodeSync_body. intros Hall.
  unfold bind.
  destruct (check_header (createReader buffer)) as [[[] | e |] r];
    [| reflexivity | reflexivity].
  apply chunk_loop_float; [discriminate | exact Hall].
Qed.

Lemma C8_symmetric_ignored_for_float_witness :
  Forall (fun c => formatId (snd c) = 3) (decoded_formats 10 float32_wav) /\
  decodeSync 10 float32_wav symmetric_on = decodeSync 10 float32_wav symmetric_off /\
  option_map channelData
    (match decodeSync 10 float32_wav symmetric_on with
     | Ok info => Some info
     | _ => None
     end) = Some [[1%float; (-2.5)%float]].
Proof.
  assert (H : Forall (fun c => formatId (snd c) = 3) (decoded_formats 10 float32_wav)).
  { vm_compute. repeat constructor. }
  split; [exact H |]. split.
  - unfold decodeSync.
    rewrite (C8_symmetric_ignored_for_float 10 float32_wav symmetric_on symmetric_off H).
    reflexivity.
  - vm_compute. reflexivity.
Defined.

(** C9. With at least one channel and a block size of at least one byte, the
    frame count of a data chunk is a finite natural number, and the decode of
    the chunk ends, with a result or an error, on any fuel above it. With no
    channel and a positive clamped chunk size, the frame count is +Infinity,
    the sample loop of [readPCM] never ends, whatever reader method it runs,
    and [decodeData] does not return when the bit depth is a supported
    one. *)
Theorem C9_data_decode_termination :
  (forall (format : Format) (chunkSize : Z) (opts : DecodeOptions) (r : Reader),
      1 <= numberOfChannels format -> 1 <= blockSize format ->
      0 <= chunkSize < 2 ^ 32 -> pos r <= byteLength (dataView r) ->
      exists L,
        0 <= L /\
        frame_length (Z.min chunkSize (byteLength (dataView r) - pos r)) format
          = JS.of_Z L /\
        forall fuel, (Z.to_nat L < fuel)%nat ->
          fst (decodeData fuel chunkSize (Some format) opts r) <> Diverge) /\
  (forall (format : Format) (chunkSize : Z) (opts : DecodeOptions) (r : Reader),
      numberOfChannels format = 0 -> 0 <= blockSize format ->
      0 < Z.min chunkSize (byteLength (dataView r) - pos r) ->
      frame_length (Z.min chunkSize (byteLength (dataView r) - pos r)) format
        = JS.PInf /\
      (forall fuel read i cd r',
          fst (frame_loop fuel read (numberOfChannels format) i JS.PInf cd r')
          = Diverge) /\
      (forall read, reader_method (methodName format opts) = Some read ->
         forall fuel,
           fst (decodeData fuel chunkSize (Some format) opts r) = Diverge)).
Proof.
  split.
  - intros format chunkSize opts r HN Hb Hsize Hpos.
    exists (Z.min chunkSize (byteLength (dataView r) - pos r)
            / (blockSize format * numberOfChannels format)).
    split; [apply Z.div_pos; nia |].
    split; [apply frame_length_fin; lia |].
    intros fuel Hfuel. apply decodeData_ends; [assumption | assumption | lia | exact Hfuel].
  - intros format chunkSize opts r HN Hb Hc. split; [| split].
    + apply frame_length_no_channel; assumption.
    + intros fuel read i cd r'. rewrite HN. apply frame_loop_forever.
    + intros read Hm fuel. rewrite dispatch_table in Hm.
      eapply decodeData_forever; eauto.
Qed.

Lemma C9_data_decode_termination_witness :
  (exists L,
     0 <= L /\
     frame_length (Z.min 8 (byteLength stereo16 - 44)) (pcm_format 2 44100 16)
       = JS.of_Z L /\
     forall fuel, (Z.to_nat L < fuel)%nat ->
       fst (decodeData fuel 8 (Some (pcm_format 2 44100 16)) {| symmetric := None |}
              {| dataView := stereo16; pos := 44; visited := [] |}) <> Diverge) /\
  (forall fuel,
     fst (decodeData fuel 4 (Some no_channel) {| symmetric := None |}
            {| dataView := minimal_wav no_channel (map byte_of_Z [1; 0; 2; 0]);
               pos := 44; visited := [] |}) = Diverge).
Proof.
  split.
  - refine (proj1 C9_data_decode_termination (pcm_format 2 44100 16) 8
              {| symmetric := None |}
              {| dataView := stereo16; pos := 44; visited := [] |} _ _ _ _).
    + vm_compute. discriminate.
    + vm_compute. discriminate.
    + vm_compute. split; [discriminate | reflexivity].
    + vm_compute. discriminate.
  - refine (proj2 (proj2 (proj2 C9_data_decode_termination no_channel 4
                     {| symmetric := None |}
                     {| dataView := minimal_wav no_channel (map byte_of_Z [1; 0; 2; 0]);
                        pos := 44; visited := [] |} _ _ _)) pcm16 _).
    + reflexivity.
    + vm_compute. discriminate.
    + vm_compute. reflexivity.
    + reflexivity.
Defined.

(** C10. Two calls of [decodeSync] with the same arguments, the second in
    the world the first one left, end the same way: they fail with the same
    error, or they return structurally identical audio data (the same
    sample rate, the same number of channel arrays, the same samples), read
    in the world after both calls. The outcome is decided by the bytes of
    the buffer and by whether the symmetric option is set: the two calls may
    differ in fuel and in how the option is left unset. Nothing is shared
    between the calls: the second call allocates arrays of its own and
    leaves those of the first as they were, and no call changes the
    module's [formats] object or [global.Buffer]. On an [ArrayBuffer] the
    outcome is that of [decodeSync] without a store. *)
Theorem C10_decodeSync_deterministic (fuel1 fuel2 : nat) (buffer : Store.BufferArg)
  (o1 o2 : option DecodeOptions) (w0 w1 w2 : Store.World)
  (out1 out2 : Store.Outcome Store.DecodeInfo) :
  Store.formats_object w0 = Store.module_formats ->
  truthy (symmetric (default_opts o1)) = truthy (symmetric (default_opts o2)) ->
  Store.decodeSync fuel1 buffer o1 w0 = (out1, w1) ->
  Store.decodeSync fuel2 buffer o2 w1 = (out2, w2) ->
  out1 <> Store.Unfinished -> out2 <> Store.Unfinished ->
  observe w2 out1 = observe w2 out2 /\
  observe w2 out1 = observe w1 out1 /\
  (forall bytes, buffer = Store.ArrayBuffer bytes ->
     observe w1 out1 = outcome_of (decodeSync fuel1 bytes o1)) /\
  (forall a1 a2, out1 = Store.Returns a1 -> out2 = Store.Returns a2 ->
     NoDup (Store.ref_channelData a1 ++ Store.ref_channelData a2) /\
     Forall (fun address =>
               (length (Store.arrays w0) <= address < length (Store.arrays w2))%nat)
            (Store.ref_channelData a1 ++ Store.ref_channelData a2)) /\
  Store.formats_object w2 = Store.module_formats /\
  Store.global_Buffer w2 = Store.global_Buffer w0 /\
  exists added, Store.arrays w2 = Store.arrays w0 ++ added.
Proof.
  intros Hw Hmode Hrun1 Hrun2 Hend1 Hend2.
  destruct (decodeSync_call _ _ _ _ _ _ Hw Hrun1) as (new1 & -> & Hcall1).
  assert (Hw1 : Store.formats_object
                  (Store.set_arrays w0 (Store.arrays w0 ++ new1))
                = Store.module_formats) by exact Hw.
  destruct (decodeSync_call _ _ _ _ _ _ Hw1 Hrun2) as (new2 & -> & Hcall2).
  cbn [Store.set_arrays Store.arrays Store.formats_object Store.global_Buffer]
    in Hcall2 |- *.
  set (h0 := Store.arrays w0) in *.
  assert (Hworld : Store.formats_object w0 = Store.module_formats /\
                   Store.global_Buffer w0 = Store.global_Buffer w0 /\
                   exists added, (h0 ++ new1) ++ new2 = h0 ++ added).
  { split; [exact Hw |]. split; [reflexivity |].
    exists (new1 ++ new2). symmetry. apply app_assoc. }
  destruct Hcall1 as [(bytes & Harg1 & Hres1) | (Hb1 & Hnode1 & -> & ->)];
    destruct Hcall2 as [(bytes' & Harg2 & Hres2) | (Hb2 & Hnode2 & -> & ->)].
  - assert (bytes' = bytes) as ->
        by (destruct Harg1 as [-> | [-> _]], Harg2 as [H | [H _]]; congruence).
    assert (H1 : decodeSync fuel1 bytes o1 <> Diverge)
      by (intros H; rewrite H in Hres1; contradiction).
    assert (H2 : decodeSync fuel2 bytes o2 <> Diverge)
      by (intros H; rewrite H in Hres2; contradiction).
    rewrite <- (decodeSync_same fuel1 fuel2 bytes o1 o2 Hmode H1 H2) in Hres2.
    destruct (decodeSync fuel1 bytes o1) as [info | e |] eqn:Hpure;
      [| | contradiction].
    + destruct Hres1 as [-> ->]. destruct Hres2 as [-> ->].
      set (cd := channelData info) in *.
      assert (Hfirst : contents (Store.set_arrays w0 ((h0 ++ cd) ++ cd))
                         {| Store.ref_numberOfChannels := info_numberOfChannels info;
                            Store.ref_length := info_length info;
                            Store.ref_sampleRate := info_sampleRate info;
                            Store.ref_channelData := seq (length h0) (length cd) |}
                       = info).
      { unfold contents. cbn [Store.ref_numberOfChannels Store.ref_length
                                Store.ref_sampleRate Store.ref_channelData
                                Store.set_arrays Store.arrays].
        rewrite <- app_assoc, added_arrays. destruct info; reflexivity. }
      assert (Hsecond : contents (Store.set_arrays w0 ((h0 ++ cd) ++ cd))
                          {| Store.ref_numberOfChannels := info_numberOfChannels info;
                             Store.ref_length := info_length info;
                             Store.ref_sampleRate := info_sampleRate info;
                             Store.ref_channelData :=
                               seq (length (h0 ++ cd)) (length cd) |}
                        = info).
      { unfold contents. cbn [Store.ref_numberOfChannels Store.ref_length
                                Store.ref_sampleRate Store.ref_channelData
                                Store.set_arrays Store.arrays].
        rewrite <- (app_nil_r ((h0 ++ cd) ++ cd)), <- (app_assoc (h0 ++ cd)).
        rewrite added_arrays. destruct info; reflexivity. }
      assert (Halone : contents (Store.set_arrays w0 (h0 ++ cd))
                         {| Store.ref_numberOfChannels := info_numberOfChannels info;
                            Store.ref_length := info_length info;
                            Store.ref_sampleRate := info_sampleRate info;
                            Store.ref_channelData := seq (length h0) (length cd) |}
                       = info).
      { unfold contents. cbn [Store.ref_numberOfChannels Store.ref_length
                                Store.ref_sampleRate Store.ref_channelData
                                Store.set_arrays Store.arrays].
        rewrite <- (app_nil_r (h0 ++ cd)), <- app_assoc.
        rewrite added_arrays. destruct info; reflexivity. }
      cbn [observe]. rewrite !set_arrays_twice, Hfirst, Hsecond, Halone.
      split; [reflexivity |]. split; [reflexivity |]. split.
      { intros b ->. destruct Harg1 as [[= ->] | [[=] _]]. rewrite Hpure. reflexivity. }
      split; [| exact Hworld].
      intros a1 a2 [= <-] [= <-]. cbn [Store.ref_channelData].
      rewrite length_app, <- seq_app. split; [apply NoDup_seq |].
      apply Forall_seq. intros j Hj. rewrite !length_app. lia.
    + subst out1 out2. cbn [observe].
      split; [reflexivity |]. split; [reflexivity |]. split.
      { intros b ->. destruct Harg1 as [[= ->] | [[=] _]]. rewrite Hpure. reflexivity. }
      split; [| exact Hworld]. intros a1 a2 [=].
  - exfalso. destruct Hnode2 as [elements ->].
    destruct Harg1 as [[=] | [_ Hb]]. congruence.
  - exfalso. destruct Hnode1 as [elements ->].
    destruct Harg2 as [[=] | [_ Hb]]. congruence.
  - cbn [observe]. split; [reflexivity |]. split; [reflexivity |]. split.
    { intros b ->. destruct Hnode1 as [elements [=]]. }
    split; [| exact Hworld]. intros a1 a2 [=].
Qed.

Lemma C10_decodeSync_deterministic_witness :
  let w0 := {| Store.formats_object := Store.module_formats;
               Store.global_Buffer := true;
               Store.arrays := [] |} in
  let call1 := Store.decodeSync 10 (Store.NodeBuffer stereo16) None w0 in
  let call2 := Store.decodeSync 20 (Store.NodeBuffer stereo16) symmetric_off (snd call1) in
  observe (snd call2) (fst call1) = observe (snd call2) (fst call2) /\
  (exists a1 a2,
     fst call1 = Store.Returns a1 /\ fst call2 = Store.Returns a2 /\
     Store.ref_channelData a1 = [0; 1]%nat /\
     Store.ref_channelData a2 = [2; 3]%nat) /\
  length (Store.arrays (snd call2)) = 4%nat.
Proof.
  intros w0 call1 call2.
  destruct (C10_decodeSync_deterministic 10 20 (Store.NodeBuffer stereo16)
              None symmetric_off w0 (snd call1) (snd call2) (fst call1) (fst call2))
    as (Hsame & _).
  - reflexivity.
  - reflexivity.
  - apply surjective_pairing.
  - apply surjective_pairing.
  - vm_compute. discriminate.
  - vm_compute. discriminate.
  - split; [exact Hsame |]. split.
    + eexists _, _. vm_compute. repeat split; reflexivity.
    + vm_compute. reflexivity.
Defined.

(* ===================================================================== *)
(** * Integer reads *)
(* ===================================================================== *)

Lemma byte_val_range (b : byte) : 0 <= byte_val b < 256.
Proof.
  unfold byte_val. pose proof (Byte.to_N_bounded b). lia.
Qed.

Lemma le_uint_bound (bs : list Z) :
  Forall (fun b => 0 <= b < 256) bs ->
  0 <= le_uint bs < 256 ^ Z.of_nat (length bs).
Proof.
  induction 1 as [|b bs Hb _ IH]; [cbn; lia |].
  cbn [le_uint length]. rewrite Nat2Z.inj_succ, Z.pow_succ_r by lia. lia.
Qed.

Lemma byte_vals_range (l : list byte) :
  Forall (fun b => 0 <= b < 256) (map byte_val l).
Proof.
  induction l as [|b l IH]; cbn [map]; constructor;
    [apply byte_val_range | exact IH].
Qed.

Lemma get_bytes_length (dv : list byte) (p : Z) (n : nat) (bs : list Z) :
  get_bytes dv p n = Some bs ->
  length bs = n /\ Forall (fun b => 0 <= b < 256) bs /\
  in_bounds dv p (Z.of_nat n) = true.
Proof.
  unfold get_bytes. fold (in_bounds dv p (Z.of_nat n)).
  destruct (in_bounds dv p (Z.of_nat n)) eqn:Hin; [| discriminate].
  intros [= <-]. split; [| split; [apply byte_vals_range | reflexivity]].
  unfold in_bounds, byteLength in Hin.
  apply andb_true_iff in Hin as [H1 H2]. apply Z.leb_le in H1, H2.
  rewrite length_map, length_take, length_drop. lia.
Qed.

Lemma signed_range (bits u : Z) :
  0 < bits -> 0 <= u < 2 ^ bits ->
  - 2 ^ (bits - 1) <= signed bits u < 2 ^ (bits - 1).
Proof.
  intros Hb Hu. unfold signed.
  assert (Hp : 2 ^ bits = 2 * 2 ^ (bits - 1)).
  { rewrite <- Z.pow_succ_r by lia. f_equal. lia. }
  destruct (Z.ltb_spec u (2 ^ (bits - 1))); lia.
Qed.

Ltac int_read n w :=
  intros r;
  unfold uint8, int16, uint16, uint32, bind, view, advance, ret,
    getUint8, getInt16, getUint16, getUint32;
  rewrite Z.add_0_r;
  destruct (get_bytes (dataView r) (pos r) n) as [bs|] eqn:Hget;
  [ apply get_bytes_length in Hget as (Hlen & Hrange & Hin);
    change (in_bounds (dataView r) (pos r) w = true) in Hin; rewrite Hin;
    cbn [option_map]; eexists; split; [reflexivity |];
    pose proof (le_uint_bound bs Hrange) as Hb; rewrite Hlen in Hb
  | unfold get_bytes in Hget;
    change ((0 <=? pos r) && (pos r + Z.of_nat n <=? byteLength (dataView r)))
      with (in_bounds (dataView r) (pos r) w) in Hget;
    destruct (in_bounds (dataView r) (pos r) w); [discriminate | reflexivity] ].

Lemma uint8_reader : int_reader uint8 1 0 (2 ^ 8).
Proof. int_read 1%nat 1. exact Hb. Qed.

Lemma int16_reader : int_reader int16 2 (- 2 ^ 15) (2 ^ 15).
Proof. int_read 2%nat 2. apply (signed_range 16); [lia | exact Hb]. Qed.

Lemma uint16_reader : int_reader uint16 2 0 (2 ^ 16).
Proof. int_read 2%nat 2. exact Hb. Qed.

Lemma uint32_reader : int_reader uint32 4 0 (2 ^ 32).
Proof. int_read 4%nat 4. exact Hb. Qed.

Lemma int_reader_ok (read : M Z) (w lo hi : Z) (r r' : Reader) (v : Z) :
  int_reader read w lo hi -> read r = (Ok v, r') ->
  r' = seek r w /\ lo <= v < hi /\ in_bounds (dataView r) (pos r) w = true.
Proof.
  intros Hread Hrun. specialize (Hread r).
  destruct (in_bounds (dataView r) (pos r) w).
  - destruct Hread as (v' & E & Hv). rewrite E in Hrun.
    injection Hrun as <- <-. auto.
  - rewrite Hread in Hrun. discriminate.
Qed.

Lemma int_reader_fails (read : M Z) (w lo hi : Z) (r : Reader) :
  int_reader read w lo hi -> in_bounds (dataView r) (pos r) w = false ->
  read r = (Throw OutOfBounds, r).
Proof. intros Hread Hin. specialize (Hread r). rewrite Hin in Hread. exact Hread. Qed.

Lemma uint16_value (r r' : Reader) (v : Z) :
  uint16 r = (Ok v, r') -> getUint16 (dataView r) (pos r) = Some v.
Proof.
  unfold uint16, bind, view, advance, ret. rewrite Z.add_0_r.
  destruct (getUint16 _ _); [| discriminate]. intros [= <- _]. reflexivity.
Qed.

Lemma uint32_value (r r' : Reader) (v : Z) :
  uint32 r = (Ok v, r') -> getUint32 (dataView r) (pos r) = Some v.
Proof.
  unfold uint32, bind, view, advance, ret. rewrite Z.add_0_r.
  destruct (getUint32 _ _); [| discriminate]. intros [= <- _]. reflexivity.
Qed.

(** X1. The integer readers return a value of their type's range and
    advance the cursor by the type's width when the bytes lie inside the
    buffer; otherwise they throw the range error and leave the cursor where
    it was. *)
Theorem X1_integer_readers :
  int_reader uint8 1 0 (2 ^ 8) /\
  int_reader int16 2 (- 2 ^ 15) (2 ^ 15) /\
  int_reader uint16 2 0 (2 ^ 16) /\
  int_reader uint32 4 0 (2 ^ 32).
Proof.
  exact (conj uint8_reader (conj int16_reader (conj uint16_reader uint32_reader))).
Qed.

(* ===================================================================== *)
(** * decodeFormat *)
(* ===================================================================== *)

Lemma decodeFormat_fields (chunkSize : Z) (r r' : Reader) (f : Format) :
  decodeFormat chunkSize r = (Ok (inl f), r') ->
  exists r1 r2 r3 r4 r5 r6,
    uint16 r = (Ok (formatId f), r1) /\
    uint16 r1 = (Ok (numberOfChannels f), r2) /\
    uint32 r2 = (Ok (sampleRate f), r3) /\
    uint32 r3 = (Ok (byteRate f), r4) /\
    uint16 r4 = (Ok (blockSize f), r5) /\
    uint16 r5 = (Ok (bitDepth f), r6) /\
    r' = seek r6 (chunkSize - 16) /\
    formats (formatId f) <> None /\
    floatingPoint f = (formatId f =? 3).
Proof.
  unfold decodeFormat, bind.
  destruct (uint16 r) as [[id | e |] r1] eqn:E1; try discriminate.
  destruct (formats id) eqn:Hf; [| discriminate].
  destruct (uint16 r1) as [[n | e |] r2] eqn:E2; try discriminate.
  destruct (uint32 r2) as [[rate | e |] r3] eqn:E3; try discriminate.
  destruct (uint32 r3) as [[brate | e |] r4] eqn:E4; try discriminate.
  destruct (uint16 r4) as [[bsize | e |] r5] eqn:E5; try discriminate.
  destruct (uint16 r5) as [[depth | e |] r6] eqn:E6; try discriminate.
  unfold skip, advance, ret. intros [= <- <-]. cbn.
  exists r1, r2, r3, r4, r5, r6. rewrite Hf. repeat split; try assumption.
  discriminate.
Qed.

Lemma formats_supported (id : Z) : formats id <> None <-> id = 1 \/ id = 3.
Proof.
  unfold formats.
  destruct (Z.eqb_spec id 1); [intuition discriminate |].
  destruct (Z.eqb_spec id 3); [intuition discriminate |].
  intuition lia.
Qed.

(** X2. When [decodeFormat] returns a format, its six fields are the
    little-endian fields at offsets 0, 2, 4, 8, 12 and 14 of the chunk body,
    each within the range of its width; formatId is 1 or 3 and
    floatingPoint says whether it is 3; the 16 bytes of the body lie inside
    the buffer; and the cursor ends exactly chunkSize bytes after the start
    of the body. *)
Theorem X2_decodeFormat_returns (chunkSize : Z) (r r' : Reader) (f : Format) :
  decodeFormat chunkSize r = (Ok (inl f), r') ->
  let dv := dataView r in
  let p := pos r in
  getUint16 dv p = Some (formatId f) /\
  getUint16 dv (p + 2) = Some (numberOfChannels f) /\
  getUint32 dv (p + 4) = Some (sampleRate f) /\
  getUint32 dv (p + 8) = Some (byteRate f) /\
  getUint16 dv (p + 12) = Some (blockSize f) /\
  getUint16 dv (p + 14) = Some (bitDepth f) /\
  (formatId f = 1 \/ formatId f = 3) /\
  floatingPoint f = (formatId f =? 3) /\
  0 <= numberOfChannels f < 2 ^ 16 /\
  0 <= sampleRate f < 2 ^ 32 /\
  0 <= byteRate f < 2 ^ 32 /\
  0 <= blockSize f < 2 ^ 16 /\
  0 <= bitDepth f < 2 ^ 16 /\
  0 <= p /\ p + 16 <= byteLength dv /\
  pos r' = p + chunkSize /\
  dataView r' = dv.
Proof.
  intros Hrun. cbv zeta.
  apply decodeFormat_fields in Hrun
    as (r1 & r2 & r3 & r4 & r5 & r6 & E1 & E2 & E3 & E4 & E5 & E6 & -> & Hid & Hfp).
  pose proof (uint16_value _ _ _ E1) as V1.
  pose proof (uint16_value _ _ _ E2) as V2.
  pose proof (uint32_value _ _ _ E3) as V3.
  pose proof (uint32_value _ _ _ E4) as V4.
  pose proof (uint16_value _ _ _ E5) as V5.
  pose proof (uint16_value _ _ _ E6) as V6.
  apply (int_reader_ok _ _ _ _ _ _ _ uint16_reader) in E1 as (-> & B1 & I1).
  apply (int_reader_ok _ _ _ _ _ _ _ uint16_reader) in E2 as (-> & B2 & I2).
  apply (int_reader_ok _ _ _ _ _ _ _ uint32_reader) in E3 as (-> & B3 & I3).
  apply (int_reader_ok _ _ _ _ _ _ _ uint32_reader) in E4 as (-> & B4 & I4).
  apply (int_reader_ok _ _ _ _ _ _ _ uint16_reader) in E5 as (-> & B5 & I5).
  apply (int_reader_ok _ _ _ _ _ _ _ uint16_reader) in E6 as (-> & B6 & I6).
  cbn [seek pos dataView] in *.
  unfold in_bounds in I1, I6.
  apply andb_true_iff in I1 as [I1 _]. apply Z.leb_le in I1.
  apply andb_true_iff in I6 as [_ I6]. apply Z.leb_le in I6.
  repeat split; try assumption; try lia;
    try match goal with
        | H : ?g ?d ?q' = Some ?v |- ?g ?d ?q = Some ?v =>
            replace q with q' by lia; exact H
        end.
  apply formats_supported. exact Hid.
Qed.

Lemma X2_decodeFormat_returns_witness :
  let r := {| dataView := stereo16; pos := 20; visited := [] |} in
  exists r',
    decodeFormat 16 r = (Ok (inl (pcm_format 2 44100 16)), r') /\
    getUint16 stereo16 34 = Some 16 /\
    pos r' = 36.
Proof.
  intros r.
  assert (Hrun : decodeFormat 16 r =
                 (Ok (inl (pcm_format 2 44100 16)), snd (decodeFormat 16 r)))
    by (vm_compute; reflexivity).
  exists (snd (decodeFormat 16 r)). split; [exact Hrun |].
  pose proof (X2_decodeFormat_returns 16 r _ _ Hrun) as H. cbv zeta in H.
  destruct H as (_ & _ & _ & _ & _ & H14 & _ & _ & _ & _ & _ & _ & _ & _ & _ & Hp & _).
  split; [exact H14 | exact Hp].
Defined.

(* ===================================================================== *)
(** * What a successful decode returns *)
(* ===================================================================== *)

Lemma store_lengths (cd cd' : list (list float)) (ch i : Z) (v : float) :
  store cd ch i v = Some cd' -> map length cd' = map length cd.
Proof.
  unfold store. destruct (cd !! Z.to_nat ch) as [a|] eqn:Ha; [| discriminate].
  intros [= <-].
  change (map length) with (fmap (M := list) (@length float)).
  rewrite list_fmap_insert, length_insert.
  apply list_insert_id. rewrite list_lookup_fmap, Ha. reflexivity.
Qed.

Section ReadRuns.

(** Runs of the loops of [readPCM] that end well, whatever the buffer
    holds. *)
Variable read : M float.
Variable w : Z.
Hypothesis read_sampler : sampler read w.

Lemma sampler_ok (r r' : Reader) (v : float) :
  read r = (Ok v, r') ->
  r' = seek r w /\ in_bounds (dataView r) (pos r) w = true.
Proof.
  intros Hrun. destruct read_sampler as [_ Hs]. specialize (Hs r).
  destruct (in_bounds (dataView r) (pos r) w).
  - destruct Hs as (v' & E & _). rewrite E in Hrun. injection Hrun as _ <-. auto.
  - rewrite Hs in Hrun. discriminate.
Qed.

Lemma channel_loop_returns :
  forall (k : nat) (ch i : Z) (cd cd' : list (list float)) (r r' : Reader),
    channel_loop read k ch i cd r = (Ok cd', r') ->
    map length cd' = map length cd /\
    dataView r' = dataView r /\
    pos r' = pos r + Z.of_nat k * w /\
    (k <> 0%nat -> 0 <= pos r /\ pos r' <= byteLength (dataView r)).
Proof.
  pose proof (proj1 read_sampler) as Hw.
  induction k as [|k IH]; intros ch i cd cd' r r'; cbn [channel_loop].
  - intros [= <- <-]. repeat split; lia.
  - unfold bind. destruct (read r) as [[v | e |] r1] eqn:E; try discriminate.
    apply sampler_ok in E as [-> Hin].
    destruct (store cd ch i v) as [cd1|] eqn:Hst; [| discriminate].
    intros Hrun. apply IH in Hrun as (Hlen & Hdv & Hpos & Hin').
    cbn [seek pos dataView] in *.
    unfold in_bounds in Hin. apply andb_true_iff in Hin as [H1 H2].
    apply Z.leb_le in H1, H2.
    split; [rewrite Hlen; eapply store_lengths; eauto |].
    split; [exact Hdv |]. split; [lia |]. intros _.
    split; [exact H1 |].
    destruct k as [|k]; [lia |]. apply Hin'. discriminate.
Qed.

Lemma frame_loop_returns (N : Z) (length_ : JS.jsnum) :
  forall (fuel : nat) (i : Z) (cd cd' : list (list float)) (r r' : Reader),
    frame_loop fuel read N i length_ cd r = (Ok cd', r') ->
    map length cd' = map length cd /\
    dataView r' = dataView r /\
    pos r <= pos r' /\
    (0 <= pos r <= byteLength (dataView r) ->
     0 <= pos r' <= byteLength (dataView r)).
Proof.
  pose proof (proj1 read_sampler) as Hw.
  induction fuel as [|fuel IH]; intros i cd cd' r r'; cbn [frame_loop];
    [discriminate |].
  destruct (JS.ltb i length_).
  - unfold bind.
    destruct (channel_loop read (Z.to_nat N) 0 i cd r) as [[cd1 | e |] r1] eqn:E;
      try discriminate.
    apply channel_loop_returns in E as (Hlen1 & Hdv1 & Hpos1 & Hin1).
    intros Hrun. pose proof (IH _ _ _ _ _ Hrun) as (Hlen & Hdv & Hpos & Hin).
    split; [congruence |]. split; [congruence |].
    split; [nia |]. intros Hr. rewrite Hdv1 in Hin. apply Hin.
    destruct (Nat.eq_dec (Z.to_nat N) 0%nat) as [H0 | H0].
    + rewrite H0 in Hpos1. lia.
    + specialize (Hin1 H0). lia.
  - intros [= <- <-]. repeat split; try lia; tauto.
Qed.

End ReadRuns.

Lemma alloc_loop_returns (k : nat) (length_ : JS.jsnum) :
  forall (cd cd' : list (list float)) (r r' : Reader),
    alloc_loop k length_ cd r = (Ok cd', r') ->
    r' = r /\
    exists rows,
      cd' = cd ++ rows /\ length rows = k /\
      Forall (fun a => new_Float32Array length_ = Some a) rows.
Proof.
  induction k as [|k IH]; intros cd cd' r r'; cbn [alloc_loop].
  - intros [= <- <-]. split; [reflexivity |]. exists [].
    rewrite app_nil_r. repeat split. constructor.
  - destruct (new_Float32Array length_) as [a|] eqn:Ha; [| discriminate].
    intros Hrun. apply IH in Hrun as (-> & rows & -> & Hlen & Hall).
    split; [reflexivity |]. exists (a :: rows).
    rewrite <- app_assoc. repeat split; [cbn; lia |].
    constructor; [reflexivity | exact Hall].
Qed.

Lemma decodeFormat_dataView (chunkSize : Z) (r r' : Reader) (f : Format) :
  decodeFormat chunkSize r = (Ok (inl f), r') -> dataView r' = dataView r.
Proof.
  intros Hrun.
  apply decodeFormat_fields in Hrun
    as (r1 & r2 & r3 & r4 & r5 & r6 & E1 & E2 & E3 & E4 & E5 & E6 & -> & _).
  apply uint16_seek in E1, E2, E5, E6. apply uint32_seek in E3, E4.
  subst. reflexivity.
Qed.

(** The format and the arrays behind a result of [decodeData]. *)
Lemma decodeData_returns (fuel : nat) (chunkSize : Z) (format : option Format)
  (opts : DecodeOptions) (r r' : Reader) (info : DecodeInfo) :
  decodeData fuel chunkSize format opts r = (Ok (inl info), r') ->
  exists f,
    format = Some f /\
    info_numberOfChannels info = numberOfChannels f /\
    info_sampleRate info = sampleRate f /\
    info_length info
      = frame_length (Z.min chunkSize (byteLength (dataView r) - pos r)) f /\
    length (channelData info) = Z.to_nat (numberOfChannels f) /\
    Forall (fun a => exists a0, new_Float32Array (info_length info) = Some a0 /\
                                length a = length a0) (channelData info) /\
    dataView r' = dataView r /\
    pos r <= pos r' /\
    (0 <= pos r <= byteLength (dataView r) ->
     0 <= pos r' <= byteLength (dataView r)).
Proof.
  unfold decodeData. unfold bind at 1, remain at 1.
  destruct format as [f|]; [| discriminate].
  unfold bind at 1.
  destruct (alloc_loop _ _ _ r) as [[cd0 | e |] r0] eqn:Ealloc; try discriminate.
  apply alloc_loop_returns in Ealloc as (-> & rows & -> & Hrows & Hall).
  cbn [app]. unfold readPCM. rewrite dispatch_table.
  destruct (decode_table _ _ _) as [read|] eqn:Htab; [| cbn; discriminate].
  unfold bind.
  destruct (frame_loop _ _ _ _ _ _ _) as [[cd' | e |] r1] eqn:Eloop; try discriminate.
  unfold ret. intros [= <- <-].
  apply (frame_loop_returns read _ (table_sampler _ _ _ _ Htab)) in Eloop
    as (Hlen & Hdv & Hpos & Hin).
  exists f. cbn [info_numberOfChannels info_sampleRate info_length channelData].
  repeat split; try assumption; try lia.
  - rewrite <- Hrows, <- (length_map length cd'), Hlen, length_map. reflexivity.
  - apply Forall_forall. intros a Ha.
    apply list_elem_of_lookup in Ha as [j Ha].
    assert (Hj : map length cd' !! j = Some (length a)).
    { change (map length) with (fmap (M := list) (@length float)).
      rewrite list_lookup_fmap, Ha. reflexivity. }
    rewrite Hlen in Hj.
    change (map length) with (fmap (M := list) (@length float)) in Hj.
    rewrite list_lookup_fmap in Hj.
    destruct (rows !! j) as [a0|] eqn:Ha0; [| discriminate].
    injection Hj as Hj.
    exists a0. split; [| congruence].
    eapply Forall_lookup_1 in Hall; eauto.
Qed.

Lemma format_in_force_cons (c : Z * Format) (l : list (Z * Format))
  (format : option Format) :
  match last (c :: l) with Some c' => Some (snd c') | None => format end =
  match last l with Some c' => Some (snd c') | None => Some (snd c) end.
Proof.
  destruct l as [|c' l]; [reflexivity |]. rewrite last_cons_cons.
  destruct (last (c' :: l)) eqn:E; [reflexivity |].
  apply last_None in E. discriminate.
Qed.

Lemma chunk_loop_returns (opts : DecodeOptions) :
  forall (fuel : nat) (format : option Format) (r r' : Reader) (info : DecodeInfo),
    chunk_loop fuel opts format r = (Ok info, r') ->
    exists f,
      format_in_force fuel r format = Some f /\
      info_numberOfChannels info = numberOfChannels f /\
      info_sampleRate info = sampleRate f /\
      length (channelData info) = Z.to_nat (numberOfChannels f) /\
      Forall (fun a => exists a0, new_Float32Array (info_length info) = Some a0 /\
                                  length a = length a0) (channelData info) /\
      dataView r' = dataView r /\
      0 <= pos r' <= byteLength (dataView r).
Proof.
  induction fuel as [|fuel IH]; intros format r r' info; [discriminate |].
  unfold format_in_force. cbn [chunk_loop fmt_chunks]. unfold bind at 1.
  destruct (string_ 4 r) as [[chunkType | e |] r1] eqn:E1; try discriminate.
  unfold bind at 1.
  destruct (uint32 r1) as [[chunkSize | e |] r2] eqn:E2; try discriminate.
  pose proof (string_pos _ _ _ _ E1) as [Hp1 Hd1].
  pose proof (int_reader_ok _ _ _ _ _ _ _ uint32_reader E2) as (-> & Hsize & Hin2).
  destruct (chunkType =? "fmt ")%string.
  - unfold bind.
    destruct (decodeFormat chunkSize (seek r1 4)) as [[[f0 | e] | e |] r3] eqn:E3;
      try discriminate.
    intros Hrun. apply IH in Hrun as (f & Hf & Hrest).
    unfold format_in_force in Hf. rewrite format_in_force_cons.
    exists f. split.
    + cbn [snd]. destruct (last (fmt_chunks fuel r3)); exact Hf.
    + pose proof (decodeFormat_dataView _ _ _ _ E3) as Hd3.
      cbn [seek dataView] in Hd3. rewrite Hd3, Hd1 in Hrest. exact Hrest.
  - destruct (chunkType =? "data")%string.
    + unfold bind.
      destruct (decodeData fuel chunkSize format opts (seek r1 4))
        as [[[x | e] | e |] r3] eqn:E3; try discriminate.
      intros [= <- <-].
      apply decodeData_returns in E3
        as (f & -> & HN & Hrate & _ & Hlen & Hrows & Hdv & _ & Hin).
      cbn [seek pos dataView] in *.
      unfold in_bounds in Hin2. apply andb_true_iff in Hin2 as [H1 H2].
      apply Z.leb_le in H1, H2.
      assert (Hin' : 0 <= pos r3 <= byteLength (dataView r1)) by (apply Hin; lia).
      rewrite Hd1 in Hin', Hdv.
      exists f. cbn [last]. repeat split; try assumption; try lia.
    + unfold skip, bind, advance. intros Hrun.
      apply IH in Hrun as (f & Hf & Hrest). cbn [seek dataView] in Hrest.
      rewrite Hd1 in Hrest. exists f. split; [exact Hf | exact Hrest].
Qed.

Lemma check_header_ok (r r' : Reader) (u : unit) :
  check_header r = (Ok u, r') ->
  pos r' = pos r + 12 /\ dataView r' = dataView r.
Proof.
  unfold check_header, bind.
  destruct (string_ 4 r) as [[riff | e |] r1] eqn:E1; try discriminate.
  destruct (negb _); [discriminate |].
  destruct (uint32 r1) as [[len | e |] r2] eqn:E2; try discriminate.
  destruct (string_ 4 r2) as [[wave | e |] r3] eqn:E3; try discriminate.
  destruct (negb _); [discriminate |].
  intros [= _ <-].
  apply string_pos in E1 as [P1 D1]. apply uint32_seek in E2. subst r2.
  apply string_pos in E3 as [P3 D3]. cbn [seek pos dataView] in *.
  split; [lia | congruence].
Qed.

Lemma fmt_chunks_bound (fuel : nat) :
  forall r, fmt_chunks fuel r <> [] ->
            pos r + 24 <= byteLength (dataView r).
Proof.
  induction fuel as [|fuel IH]; intros r; cbn [fmt_chunks]; [congruence |].
  destruct (string_ 4 r) as [[chunkType | e |] r1] eqn:E1; try congruence.
  destruct (uint32 r1) as [[chunkSize | e |] r2] eqn:E2; try congruence.
  pose proof (string_pos _ _ _ _ E1) as [Hp1 Hd1].
  pose proof (int_reader_ok _ _ _ _ _ _ _ uint32_reader E2) as (-> & Hsize & Hin2).
  destruct (chunkType =? "fmt ")%string.
  - destruct (decodeFormat chunkSize (seek r1 4)) as [[[f | e] | e |] r3] eqn:E3;
      try congruence.
    intros _.
    apply decodeFormat_fields in E3
      as (q1 & q2 & q3 & q4 & q5 & q6 & F1 & F2 & F3 & F4 & F5 & F6 & _).
    apply (int_reader_ok _ _ _ _ _ _ _ uint16_reader) in F1 as (-> & _ & _).
    apply (int_reader_ok _ _ _ _ _ _ _ uint16_reader) in F2 as (-> & _ & _).
    apply (int_reader_ok _ _ _ _ _ _ _ uint32_reader) in F3 as (-> & _ & _).
    apply (int_reader_ok _ _ _ _ _ _ _ uint32_reader) in F4 as (-> & _ & _).
    apply (int_reader_ok _ _ _ _ _ _ _ uint16_reader) in F5 as (-> & _ & _).
    apply (int_reader_ok _ _ _ _ _ _ _ uint16_reader) in F6 as (_ & _ & I6).
    cbn [seek pos dataView] in I6.
    unfold in_bounds in I6. apply andb_true_iff in I6 as [_ I6].
    apply Z.leb_le in I6. rewrite Hd1 in I6. lia.
  - destruct (chunkType =? "data")%string; [congruence |].
    intros Hne. apply IH in Hne. cbn [seek pos dataView] in Hne.
    rewrite Hd1 in Hne. lia.
Qed.

(** X3. Whenever [decodeSync] returns audio data, [channelData] holds one
    array per channel of the result's numberOfChannels, and every array has
    the length that [new Float32Array(length)] allocates for the result's
    frame count: all the arrays have the same length. *)
Theorem X3_result_arrays (fuel : nat) (buffer : list byte)
  (opts : option DecodeOptions) (info : DecodeInfo) :
  decodeSync fuel buffer opts = Ok info ->
  length (channelData info) = Z.to_nat (info_numberOfChannels info) /\
  Forall (fun a => exists a0, new_Float32Array (info_length info) = Some a0 /\
                              length a = length a0) (channelData info).
Proof.
  unfold decodeSync, decodeSync_run, decodeSync_body, bind.
  destruct (check_header (createReader buffer)) as [[[] | e |] r0]; try discriminate.
  destruct (chunk_loop _ _ _ r0) as [[x | e |] r'] eqn:E; try discriminate.
  cbn [fst]. intros [= ->].
  apply chunk_loop_returns in E as (f & _ & HN & _ & Hlen & Hrows & _).
  split; [congruence | exact Hrows].
Qed.

Lemma X3_result_arrays_witness :
  decodeSync 10 junk None <> Diverge /\
  match decodeSync 10 junk None with
  | Ok info => map length (channelData info) = [2%nat]
  | _ => False
  end.
Proof.
  split; [vm_compute; discriminate |].
  destruct (decodeSync 10 junk None) as [info | e |] eqn:E;
    [| vm_compute in E; discriminate | vm_compute in E; discriminate].
  destruct (X3_result_arrays 10 junk None info E) as [Hlen Hrows].
  assert (Hinfo : info_numberOfChannels info = 1 /\ info_length info = JS.of_Z 2).
  { vm_compute in E. injection E as <-. split; reflexivity. }
  destruct Hinfo as [HN HL]. rewrite HN in Hlen. rewrite HL in Hrows.
  destruct (channelData info) as [|a [|b rest]]; try discriminate.
  apply Forall_cons in Hrows as [(a0 & Ha0 & Ha) _].
  vm_compute in Ha0. injection Ha0 as <-. cbn [map]. rewrite Ha. reflexivity.
Defined.

(** X4. [decodeSync] returns audio data only after it decoded a fmt chunk,
    and the sample rate and the channel count of the result are those of the
    last fmt chunk it decoded: a later fmt chunk replaces an earlier one. *)
Theorem X4_result_format (fuel : nat) (buffer : list byte)
  (opts : option DecodeOptions) (info : DecodeInfo) :
  decodeSync fuel buffer opts = Ok info ->
  exists c,
    last (decoded_formats fuel buffer) = Some c /\
    info_sampleRate info = sampleRate (snd c) /\
    info_numberOfChannels info = numberOfChannels (snd c).
Proof.
  unfold decodeSync, decodeSync_run, decodeSync_body, decoded_formats, bind.
  destruct (check_header (createReader buffer)) as [[[] | e |] r0]; try discriminate.
  destruct (chunk_loop _ _ _ r0) as [[x | e |] r'] eqn:E; try discriminate.
  cbn [fst]. intros [= ->].
  apply chunk_loop_returns in E as (f & Hf & HN & Hrate & _).
  unfold format_in_force in Hf.
  destruct (last (fmt_chunks fuel r0)) as [c|]; [| discriminate].
  injection Hf as <-. exists c. auto.
Qed.

Lemma X4_result_format_witness :
  exists c,
    last (decoded_formats 10 float32_wav) = Some c /\
    sampleRate (snd c) = 8000 /\ numberOfChannels (snd c) = 1.
Proof.
  destruct (decodeSync 10 float32_wav None) as [info | e |] eqn:E;
    [| vm_compute in E; discriminate | vm_compute in E; discriminate].
  destruct (X4_result_format 10 float32_wav None info E) as (c & Hc & Hrate & HN).
  exists c. split; [exact Hc |].
  vm_compute in E. injection E as <-. cbn in Hrate, HN. auto.
Defined.

(** X5. Whenever [decodeSync] returns audio data, the cursor is left inside
    the buffer, and the buffer holds at least 36 bytes: the 12 bytes of the
    header, a chunk header of 8 bytes and the 16 bytes of a fmt body. *)
Theorem X5_result_cursor (fuel : nat) (buffer : list byte)
  (opts : option DecodeOptions) (info : DecodeInfo) (r' : Reader) :
  decodeSync_run fuel buffer opts = (Ok info, r') ->
  dataView r' = buffer /\
  0 <= pos r' <= byteLength buffer /\
  36 <= byteLength buffer.
Proof.
  unfold decodeSync_run, decodeSync_body, bind.
  destruct (check_header (createReader buffer)) as [[[] | e |] r0] eqn:E0;
    try discriminate.
  intros E. apply check_header_ok in E0 as [Hp0 Hd0].
  cbn [createReader pos dataView] in Hp0, Hd0.
  apply chunk_loop_returns in E as (f & Hf & _ & _ & _ & _ & Hdv & Hin).
  rewrite Hd0 in Hdv, Hin. split; [exact Hdv |]. split; [exact Hin |].
  unfold format_in_force in Hf.
  destruct (fmt_chunks fuel r0) as [|c l] eqn:Hl; [discriminate |].
  assert (Hne : fmt_chunks fuel r0 <> []) by (rewrite Hl; discriminate).
  apply fmt_chunks_bound in Hne. rewrite Hd0 in Hne. lia.
Qed.

Lemma X5_result_cursor_witness :
  pos (snd (decodeSync_run 10 junk None)) <= byteLength junk /\
  36 <= byteLength junk.
Proof.
  destruct (decodeSync_run 10 junk None) as [[info | e |] r'] eqn:E;
    [| vm_compute in E; discriminate | vm_compute in E; discriminate].
  destruct (X5_result_cursor 10 junk None info r' E) as (_ & [_ Hpos] & Hlen).
  split; [exact Hpos | exact Hlen].
Defined.

(* ===================================================================== *)
(** * Termination of decodeSync *)
(* ===================================================================== *)

Lemma frame_length_no_block (format : Format) (c : Z) :
  blockSize format = 0 -> 1 <= numberOfChannels format ->
  frame_length c format =
  match c ?= 0 with
  | Gt => JS.PInf
  | Lt => JS.NInf
  | Eq => JS.NaN
  end.
Proof.
  intros Hb HN. unfold frame_length, JS.of_Z. rewrite Hb.
  unfold JS.div at 2. cbn [Z.eqb inject_Z Qnum].
  destruct (c ?= 0); unfold JS.div;
    destruct (Z.eqb_spec (numberOfChannels format) 0); try lia; reflexivity.
Qed.

Lemma ends_bind {A B} (m : M A) (k : A -> M B) :
  ends m -> (forall a, ends (k a)) -> ends (bind m k).
Proof.
  intros Hm Hk r. unfold bind. specialize (Hm r).
  destruct (m r) as [[a | e |] r']; cbn [fst] in *;
    [apply Hk | discriminate | contradiction].
Qed.

Lemma ends_ret {A} (a : A) : ends (ret a).
Proof. intros r. discriminate. Qed.

Lemma ends_throw {A} (e : Exn) : ends (@throw A e).
Proof. intros r. discriminate. Qed.

Lemma ends_int_reader (read : M Z) (w lo hi : Z) : int_reader read w lo hi -> ends read.
Proof.
  intros Hread r. specialize (Hread r).
  destruct (in_bounds _ _ _); [destruct Hread as (v & -> & _) | rewrite Hread];
    discriminate.
Qed.

Lemma ends_string (n : nat) : ends (string_ n).
Proof.
  unfold string_. generalize EmptyString.
  induction n as [|n IH]; intros data; cbn [string_loop]; [apply ends_ret |].
  apply ends_bind; [exact (ends_int_reader _ _ _ _ uint8_reader) | intros c; apply IH].
Qed.

Lemma ends_decodeFormat (chunkSize : Z) : ends (decodeFormat chunkSize).
Proof.
  pose proof (ends_int_reader _ _ _ _ uint16_reader) as H16.
  pose proof (ends_int_reader _ _ _ _ uint32_reader) as H32.
  unfold decodeFormat. apply ends_bind; [exact H16 |]. intros id.
  destruct (formats id); [| apply ends_ret].
  repeat (apply ends_bind; [assumption |]; intros ?).
  apply ends_bind; [| intros ?; apply ends_ret].
  intros r. discriminate.
Qed.

(** The decode of a data chunk ends when its frame loop does. *)
Lemma decodeData_ends_by (fuel : nat) (chunkSize : Z) (f : Format)
  (opts : DecodeOptions) (r : Reader) :
  (forall read cd r1,
      alloc_loop (Z.to_nat (numberOfChannels f))
        (frame_length (Z.min chunkSize (byteLength (dataView r) - pos r)) f) [] r
        = (Ok cd, r1) ->
      fst (frame_loop fuel read (numberOfChannels f) 0
             (frame_length (Z.min chunkSize (byteLength (dataView r) - pos r)) f)
             cd r1) <> Diverge) ->
  fst (decodeData fuel chunkSize (Some f) opts r) <> Diverge.
Proof.
  intros Hloop. unfold decodeData. unfold bind at 1, remain at 1.
  unfold bind at 1.
  destruct (alloc_loop _ _ _ r) as [[cd | e |] r1] eqn:Ealloc.
  - unfold readPCM. destruct (reader_method _) as [read|]; [| cbn; discriminate].
    unfold bind. specialize (Hloop read cd r1 eq_refl).
    destruct (frame_loop _ _ _ _ _ _ _) as [[cd' | e |] r2]; cbn [fst] in *;
      [discriminate | discriminate | contradiction].
  - discriminate.
  - pose proof (alloc_loop_ends (Z.to_nat (numberOfChannels f))
                  (frame_length (Z.min chunkSize (byteLength (dataView r) - pos r)) f)
                  [] r) as H.
    rewrite Ealloc in H. contradiction.
Qed.

(** With a channel, the decode of a data chunk ends on any fuel above the
    clamped chunk size, whatever the block size. *)
Lemma decodeData_ends_with_channel (format : Format) (chunkSize : Z)
  (opts : DecodeOptions) (r : Reader) (fuel : nat) :
  1 <= numberOfChannels format -> 0 <= blockSize format -> chunkSize < 2 ^ 32 ->
  (Z.to_nat (Z.min chunkSize (byteLength (dataView r) - pos r)) < fuel)%nat ->
  fst (decodeData fuel chunkSize (Some format) opts r) <> Diverge.
Proof.
  intros HN Hb Hsize Hfuel.
  set (c := Z.min chunkSize (byteLength (dataView r) - pos r)) in *.
  destruct (Z.eq_dec (blockSize format) 0) as [Hb0 | Hb0].
  - apply decodeData_ends_by. fold c.
    rewrite (frame_length_no_block format c Hb0 HN).
    intros read cd r1.
    destruct (Z.to_nat (numberOfChannels format)) as [|k] eqn:Hk; [lia |].
    destruct (c ?= 0); cbn [alloc_loop new_Float32Array]; try discriminate.
    intros _. destruct fuel as [|fuel]; [lia |]. cbn. discriminate.
  - apply decodeData_ends; [assumption | lia | assumption |]. fold c.
    assert (Hbn : 1 <= blockSize format * numberOfChannels format) by nia.
    destruct (Z.le_gt_cases 0 c).
    + assert (c / (blockSize format * numberOfChannels format) <= c).
      { apply Z.div_le_upper_bound; [lia | nia]. }
      lia.
    + assert (c / (blockSize format * numberOfChannels format) < 0).
      { apply Z.div_lt_upper_bound; lia. }
      lia.
Qed.

Lemma string_ok_bounds (r r' : Reader) (s : string) (n : nat) :
  string_ (S n) r = (Ok s, r') -> 0 <= pos r.
Proof.
  unfold string_. cbn [string_loop]. unfold bind.
  destruct (uint8 r) as [[c | e |] r1] eqn:E; try discriminate.
  apply (int_reader_ok _ _ _ _ _ _ _ uint8_reader) in E as (_ & _ & Hin).
  unfold in_bounds in Hin. apply andb_true_iff in Hin as [H _].
  apply Z.leb_le in H. intros _. exact H.
Qed.

Lemma decodeFormat_pos (chunkSize : Z) (r r' : Reader) (f : Format) :
  decodeFormat chunkSize r = (Ok (inl f), r') ->
  pos r' = pos r + chunkSize /\ 0 <= blockSize f.
Proof.
  intros Hrun.
  apply decodeFormat_fields in Hrun
    as (r1 & r2 & r3 & r4 & r5 & r6 & E1 & E2 & E3 & E4 & E5 & E6 & -> & _).
  apply uint16_seek in E1, E2, E6. apply uint32_seek in E3, E4.
  apply (int_reader_ok _ _ _ _ _ _ _ uint16_reader) in E5 as (-> & B5 & _).
  subst. cbn [seek pos]. split; lia.
Qed.

Lemma chunk_loop_ends (opts : DecodeOptions) :
  forall (fuel : nat) (format : option Format) (r : Reader),
    (forall f, format = Some f -> 1 <= numberOfChannels f /\ 0 <= blockSize f) ->
    Forall (fun c => 1 <= numberOfChannels (snd c)) (fmt_chunks fuel r) ->
    (Z.to_nat (byteLength (dataView r) - pos r) < fuel)%nat ->
    fst (chunk_loop fuel opts format r) <> Diverge.
Proof.
  induction fuel as [|fuel IH]; intros format r Hfmt Hall Hfuel; [lia |].
  cbn [chunk_loop fmt_chunks] in *. unfold bind at 1.
  pose proof (ends_string 4 r) as Hs.
  destruct (string_ 4 r) as [[chunkType | e |] r1] eqn:E1; cbn [fst] in Hs;
    [| discriminate | contradiction].
  unfold bind at 1.
  pose proof (ends_int_reader _ _ _ _ uint32_reader r1) as Hu.
  destruct (uint32 r1) as [[chunkSize | e |] r2] eqn:E2; cbn [fst] in Hu;
    [| discriminate | contradiction].
  pose proof (string_ok_bounds _ _ _ _ E1) as Hp0.
  pose proof (string_pos _ _ _ _ E1) as [Hp1 Hd1].
  pose proof (int_reader_ok _ _ _ _ _ _ _ uint32_reader E2) as (-> & Hsize & Hin2).
  unfold in_bounds in Hin2. apply andb_true_iff in Hin2 as [_ Hin2].
  apply Z.leb_le in Hin2. rewrite Hd1 in Hin2.
  change (Z.of_nat 4) with 4 in Hp1.
  destruct (chunkType =? "fmt ")%string.
  - unfold bind.
    pose proof (ends_decodeFormat chunkSize (seek r1 4)) as Hf.
    destruct (decodeFormat chunkSize (seek r1 4)) as [[[f | e] | e |] r3] eqn:E3;
      cbn [fst] in Hf; [| discriminate | discriminate | contradiction].
    apply Forall_cons in Hall as [HN Hall]. cbn [snd] in HN.
    pose proof (decodeFormat_pos _ _ _ _ E3) as [Hp3 Hb].
    pose proof (decodeFormat_dataView _ _ _ _ E3) as Hd3.
    cbn [seek pos dataView] in Hp3, Hd3.
    apply IH; [| exact Hall |].
    + intros f' [= <-]. split; assumption.
    + rewrite Hd3, Hd1, Hp3. lia.
  - destruct (chunkType =? "data")%string.
    + unfold bind.
      destruct format as [f|]; [| cbn; discriminate].
      destruct (Hfmt f eq_refl) as [HN Hb].
      pose proof (decodeData_ends_with_channel f chunkSize opts (seek r1 4)
                    fuel HN Hb ltac:(lia)) as Hend.
      cbn [seek pos dataView] in Hend. rewrite Hd1, Hp1 in Hend.
      destruct (decodeData fuel chunkSize (Some f) opts (seek r1 4))
        as [[[x | e] | e |] r3]; try discriminate.
      cbn [fst] in Hend. exfalso. apply Hend; [lia | reflexivity].
    + unfold skip, bind, advance. apply IH; [exact Hfmt | exact Hall |].
      cbn [seek pos dataView]. rewrite Hd1, Hp1. lia.
Qed.

(** X6. [decodeSync] ends on every buffer in which no fmt chunk it decodes
    declares zero channels: with fuel for as many loop turns as the buffer
    has bytes, the call returns audio data or throws. *)
Theorem X6_decodeSync_ends (fuel : nat) (buffer : list byte)
  (opts : option DecodeOptions) :
  Forall (fun c => 1 <= numberOfChannels (snd c)) (decoded_formats fuel buffer) ->
  (length buffer <= fuel)%nat ->
  decodeSync fuel buffer opts <> Diverge.
Proof.
  unfold decodeSync, decodeSync_run, decodeSync_body, decoded_formats, bind.
  intros Hall Hfuel.
  destruct (check_header (createReader buffer)) as [[[] | e |] r0] eqn:E0.
  - pose proof (check_header_ok _ _ _ E0) as [Hp0 Hd0].
    cbn [createReader pos dataView] in Hp0, Hd0.
    apply chunk_loop_ends; [discriminate | exact Hall |].
    rewrite Hd0, Hp0. unfold byteLength.
    destruct fuel as [|fuel]; [| lia].
    destruct buffer; [| cbn in Hfuel; lia].
    exfalso. clear - E0. vm_compute in E0. discriminate.
  - discriminate.
  - exfalso. revert E0. unfold check_header, bind.
    pose proof (ends_string 4 (createReader buffer)) as H1.
    destruct (string_ 4 (createReader buffer)) as [[riff | e |] r1]; cbn [fst] in H1;
      [| discriminate | contradiction].
    destruct (negb _); [discriminate |].
    pose proof (ends_int_reader _ _ _ _ uint32_reader r1) as H2.
    destruct (uint32 r1) as [[len | e |] r2]; cbn [fst] in H2;
      [| discriminate | contradiction].
    pose proof (ends_string 4 r2) as H3.
    destruct (string_ 4 r2) as [[wave | e |] r3]; cbn [fst] in H3;
      [| discriminate | contradiction].
    destruct (negb _); discriminate.
Qed.

Lemma X6_decodeSync_ends_witness :
  decodeSync 59 junk None <> Diverge.
Proof.
  apply X6_decodeSync_ends.
  - vm_compute. repeat constructor. discriminate.
  - vm_compute. repeat constructor.
Defined.

(* ===================================================================== *)
(** * Bit depths, missing format, end of buffer *)
(* ===================================================================== *)

(** X7. [readPCM] finds a reader method exactly for floating-point formats
    of 32 or 64 bits and integer formats of 8, 16, 24 or 32 bits; the
    symmetric option never decides whether a bit depth is supported. *)
Theorem X7_supported_bit_depths (format : Format) (opts : DecodeOptions) :
  reader_method (methodName format opts) <> None <->
  (floatingPoint format = true /\ (bitDepth format = 32 \/ bitDepth format = 64)) \/
  (floatingPoint format = false /\
   (bitDepth format = 8 \/ bitDepth format = 16 \/
    bitDepth format = 24 \/ bitDepth format = 32)).
Proof.
  rewrite dispatch_table. unfold decode_table.
  destruct (floatingPoint format); [| destruct (truthy (symmetric opts))];
    repeat match goal with
           | |- context [?a =? ?b] => destruct (Z.eqb_spec a b)
           end;
    split; intros H; try discriminate; try congruence; try (intuition lia).
Qed.

(** X8. On an unsupported bit depth [decodeData] returns the bit-depth error
    carrying that depth, on any fuel, and leaves the cursor where the data
    starts: no sample is read. (The arrays are allocated before the depth is
    looked up, so this needs a frame count that can be allocated.) *)
Theorem X8_unsupported_bit_depth (fuel : nat) (chunkSize : Z) (format : Format)
  (opts : DecodeOptions) (r : Reader) :
  reader_method (methodName format opts) = None ->
  0 <= numberOfChannels format -> 1 <= blockSize format ->
  0 <= chunkSize -> pos r <= byteLength (dataView r) ->
  decodeData fuel chunkSize (Some format) opts r
  = (Ok (inr (NotSupportedBitDepth (bitDepth format))), r).
Proof.
  intros Hnone HN Hb Hsize Hpos. unfold decodeData.
  unfold bind at 1, remain at 1. unfold bind at 1.
  assert (Halloc : exists cd,
             alloc_loop (Z.to_nat (numberOfChannels format))
               (frame_length (Z.min chunkSize (byteLength (dataView r) - pos r)) format)
               [] r = (Ok cd, r)).
  { destruct (Z.eq_dec (numberOfChannels format) 0) as [H0 | H0].
    - rewrite H0. cbn. eauto.
    - rewrite frame_length_fin by lia. rewrite alloc_loop_ok; [eauto |].
      apply Z.div_pos; nia. }
  destruct Halloc as [cd ->].
  unfold readPCM. rewrite Hnone. reflexivity.
Qed.

Lemma X8_unsupported_bit_depth_witness :
  let format := pcm_format 1 8000 12 in
  let r := {| dataView := junk; pos := 44; visited := [] |} in
  decodeData 0 4 (Some format) {| symmetric := None |} r
  = (Ok (inr (NotSupportedBitDepth 12)), r).
Proof.
  intros format r.
  apply (X8_unsupported_bit_depth 0 4 format {| symmetric := None |} r).
  - reflexivity.
  - vm_compute. discriminate.
  - vm_compute. discriminate.
  - vm_compute. discriminate.
  - vm_compute. discriminate.
Defined.

(** X9. A data chunk met before any fmt chunk makes the call fail with the
    error of reading a property of the null format, whatever the chunk
    declares and holds; the cursor stays right after the chunk header. *)
Theorem X9_data_before_fmt (fuel : nat) (opts : DecodeOptions)
  (r r1 r2 : Reader) (chunkSize : Z) :
  string_ 4 r = (Ok "data"%string, r1) ->
  uint32 r1 = (Ok chunkSize, r2) ->
  chunk_loop (S fuel) opts None r = (Throw NullFormat, r2).
Proof.
  intros E1 E2. cbn [chunk_loop]. unfold bind at 1. rewrite E1.
  unfold bind at 1. rewrite E2. reflexivity.
Qed.

Lemma X9_data_before_fmt_witness :
  decodeSync 10 (riff_header 12 ++ chunk "data" 4 (map byte_of_Z [1; 0; 2; 0])) None
  = Throw NullFormat.
Proof.
  pose (buffer := riff_header 12 ++ chunk "data" 4 (map byte_of_Z [1; 0; 2; 0])).
  pose (r := snd (check_header (createReader buffer))).
  assert (Hhead : check_header (createReader buffer) = (Ok tt, r))
    by (vm_compute; reflexivity).
  pose proof (X9_data_before_fmt 9 {| symmetric := None |} r
                (snd (string_ 4 r)) (snd (uint32 (snd (string_ 4 r)))) 4
                ltac:(vm_compute; reflexivity) ltac:(vm_compute; reflexivity)) as Hrun.
  unfold decodeSync, decodeSync_run, decodeSync_body, default_opts, bind.
  fold buffer. rewrite Hhead, Hrun. reflexivity.
Defined.

Lemma string_loop_S (n : nat) (data : string) (r : Reader) :
  string_loop (S n) data r =
  bind uint8 (fun c => string_loop n (data ++ fromCharCode c)%string) r.
Proof. reflexivity. Qed.

Lemma string_loop_fails (n : nat) :
  forall (data : string) (r : Reader),
    in_bounds (dataView r) (pos r) (Z.of_nat (S n)) = false ->
    fst (string_loop (S n) data r) = Throw OutOfBounds.
Proof.
  induction n as [|n IH]; intros data r Hout; rewrite string_loop_S; unfold bind.
  - rewrite (int_reader_fails _ _ _ _ _ uint8_reader Hout). reflexivity.
  - pose proof (uint8_reader r) as H.
    destruct (in_bounds (dataView r) (pos r) 1) eqn:Hin; rewrite ?Hin in H.
    + destruct H as (v & -> & _). apply IH. cbn [seek pos dataView].
      unfold in_bounds in *.
      apply andb_true_iff in Hin as [H1 H2]. apply Z.leb_le in H1, H2.
      apply andb_false_iff in Hout as [Hout | Hout]; apply Z.leb_gt in Hout;
        apply andb_false_iff; [lia | right; apply Z.leb_gt; lia].
    + rewrite H. reflexivity.
Qed.

Lemma string_loop_throws (n : nat) :
  forall (data : string) (r r' : Reader) (e : Exn),
    string_loop n data r = (Throw e, r') -> e = OutOfBounds.
Proof.
  induction n as [|n IH]; intros data r r' e; [discriminate |].
  rewrite string_loop_S. unfold bind.
  pose proof (uint8_reader r) as H.
  destruct (in_bounds (dataView r) (pos r) 1) eqn:Hin; rewrite ?Hin in H.
  - destruct H as (v & -> & _). apply IH.
  - rewrite H. intros [= <- _]. reflexivity.
Qed.

(** X10. The chunk loop has no end-of-file test: when fewer than 8 bytes are
    left where a chunk header is expected, the call fails with the range
    error of the read that leaves the buffer. *)
Theorem X10_end_of_buffer (fuel : nat) (opts : DecodeOptions)
  (format : option Format) (r : Reader) :
  in_bounds (dataView r) (pos r) 8 = false ->
  fst (chunk_loop (S fuel) opts format r) = Throw OutOfBounds.
Proof.
  intros Hout. cbn [chunk_loop]. unfold bind at 1.
  destruct (in_bounds (dataView r) (pos r) 4) eqn:Hin4.
  - destruct (string_ 4 r) as [[chunkType | e |] r1] eqn:E1.
    + apply string_pos in E1 as [Hp1 Hd1]. unfold bind at 1.
      rewrite (int_reader_fails _ _ _ _ _ uint32_reader); [reflexivity |].
      rewrite Hd1, Hp1. unfold in_bounds in *.
      apply andb_true_iff in Hin4 as [H1 H2]. apply Z.leb_le in H1, H2.
      apply andb_false_iff in Hout as [Hout | Hout]; apply Z.leb_gt in Hout;
        apply andb_false_iff; [lia | right; apply Z.leb_gt; lia].
    + rewrite (string_loop_throws _ _ _ _ _ E1). reflexivity.
    + pose proof (ends_string 4 r) as H. rewrite E1 in H. contradiction.
  - pose proof (string_loop_fails 3 EmptyString r Hin4) as H.
    unfold string_. destruct (string_loop 4 EmptyString r) as [[s | e |] r1];
      cbn [fst] in H; try discriminate. injection H as ->. reflexivity.
Qed.

Lemma X10_end_of_buffer_witness :
  decodeSync 10 (riff_header 4 ++ map byte_of_Z [1; 2; 3]) None = Throw OutOfBounds.
Proof.
  pose (buffer := riff_header 4 ++ map byte_of_Z [1; 2; 3]).
  pose (r := snd (check_header (createReader buffer))).
  assert (Hhead : check_header (createReader buffer) = (Ok tt, r))
    by (vm_compute; reflexivity).
  pose proof (X10_end_of_buffer 9 {| symmetric := None |} None r
                ltac:(vm_compute; reflexivity)) as Hrun.
  unfold decodeSync, decodeSync_run, decodeSync_body, default_opts, bind.
  fold buffer. rewrite Hhead.
  destruct (chunk_loop 10 {| symmetric := None |} None r) as [[x | e |] r'];
    cbn [fst] in *; congruence.
Defined.

(* ===================================================================== *)
(** * The header check *)
(* ===================================================================== *)

Lemma append_char (a s : string) (c : ascii) :
  ((a ++ String c EmptyString) ++ s = a ++ String c s)%string.
Proof. induction a as [|x a IH]; cbn; [reflexivity | rewrite IH; reflexivity]. Qed.

Lemma append_empty (a : string) : String.append a EmptyString = a.
Proof. induction a as [|x a IH]; cbn; [reflexivity | rewrite IH; reflexivity]. Qed.

Lemma fromCharCode_byte (b : byte) :
  fromCharCode (byte_val b) = String (ascii_of_byte b) EmptyString.
Proof.
  unfold fromCharCode, byte_val. rewrite N2Z.id, ascii_of_byte_via_N. reflexivity.
Qed.

Lemma uint8_in (r : Reader) (b : byte) (rest : list byte) :
  0 <= pos r ->
  skipn (Z.to_nat (pos r)) (dataView r) = b :: rest ->
  uint8 r = (Ok (byte_val b), seek r 1).
Proof.
  intros Hp Hskip. unfold uint8, bind, view, advance, ret, getUint8, get_bytes.
  rewrite Z.add_0_r.
  assert (Hlen : pos r + 1 <= byteLength (dataView r)).
  { unfold byteLength.
    assert (length (skipn (Z.to_nat (pos r)) (dataView r)) = S (length rest))
      by (rewrite Hskip; reflexivity).
    rewrite length_skipn in H. lia. }
  destruct (Z.leb_spec 0 (pos r)); [| lia].
  destruct (Z.leb_spec (pos r + Z.of_nat 1) (byteLength (dataView r))); [| lia].
  cbn [andb]. rewrite Hskip. cbn. rewrite Z.add_0_r. reflexivity.
Qed.

Lemma after_bytes_S (n : nat) (r : Reader) :
  after_bytes (S n) r = after_bytes n (seek r 1).
Proof.
  induction n as [|n IH]; [reflexivity |].
  change (after_bytes (S (S n)) r) with (seek (after_bytes (S n) r) 1).
  rewrite IH. reflexivity.
Qed.

(** Inside the buffer [string] returns the bytes at the cursor as
    characters. *)
Lemma string_loop_bytes (n : nat) :
  forall (data : string) (r : Reader),
    in_bounds (dataView r) (pos r) (Z.of_nat n) = true ->
    string_loop n data r =
    (Ok (data ++ string_of_list_byte
                   (firstn n (skipn (Z.to_nat (pos r)) (dataView r))))%string,
     after_bytes n r).
Proof.
  induction n as [|n IH]; intros data r Hin.
  - cbn [string_loop firstn string_of_list_byte map string_of_list_ascii].
    rewrite append_empty. reflexivity.
  - unfold in_bounds in Hin. apply andb_true_iff in Hin as [H1 H2].
    apply Z.leb_le in H1, H2. unfold byteLength in H2.
    destruct (skipn (Z.to_nat (pos r)) (dataView r)) as [|b rest] eqn:Hskip.
    { assert (length (skipn (Z.to_nat (pos r)) (dataView r)) = 0%nat)
        by (rewrite Hskip; reflexivity).
      rewrite length_skipn in H. lia. }
    rewrite string_loop_S. unfold bind.
    rewrite (uint8_in r b rest H1 Hskip).
    rewrite IH.
    + cbn [seek pos dataView]. rewrite after_bytes_S.
      replace (Z.to_nat (pos r + 1)) with (S (Z.to_nat (pos r))) by lia.
      assert (Hrest : skipn (S (Z.to_nat (pos r))) (dataView r) = rest).
      { replace (S (Z.to_nat (pos r))) with (Z.to_nat (pos r) + 1)%nat by lia.
        rewrite <- drop_drop, Hskip. reflexivity. }
      rewrite Hrest. rewrite fromCharCode_byte.
      cbn [firstn string_of_list_byte map string_of_list_ascii].
      unfold string_of_list_byte.
      rewrite append_char. reflexivity.
    + cbn [seek pos dataView]. unfold in_bounds, byteLength.
      apply andb_true_iff. split; apply Z.leb_le; lia.
Qed.

Lemma string_fails (r : Reader) :
  in_bounds (dataView r) (pos r) 4 = false ->
  exists r', string_ 4 r = (Throw OutOfBounds, r').
Proof.
  intros Hout. pose proof (string_loop_fails 3 EmptyString r Hout) as H.
  unfold string_. destruct (string_loop 4 EmptyString r) as [[s | e |] r'];
    cbn [fst] in H; try discriminate.
  injection H as ->. eauto.
Qed.

(** X11. What [decodeSync] does before the chunk loop: a buffer of fewer
    than 4 bytes (the empty one among them) fails with the range error, not
    with the invalid-file error; otherwise bytes 0..3 must spell RIFF; then
    a buffer of fewer than 12 bytes fails with the range error; otherwise
    bytes 8..11 must spell WAVE. Bytes 4..7, the declared file length, decide
    nothing, and the loop starts at offset 12. *)
Theorem X11_header_check (fuel : nat) (buffer : list byte)
  (opts : option DecodeOptions) :
  decodeSync fuel buffer opts =
  if byteLength buffer <? 4 then Throw OutOfBounds
  else if negb (string_of_list_byte (firstn 4 buffer) =? "RIFF")%string
  then Throw InvalidWav
  else if byteLength buffer <? 12 then Throw OutOfBounds
  else if negb (string_of_list_byte (firstn 4 (skipn 8 buffer)) =? "WAVE")%string
  then Throw InvalidWav
  else fst (chunk_loop fuel (default_opts opts) None
              {| dataView := buffer; pos := 12;
                 visited := [11; 10; 9; 8; 4; 3; 2; 1; 0] |}).
Proof.
  unfold decodeSync, decodeSync_run, decodeSync_body, check_header.
  set (r0 := createReader buffer).
  destruct (Z.ltb_spec (byteLength buffer) 4) as [Hlt4 | Hge4].
  { destruct (string_fails r0) as [r' E].
    - unfold in_bounds. cbn [r0 createReader pos dataView].
      apply andb_false_iff. right. apply Z.leb_gt. lia.
    - unfold bind. rewrite E. reflexivity. }
  unfold bind at 1. unfold bind at 1. unfold string_ at 1.
  rewrite string_loop_bytes
    by (unfold in_bounds; cbn [r0 createReader pos dataView];
        apply andb_true_iff; split; apply Z.leb_le; lia).
  cbn [r0 createReader pos dataView Z.to_nat skipn String.append].
  destruct (negb _); [reflexivity |].
  change (after_bytes 4 r0)
    with {| dataView := buffer; pos := 4; visited := [3; 2; 1; 0] |}.
  set (r4 := {| dataView := buffer; pos := 4; visited := [3; 2; 1; 0] |}).
  unfold bind at 1.
  pose proof (uint32_reader r4) as H4. cbn [r4 pos dataView] in H4.
  destruct (in_bounds buffer 4 4) eqn:Hin4.
  - destruct H4 as (v & E4 & _). rewrite E4.
    change (seek r4 4)
      with {| dataView := buffer; pos := 8; visited := [4; 3; 2; 1; 0] |}.
    set (r8 := {| dataView := buffer; pos := 8; visited := [4; 3; 2; 1; 0] |}).
    unfold bind at 1.
    destruct (Z.ltb_spec (byteLength buffer) 12) as [Hlt12 | Hge12].
    + destruct (string_fails r8) as [r' E].
      * unfold in_bounds. cbn [r8 pos dataView].
        apply andb_false_iff. right. apply Z.leb_gt. lia.
      * rewrite E. reflexivity.
    + unfold string_ at 1.
      rewrite string_loop_bytes
        by (unfold in_bounds; cbn [r8 pos dataView];
            apply andb_true_iff; split; apply Z.leb_le; lia).
      cbn [r8 pos dataView String.append].
      change (Z.to_nat 8) with 8%nat.
      destruct (negb _); reflexivity.
  - rewrite H4.
    destruct (Z.ltb_spec (byteLength buffer) 12) as [Hlt12 | Hge12]; [reflexivity |].
    exfalso. unfold in_bounds in Hin4.
    apply andb_false_iff in Hin4 as [H | H]; apply Z.leb_gt in H; lia.
Qed.

(* ===================================================================== *)
(** * The range of the integer samples *)
(* ===================================================================== *)

Lemma all_from_spec (n : nat) :
  forall z f, all_from n z f = true ->
              forall x, z <= x < z + Z.of_nat n -> f x = true.
Proof.
  induction n as [|n IH]; intros z f H x Hx; [lia |].
  cbn [all_from] in H. apply andb_true_iff in H as [H0 H1].
  destruct (Z.eq_dec x z) as [-> | Hne]; [exact H0 |].
  apply (IH (z + 1) f H1). lia.
Qed.

Lemma byte_of_val (b : byte) : byte_of_Z (byte_val b) = b.
Proof. destruct b; reflexivity. Qed.

(** Inside the buffer, the bytes a getter reads are the window of [n]
    bytes at the offset, and a getter reads the same from the window
    alone. *)
Lemma get_bytes_window (dv : list byte) (p : Z) (n : nat) :
  in_bounds dv p (Z.of_nat n) = true ->
  get_bytes dv p n = get_bytes (firstn n (skipn (Z.to_nat p) dv)) 0 n /\
  length (firstn n (skipn (Z.to_nat p) dv)) = n.
Proof.
  intros Hin.
  assert (Hlen : length (firstn n (skipn (Z.to_nat p) dv)) = n).
  { unfold in_bounds, byteLength in Hin.
    apply andb_true_iff in Hin as [H1 H2]. apply Z.leb_le in H1, H2.
    rewrite length_take, length_drop. lia. }
  split; [| exact Hlen].
  rewrite (get_bytes_in _ _ _ Hin).
  set (W := firstn n (skipn (Z.to_nat p) dv)) in *.
  rewrite get_bytes_in.
  - change (skipn (Z.to_nat 0) W) with W.
    rewrite firstn_all2 by lia. reflexivity.
  - unfold in_bounds, byteLength. rewrite Hlen.
    apply andb_true_iff. split; apply Z.leb_le; lia.
Qed.

Ltac window_read n :=
  intros dv p Hin; unfold sample_at, bind, view, advance, ret,
    getUint8, getInt16;
  cbn [dataView pos fst]; rewrite !Z.add_0_r;
  destruct (get_bytes_window dv p n Hin) as [-> _];
  destruct (get_bytes _ 0 n); reflexivity.

Lemma pcm8_window : forall dv p,
  in_bounds dv p 1 = true ->
  sample_at pcm8 dv p = sample_at pcm8 (firstn 1 (skipn (Z.to_nat p) dv)) 0.
Proof. unfold pcm8. window_read 1%nat. Qed.

Lemma pcm8s_window : forall dv p,
  in_bounds dv p 1 = true ->
  sample_at pcm8s dv p = sample_at pcm8s (firstn 1 (skipn (Z.to_nat p) dv)) 0.
Proof. unfold pcm8s. window_read 1%nat. Qed.

Lemma pcm16_window : forall dv p,
  in_bounds dv p 2 = true ->
  sample_at pcm16 dv p = sample_at pcm16 (firstn 2 (skipn (Z.to_nat p) dv)) 0.
Proof. unfold pcm16. window_read 2%nat. Qed.

Lemma pcm16s_window : forall dv p,
  in_bounds dv p 2 = true ->
  sample_at pcm16s dv p = sample_at pcm16s (firstn 2 (skipn (Z.to_nat p) dv)) 0.
Proof. unfold pcm16s. window_read 2%nat. Qed.

Lemma pcm8_windows (b : byte) :
  sample_in_unit pcm8 [b] && sample_in_unit pcm8s [b] = true.
Proof. destruct b; vm_compute; reflexivity. Qed.

Lemma pcm16_windows :
  all_from 256 0 (fun x => all_from 256 0 (fun y =>
    sample_in_unit pcm16 [byte_of_Z x; byte_of_Z y] &&
    sample_in_unit pcm16s [byte_of_Z x; byte_of_Z y])) = true.
Proof. vm_compute. reflexivity. Qed.

Lemma pcm16_window_in_unit (b0 b1 : byte) :
  sample_in_unit pcm16 [b0; b1] && sample_in_unit pcm16s [b0; b1] = true.
Proof.
  pose proof (byte_val_range b0) as H0. pose proof (byte_val_range b1) as H1.
  pose proof (all_from_spec _ _ _ pcm16_windows (byte_val b0) ltac:(cbn; lia)) as Hx.
  cbv beta in Hx.
  pose proof (all_from_spec _ _ _ Hx (byte_val b1) ltac:(cbn; lia)) as Hy.
  cbv beta in Hy. rewrite !byte_of_val in Hy. exact Hy.
Qed.

(** A value a sampler returns is the sample of the window at the cursor. *)
Lemma read_window (read : M float) (w : Z) (n : nat) (r r' : Reader) (v : float) :
  sampler read w -> w = Z.of_nat n ->
  (forall dv p, in_bounds dv p w = true ->
     sample_at read dv p = sample_at read (firstn n (skipn (Z.to_nat p) dv)) 0) ->
  read r = (Ok v, r') ->
  sample_at read (firstn n (skipn (Z.to_nat (pos r)) (dataView r))) 0 = Ok v /\
  length (firstn n (skipn (Z.to_nat (pos r)) (dataView r))) = n.
Proof.
  intros Hs Hw Hwin Hrun.
  destruct (sampler_ok read w Hs r r' v Hrun) as [_ Hin].
  rewrite <- Hwin by exact Hin.
  rewrite (sample_at_in read w _ _ Hs Hin).
  rewrite (sampler_in read w Hs r Hin) in Hrun. injection Hrun as <- _.
  split; [reflexivity |].
  subst w. apply get_bytes_window. exact Hin.
Qed.

(** X12. Every sample the 8-bit readers return lies in [-1, 1], and still
    does once stored as a binary32 value, either variant. *)
Theorem X12_pcm8_in_unit (r r' : Reader) (v : float) :
  pcm8 r = (Ok v, r') \/ pcm8s r = (Ok v, r') -> in_unit v = true.
Proof.
  intros [Hrun | Hrun].
  - destruct (read_window pcm8 1 1%nat r r' v pcm8_sampler eq_refl pcm8_window Hrun)
      as [Hv Hlen].
    destruct (firstn 1 _) as [|b [|? ?]]; try discriminate.
    pose proof (pcm8_windows b) as H. apply andb_true_iff in H as [H _].
    unfold sample_in_unit in H. rewrite Hv in H. exact H.
  - destruct (read_window pcm8s 1 1%nat r r' v pcm8s_sampler eq_refl pcm8s_window Hrun)
      as [Hv Hlen].
    destruct (firstn 1 _) as [|b [|? ?]]; try discriminate.
    pose proof (pcm8_windows b) as H. apply andb_true_iff in H as [_ H].
    unfold sample_in_unit in H. rewrite Hv in H. exact H.
Qed.

Lemma X12_pcm8_in_unit_witness :
  let r := {| dataView := [x00]; pos := 0; visited := [] |} in
  pcm8 r = (Ok (-1)%float, seek r 1) /\ in_unit (-1) = true.
Proof.
  intros r.
  assert (Hrun : pcm8 r = (Ok (-1)%float, seek r 1)) by (vm_compute; reflexivity).
  split; [exact Hrun |].
  exact (X12_pcm8_in_unit r (seek r 1) (-1)%float (or_introl Hrun)).
Defined.

(** X13. Every sample the 16-bit readers return lies in [-1, 1], and still
    does once stored as a binary32 value, either variant. *)
Theorem X13_pcm16_in_unit (r r' : Reader) (v : float) :
  pcm16 r = (Ok v, r') \/ pcm16s r = (Ok v, r') -> in_unit v = true.
Proof.
  intros [Hrun | Hrun].
  - destruct (read_window pcm16 2 2%nat r r' v pcm16_sampler eq_refl pcm16_window Hrun)
      as [Hv Hlen].
    destruct (firstn 2 _) as [|b0 [|b1 [|? ?]]]; try discriminate.
    pose proof (pcm16_window_in_unit b0 b1) as H. apply andb_true_iff in H as [H _].
    unfold sample_in_unit in H. rewrite Hv in H. exact H.
  - destruct (read_window pcm16s 2 2%nat r r' v pcm16s_sampler eq_refl pcm16s_window Hrun)
      as [Hv Hlen].
    destruct (firstn 2 _) as [|b0 [|b1 [|? ?]]]; try discriminate.
    pose proof (pcm16_window_in_unit b0 b1) as H. apply andb_true_iff in H as [_ H].
    unfold sample_in_unit in H. rewrite Hv in H. exact H.
Qed.

Lemma X13_pcm16_in_unit_witness :
  let r := {| dataView := [xff; x7f]; pos := 0; visited := [] |} in
  pcm16 r = (Ok 1%float, seek r 2) /\ in_unit 1 = true.
Proof.
  intros r.
  assert (Hrun : pcm16 r = (Ok 1%float, seek r 2)) by (vm_compute; reflexivity).
  split; [exact Hrun |].
  exact (X13_pcm16_in_unit r (seek r 2) 1%float (or_introl Hrun)).
Defined.

(* ===================================================================== *)
(** * Edge cases of the data chunk *)
(* ===================================================================== *)

Lemma empty_rows (l : list (list float)) (n : nat) :
  length l = n -> Forall (fun a => length a = 0%nat) l -> l = replicate n [].
Proof.
  intros <-. induction 1 as [|a l Ha _ IH]; [reflexivity |].
  cbn [length replicate]. rewrite <- IH.
  destruct a; [reflexivity | discriminate].
Qed.

(** X14. A data chunk with nothing to decode is no error: when the declared
    size is 0, or no byte is left after the chunk header, a format with a
    channel, a block size and a supported bit depth gets one empty array per
    channel, and the cursor does not move. *)
Theorem X14_empty_data_chunk (fuel : nat) (chunkSize : Z) (format : Format)
  (opts : DecodeOptions) (read : M float) (r : Reader) :
  reader_method (methodName format opts) = Some read ->
  1 <= numberOfChannels format -> 1 <= blockSize format ->
  0 <= pos r <= byteLength (dataView r) -> 0 <= chunkSize < 2 ^ 32 ->
  Z.min chunkSize (byteLength (dataView r) - pos r) = 0 ->
  (0 < fuel)%nat ->
  exists r',
    decodeData fuel chunkSize (Some format) opts r =
      (Ok (inl {| info_numberOfChannels := numberOfChannels format;
                  info_length := JS.of_Z 0;
                  info_sampleRate := sampleRate format;
                  channelData := replicate (Z.to_nat (numberOfChannels format)) [] |}),
       r') /\
    pos r' = pos r.
Proof.
  intros Hm HN Hb Hpos Hsize Hmin Hfuel. rewrite dispatch_table in Hm.
  destruct (decodeData_ok fuel chunkSize format opts read r 0)
    as (cd' & r' & Hrun & _ & Hp & Hlen & Hcell); try assumption; try lia.
  - rewrite Hmin. rewrite Z.div_0_l by nia. reflexivity.
  - exists r'. split; [| lia]. rewrite Hrun.
    assert (Hrows : Forall (fun a => length a = 0%nat) cd').
    { apply (rows_of_cells cd' (Z.to_nat (numberOfChannels format)));
        [exact Hlen |].
      intros c j. rewrite Hcell.
      destruct (decide _) as [[_ H] | H]; [lia |].
      split; [intros [? [=]] | intros [_ H']; lia]. }
    rewrite (empty_rows cd' _ Hlen Hrows). reflexivity.
Qed.

Lemma X14_empty_data_chunk_witness :
  exists r',
    decodeData 1 0 (Some (pcm_format 2 44100 16)) {| symmetric := None |}
      {| dataView := stereo16; pos := 44; visited := [] |}
    = (Ok (inl {| info_numberOfChannels := 2; info_length := JS.of_Z 0;
                  info_sampleRate := 44100; channelData := [[]; []] |}), r') /\
    pos r' = 44.
Proof.
  apply (X14_empty_data_chunk 1 0 (pcm_format 2 44100 16) {| symmetric := None |}
           pcm16 {| dataView := stereo16; pos := 44; visited := [] |}).
  - reflexivity.
  - vm_compute. discriminate.
  - vm_compute. discriminate.
  - vm_compute. split; discriminate.
  - vm_compute. split; [discriminate | reflexivity].
  - reflexivity.
  - lia.
Defined.

(** X15. A format that declares a block size of 0 with at least one channel
    makes every data chunk with a byte to decode fail with the range error
    of an invalid array length: the frame count is +Infinity, and the first
    [Float32Array] cannot be allocated. No sample is read. *)
Theorem X15_zero_block_size (fuel : nat) (chunkSize : Z) (format : Format)
  (opts : DecodeOptions) (r : Reader) :
  blockSize format = 0 -> 1 <= numberOfChannels format ->
  0 < Z.min chunkSize (byteLength (dataView r) - pos r) ->
  frame_length (Z.min chunkSize (byteLength (dataView r) - pos r)) format = JS.PInf /\
  decodeData fuel chunkSize (Some format) opts r = (Throw InvalidArrayLength, r).
Proof.
  intros Hb HN Hc.
  assert (Hlen : frame_length (Z.min chunkSize (byteLength (dataView r) - pos r))
                   format = JS.PInf).
  { rewrite (frame_length_no_block format _ Hb HN).
    destruct (Z.compare_spec (Z.min chunkSize (byteLength (dataView r) - pos r)) 0);
      try lia. reflexivity. }
  split; [exact Hlen |].
  unfold decodeData. unfold bind at 1, remain at 1. rewrite Hlen.
  destruct (Z.to_nat (numberOfChannels format)) as [|k] eqn:Hk; [lia |].
  reflexivity.
Qed.

Lemma X15_zero_block_size_witness :
  let format := {| formatId := 1; floatingPoint := false; numberOfChannels := 1;
                   sampleRate := 8000; byteRate := 0; blockSize := 0;
                   bitDepth := 16 |} in
  let r := {| dataView := junk; pos := 55; visited := [] |} in
  decodeData 10 4 (Some format) {| symmetric := None |} r
  = (Throw InvalidArrayLength, r).
Proof.
  intros format r.
  apply (X15_zero_block_size 10 4 format {| symmetric := None |} r).
  - reflexivity.
  - vm_compute. discriminate.
  - vm_compute. reflexivity.
Defined.
